(** * The subtask assigner of the scheduling supervisor

    A shallow embedding of [AssignerActor]
    (services/scheduling/supervisor/assigner.py): the band indexes kept by
    [_update_bands], the band selection of [assign_subtasks] and the queue
    rebalancing of [reassign_subtasks], with the properties the design
    document states about them.  Further parts cover [gen_uid], the
    supervisor references that the cluster API resolves behind
    [get_all_bands] (services/cluster/api/oscar.py), the file system
    registry (lib/filesystem/core.py) and the parquet engine checks
    (dataframe/datasource/read_parquet.py).

    Conventions of the embedding:
    - a band is the pair (address, name) of byte strings; tuples and strings
      compare lexicographically, as in Python;
    - a Python [dict] is an association list in insertion order with unique
      keys ([dict_set] overwrites in place and appends new keys);
    - a Python [set] is a duplicate-free list; the order in which a set is
      iterated is not fixed by the language, so it is a parameter
      ([SetOrder]) and every theorem holds for all iteration orders;
    - [np.random.choice] draws from an explicit stream of naturals that is
      threaded through the computation, so every theorem holds for all
      random outcomes;
    - exceptions are values of [error]; a computation is a function from
      the random stream to either an error or a value and the rest of the
      stream;
    - queue lengths and store sizes are unbounded integers ([Z]);
    - [a / b] on integers is the IEEE 754 double nearest to the exact
      quotient (ties to the even significand, [OverflowError] beyond the
      largest double), and [int()] truncates it: [int_true_divide]
      computes [int(a / b)] on integers, without floating point numbers. *)

From Stdlib Require Import List String Ascii ZArith Bool Lia Permutation Sorted.
Import ListNotations.
Local Open Scope string_scope.
Local Open Scope Z_scope.
Local Open Scope list_scope.

Set Implicit Arguments.

(** ** Python primitives *)

Module Py.

(** Exceptions that the assigner raises or lets escape. *)
Inductive error : Type :=
| NoMatchingSlots (device : string)
| NoAvailableBand
| KeyError
| ValueError
| TypeError
| AssertionError
| ChunkMetaMissing
| OverflowError
| ZeroDivisionError.

Inductive result (A : Type) : Type :=
| Ok (a : A)
| Err (e : error).
Arguments Ok {A} a.
Arguments Err {A} e.

(** Computations that may raise and may draw random numbers. *)
Definition M (A : Type) : Type := list nat -> result (A * list nat).

Definition ret {A} (a : A) : M A := fun rng => Ok (a, rng).

Definition raise {A} (e : error) : M A := fun _ => Err e.

Definition bind {A B} (m : M A) (f : A -> M B) : M B :=
  fun rng =>
    match m rng with
    | Ok (a, rng') => f a rng'
    | Err e => Err e
    end.

(** [np.random.choice(n)]: an index below [n]; raises [ValueError] when
    [n] is zero. *)
Definition random_choice (n : nat) : M nat :=
  fun rng =>
    match n with
    | O => Err ValueError
    | S _ => Ok (Nat.modulo (hd O rng) n, tl rng)
    end.

(** [l[i]] for an index known to be in range; [IndexError] cannot occur at
    the call sites, the default is never returned there. *)
Definition lift_option {A} (e : error) (o : option A) : M A :=
  match o with
  | Some a => ret a
  | None => raise e
  end.

(** [l[np.random.choice(len(l))]] *)
Definition random_element {A} (l : list A) : M A :=
  bind (random_choice (List.length l)) (fun i => lift_option ValueError (nth_error l i)).

(** Association lists as insertion-ordered dictionaries. *)
Section Dict.
Variables K V : Type.
Variable K_eq_dec : forall x y : K, {x = y} + {x <> y}.

Definition dict : Type := list (K * V).

Definition keys (d : dict) : list K := map fst d.
Definition values (d : dict) : list V := map snd d.

Fixpoint dict_get (d : dict) (k : K) : option V :=
  match d with
  | [] => None
  | (k', v) :: d' => if K_eq_dec k k' then Some v else dict_get d' k
  end.

(** [d.get(k, default)] *)
Definition dict_get_default (d : dict) (k : K) (default : V) : V :=
  match dict_get d k with
  | Some v => v
  | None => default
  end.

(** [d[k] = v]: an existing key keeps its position. *)
Fixpoint dict_set (d : dict) (k : K) (v : V) : dict :=
  match d with
  | [] => [(k, v)]
  | (k', v') :: d' =>
      if K_eq_dec k k' then (k, v) :: d' else (k', v') :: dict_set d' k v
  end.

(** [d.update(other)], also [dict(items)] from the empty dictionary. *)
Definition dict_update (d other : dict) : dict :=
  fold_left (fun acc kv => dict_set acc (fst kv) (snd kv)) other d.

Definition dict_of_items (items : list (K * V)) : dict :=
  dict_update [] items.

Definition mem (k : K) (l : list K) : bool :=
  if in_dec K_eq_dec k l then true else false.

(** [set(a) - set(b)] and [set(a) | set(b)] as duplicate-free lists,
    before an iteration order is chosen. *)
Definition set_difference (a b : list K) : list K :=
  filter (fun x => negb (mem x b)) (nodup K_eq_dec a).

Definition set_union (a b : list K) : list K :=
  nodup K_eq_dec (a ++ b).
End Dict.

(** [sorted(l)] for a total comparison [leb]: Python's sort is stable, and
    so is insertion from the right. *)
Section Sorted.
Variable A : Type.
Variable leb : A -> A -> bool.

Fixpoint insert_sorted (x : A) (l : list A) : list A :=
  match l with
  | [] => [x]
  | y :: l' => if leb x y then x :: l else y :: insert_sorted x l'
  end.

Definition sorted (l : list A) : list A := fold_right insert_sorted [] l.

(** The order that [leb] decides. *)
Definition le_of (a b : A) : Prop := leb a b = true.
End Sorted.

(** [itertools.groupby(l, key)]: the maximal runs of consecutive elements
    with equal keys. *)
Fixpoint groupby {A : Type} (key : A -> string) (l : list A)
  : list (string * list A) :=
  match l with
  | [] => []
  | x :: l' =>
      match groupby key l' with
      | (k, g) :: rest =>
          if String.eqb (key x) k then (k, x :: g) :: rest
          else (key x, [x]) :: (k, g) :: rest
      | [] => [(key x, [x])]
      end
  end.

(** [a <= b] on tuples whose first component is a string: the first
    components decide unless they are equal. *)
Definition lex_leb {A : Type} (leb : A -> A -> bool) (a b : string * A) : bool :=
  match String.compare (fst a) (fst b) with
  | Lt => true
  | Gt => false
  | Eq => leb (snd a) (snd b)
  end.

(** [sum(l)] over integers. *)
Definition sum (l : list Z) : Z := fold_right Z.add 0 l.

(** A computation that raises and draws nothing. *)
Definition lift_result {A} (r : result A) : M A :=
  fun rng =>
    match r with
    | Ok a => Ok (a, rng)
    | Err e => Err e
    end.

(** The integer nearest to [n / d], ties to the even one
    ([0 <= n], [0 < d]). *)
Definition round_half_even (n d : Z) : Z :=
  let q := n / d in
  let r := n mod d in
  if 2 * r <? d then q
  else if d <? 2 * r then q + 1
  else if Z.even q then q else q + 1.

(** The exponent [e] with [2^e <= n / d < 2^(e+1)] ([0 < n], [0 < d]). *)
Definition quotient_exponent (n d : Z) : Z :=
  let e := Z.log2 n - Z.log2 d in
  if (if 0 <=? e then n <? d * 2 ^ e else n * 2 ^ (- e) <? d) then e - 1 else e.

(** [int(n / d)] for [0 <= n] and [0 < d]: the quotient is rounded to 53
    significant bits, or to a multiple of 2^-1074 when it is that small;
    [None] when the rounded quotient is beyond the largest double. *)
Definition int_true_divide_pos (n d : Z) : option Z :=
  if n =? 0 then Some 0
  else
    let e := quotient_exponent n d in
    let s := Z.max (e - 52) (-1074) in
    if 0 <=? s then
      let m := round_half_even n (d * 2 ^ s) in
      if 2 ^ 1024 <=? m * 2 ^ s then None else Some (m * 2 ^ s)
    else
      let m := round_half_even (n * 2 ^ (- s)) d in
      Some (m / 2 ^ (- s)).

(** [int(a / b)] on integers: the division rounds the magnitude and keeps
    the sign, [int()] truncates toward zero. *)
Definition int_true_divide (a b : Z) : result Z :=
  if b =? 0 then Err ZeroDivisionError
  else
    match int_true_divide_pos (Z.abs a) (Z.abs b) with
    | Some v => Ok (Z.sgn a * Z.sgn b * v)
    | None => Err OverflowError
    end.

End Py.
Import Py.

Notation "x <- m ;; k" := (bind m (fun x => k))
  (at level 61, m at next level, right associativity).

(** ** Bands *)

(** [BandType]: the pair (address, name). *)
Definition BandType : Type := (string * string)%type.

Definition band_eq_dec : forall a b : BandType, {a = b} + {a <> b}.
Proof. decide equality; apply string_dec. Defined.

(** [name.startswith(prefix)] *)
Definition startswith (prefix name : string) : bool := String.prefix prefix name.

(** Tuple comparison [a <= b] on bands, and on the pairs (device type, band)
    that [_update_bands] sorts. *)
Definition band_leb : BandType -> BandType -> bool := lex_leb String.leb.

Definition typed_band_leb : string * BandType -> string * BandType -> bool :=
  lex_leb band_leb.

Definition band_in (b : BandType) (l : list BandType) : bool := mem band_eq_dec b l.

Definition null {A} (l : list A) : bool :=
  match l with
  | [] => true
  | _ :: _ => false
  end.

(** The iteration order of a set of bands: some permutation of its
    elements. *)
Record SetOrder : Type := {
  set_iter : list BandType -> list BandType;
  set_iter_perm : forall l, Permutation (set_iter l) l
}.

Definition insertion_order : SetOrder :=
  {| set_iter := fun l => l; set_iter_perm := @Permutation_refl BandType |}.

(** ** The state of the actor and its band indexes *)

Record AssignerActor : Type := {
  _bands : list BandType;
  _address_to_bands : dict string (list BandType);
  _device_type_to_bands : dict string (list BandType)
}.

(** [gen_uid]: the name under which the assigner of a session is
    registered, [f"{session_id}_assigner"]. *)
Definition gen_uid (session_id : string) : string :=
  String.append session_id "_assigner".

(** [__init__] *)
Definition init : AssignerActor :=
  {| _bands := []; _address_to_bands := []; _device_type_to_bands := [] |}.

Definition device_type (b : BandType) : string :=
  if startswith "numa" (snd b) then "numa" else "gpu".

Definition _update_bands (bands : list BandType) : AssignerActor :=
  {| _bands := bands;
     _address_to_bands :=
       dict_of_items string_dec (groupby fst (sorted band_leb bands));
     _device_type_to_bands :=
       dict_of_items string_dec
         (map (fun ktps => (fst ktps, map snd (snd ktps)))
            (groupby fst
               (sorted typed_band_leb (map (fun b => (device_type b, b)) bands))))
  |}.

Definition device_prefix (is_gpu : bool) : string :=
  if negb is_gpu then "numa" else "gpu".

Definition _get_device_bands (self : AssignerActor) (is_gpu : bool)
  : M (list BandType) :=
  let band_prefix := device_prefix is_gpu in
  let filtered_bands :=
    dict_get_default string_dec (_device_type_to_bands self) band_prefix [] in
  if null filtered_bands
  then raise (NoMatchingSlots (if is_gpu then "gpu" else "cpu"))
  else ret filtered_bands.

(** [exclude_bands] is a set used for membership and emptiness only; [None]
    and the empty set are both the empty list. *)
Definition _get_random_band (self : AssignerActor) (is_gpu : bool)
  (exclude_bands : list BandType) (random_when_unavailable : bool)
  : M BandType :=
  bands <- _get_device_bands self is_gpu ;;
  if negb (null exclude_bands) then
    let avail_bands :=
      filter (fun band => negb (band_in band exclude_bands)) bands in
    if negb (null avail_bands) then random_element avail_bands
    else if negb random_when_unavailable then raise NoAvailableBand
    else random_element bands
  else random_element bands.

(** The watcher task of [__post_create__] and the refresh at the start of
    [assign_subtasks] are the only writers of the state. *)
Definition ensure_bands (self : AssignerActor) (cluster_bands : list BandType)
  : AssignerActor :=
  if null (_bands self) then _update_bands cluster_bands else self.

Inductive reachable : AssignerActor -> Prop :=
| reachable_init : reachable init
| reachable_watch self bands :
    reachable self -> reachable (_update_bands bands)
| reachable_assign self cluster_bands :
    reachable self -> reachable (ensure_bands self cluster_bands).

(** ** Subtasks and chunk metadata, as far as the assigner reads them *)

Inductive OperandKind : Type := Fetch | FetchShuffle | OtherOperand.

Record Operand : Type := { gpu : bool; kind : OperandKind }.

Record Chunk : Type := { op : Operand; key : string; is_broadcaster : bool }.

(** Modelled from the spec: the chunk graph class is not among the sources;
    the assigner iterates over its nodes and over its source nodes only.  A
    graph is its nodes in iteration order and its edges (predecessor index,
    successor index). *)
Record ChunkGraph : Type := { nodes : list Chunk; edges : list (nat * nat) }.

Definition has_predecessor (g : ChunkGraph) (i : nat) : bool :=
  existsb (fun e => Nat.eqb (snd e) i) (edges g).

Fixpoint indep_from (g : ChunkGraph) (i : nat) (l : list Chunk) : list Chunk :=
  match l with
  | [] => []
  | c :: l' =>
      if has_predecessor g i then indep_from g (S i) l'
      else c :: indep_from g (S i) l'
  end.

(** Modelled from the spec: [chunk_graph.iter_indep()] yields the source
    nodes, that is the nodes without predecessors, in iteration order. *)
Definition iter_indep (g : ChunkGraph) : list Chunk := indep_from g O (nodes g).

(** Modelled from the spec: the fields of a subtask that the assigner
    reads; [expect_bands] is optional. *)
Record Subtask : Type := {
  subtask_id : string;
  chunk_graph : ChunkGraph;
  expect_bands : option (list BandType);
  bands_specified : bool
}.

(** [any(c.op.gpu for c in subtask.chunk_graph)] *)
Definition subtask_is_gpu (subtask : Subtask) : bool :=
  existsb (fun c => gpu (op c)) (nodes (chunk_graph subtask)).

(** The truth value of [subtask.expect_bands]. *)
Definition expect_bands_list (subtask : Subtask) : list BandType :=
  match expect_bands subtask with
  | Some l => l
  | None => []
  end.

(** Modelled from the spec: the record that
    [get_chunk_meta(key, ["store_size", "bands"])] returns; the metadata
    service itself is a parameter of [assign_subtasks]. *)
Record ChunkMeta : Type := { store_size : Z; bands : list BandType }.

(** ** assign_subtasks *)

(** What the first loop collects. *)
Record Gathered : Type := {
  inp_keys : list string;
  broadcaster_keys : list string;
  selected_bands : dict string (list BandType)
}.

Definition no_keys : Gathered :=
  {| inp_keys := []; broadcaster_keys := []; selected_bands := [] |}.

(** [s.add(k)] *)
Definition set_add_key (k : string) (s : list string) : list string :=
  if mem string_dec k s then s else s ++ [k].

Definition add_input (c : Chunk) (g : Gathered) : Gathered :=
  {| inp_keys := set_add_key (key c) (inp_keys g);
     broadcaster_keys :=
       if is_broadcaster c then set_add_key (key c) (broadcaster_keys g)
       else broadcaster_keys g;
     selected_bands := selected_bands g |}.

Definition select (subtask : Subtask) (l : list BandType) (g : Gathered)
  : Gathered :=
  {| inp_keys := inp_keys g;
     broadcaster_keys := broadcaster_keys g;
     selected_bands := dict_set string_dec (selected_bands g) (subtask_id subtask) l |}.

Section AssignSubtasks.
Variable self : AssignerActor.
Variable get_chunk_meta : string -> option ChunkMeta.
Variable exclude_bands : list BandType.
Variable random_when_unavailable : bool.

(** The loop over the source chunks of one subtask; it stops at the first
    [FetchShuffle]. *)
Fixpoint gather_inputs (subtask : Subtask) (chunks : list Chunk) (g : Gathered)
  : M Gathered :=
  match chunks with
  | [] => ret g
  | indep_chunk :: rest =>
      match kind (op indep_chunk) with
      | Fetch => gather_inputs subtask rest (add_input indep_chunk g)
      | FetchShuffle =>
          band <- _get_random_band self (subtask_is_gpu subtask)
                    exclude_bands random_when_unavailable ;;
          ret (select subtask [band] g)
      | OtherOperand => gather_inputs subtask rest g
      end
  end.

(** One iteration of the first loop. *)
Definition gather_subtask (g : Gathered) (subtask : Subtask) : M Gathered :=
  if negb (null (expect_bands_list subtask)) then
    let expect_available_bands :=
      filter (fun expect_band =>
                band_in expect_band (_bands self)
                && negb (band_in expect_band exclude_bands))
             (expect_bands_list subtask) in
    if null expect_available_bands then
      band <- _get_random_band self (subtask_is_gpu subtask)
                exclude_bands random_when_unavailable ;;
      ret (select subtask [band] g)
    else ret (select subtask expect_available_bands g)
  else gather_inputs subtask (iter_indep (chunk_graph subtask)) g.

Fixpoint gather_subtasks (subtasks : list Subtask) (g : Gathered) : M Gathered :=
  match subtasks with
  | [] => ret g
  | subtask :: rest =>
      g' <- gather_subtask g subtask ;;
      gather_subtasks rest g'
  end.

(** The batched metadata lookup; any missing key fails the call. *)
Fixpoint fetch_metas (ks : list string) : M (dict string ChunkMeta) :=
  match ks with
  | [] => ret []
  | k :: rest =>
      meta <- lift_option ChunkMetaMissing (get_chunk_meta k) ;;
      metas <- fetch_metas rest ;;
      ret ((k, meta) :: metas)
  end.

(** [inp_metas[key]["store_size"] = 0] for each broadcaster key. *)
Fixpoint zero_broadcasters (ks : list string) (inp_metas : dict string ChunkMeta)
  : M (dict string ChunkMeta) :=
  match ks with
  | [] => ret inp_metas
  | k :: rest =>
      meta <- lift_option KeyError (dict_get string_dec inp_metas k) ;;
      zero_broadcasters rest
        (dict_set string_dec inp_metas k {| store_size := 0; bands := bands meta |})
  end.

(** The band that a resident band of an input counts for. *)
Definition resident_band (is_gpu : bool) (filtered_bands : list BandType)
  (band : BandType) : M BandType :=
  let band_prefix := device_prefix is_gpu in
  band <- (if negb (startswith band_prefix (snd band)) then
             address_bands <- lift_option KeyError
               (dict_get string_dec (_address_to_bands self) (fst band)) ;;
             let sel_bands :=
               filter (fun b => startswith band_prefix (snd b)
                                && negb (band_in b exclude_bands))
                      address_bands in
             if negb (null sel_bands) then random_element sel_bands
             else ret band
           else ret band) ;;
  if negb (band_in band filtered_bands) || band_in band exclude_bands then
    _get_random_band self is_gpu exclude_bands random_when_unavailable
  else ret band.

(** [for band in meta["bands"]: ... band_sizes[band] += meta["store_size"]] *)
Fixpoint add_sizes (is_gpu : bool) (filtered_bands : list BandType)
  (size : Z) (resident : list BandType) (band_sizes : dict BandType Z)
  : M (dict BandType Z) :=
  match resident with
  | [] => ret band_sizes
  | band :: rest =>
      band <- resident_band is_gpu filtered_bands band ;;
      add_sizes is_gpu filtered_bands size rest
        (dict_set band_eq_dec band_sizes band
           (dict_get_default band_eq_dec band_sizes band 0 + size))
  end.

(** [for inp in subtask.chunk_graph.iter_indep(): ...] *)
Fixpoint accumulate_sizes (is_gpu : bool) (filtered_bands : list BandType)
  (inp_metas : dict string ChunkMeta) (chunks : list Chunk)
  (band_sizes : dict BandType Z) : M (dict BandType Z) :=
  match chunks with
  | [] => ret band_sizes
  | inp :: rest =>
      match kind (op inp) with
      | Fetch =>
          meta <- lift_option KeyError (dict_get string_dec inp_metas (key inp)) ;;
          band_sizes <- add_sizes is_gpu filtered_bands (store_size meta)
                          (bands meta) band_sizes ;;
          accumulate_sizes is_gpu filtered_bands inp_metas rest band_sizes
      | _ => accumulate_sizes is_gpu filtered_bands inp_metas rest band_sizes
      end
  end.

(** The scan for the bands of maximum size, from [bands] and
    [max_size]. *)
Fixpoint max_size_bands (items : list (BandType * Z)) (bands : list BandType)
  (max_size : Z) : list BandType :=
  match items with
  | [] => bands
  | (band, size) :: rest =>
      if size >? max_size then max_size_bands rest [band] size
      else if size =? max_size then max_size_bands rest (bands ++ [band]) max_size
      else max_size_bands rest bands max_size
  end.

(** The two checks at the end of an iteration of the second loop. *)
Definition check_band (subtask : Subtask) (band : BandType) : M BandType :=
  if negb random_when_unavailable && band_in band exclude_bands then
    raise NoAvailableBand
  else if bands_specified subtask then
    match expect_bands subtask with
    | None => raise TypeError
    | Some l => if negb (band_in band l) then raise NoAvailableBand else ret band
    end
  else ret band.

(** The candidate bands of one subtask in the second loop. *)
Definition candidate_bands (g : Gathered) (inp_metas : dict string ChunkMeta)
  (subtask : Subtask) : M (list BandType) :=
  let is_gpu := subtask_is_gpu subtask in
  filtered_bands <- _get_device_bands self is_gpu ;;
  match dict_get string_dec (selected_bands g) (subtask_id subtask) with
  | Some l => ret l
  | None =>
      band_sizes <- accumulate_sizes is_gpu filtered_bands inp_metas
                      (iter_indep (chunk_graph subtask)) [] ;;
      ret (max_size_bands band_sizes [] (-1))
  end.

(** One iteration of the second loop. *)
Definition assign_subtask (g : Gathered) (inp_metas : dict string ChunkMeta)
  (subtask : Subtask) : M BandType :=
  bands <- candidate_bands g inp_metas subtask ;;
  band <- random_element bands ;;
  check_band subtask band.

Fixpoint assign_each (g : Gathered) (inp_metas : dict string ChunkMeta)
  (subtasks : list Subtask) : M (list BandType) :=
  match subtasks with
  | [] => ret []
  | subtask :: rest =>
      band <- assign_subtask g inp_metas subtask ;;
      assigns <- assign_each g inp_metas rest ;;
      ret (band :: assigns)
  end.

(** The body of [assign_subtasks] once the band list is known. *)
Definition assign_with_bands (subtasks : list Subtask) : M (list BandType) :=
  g <- gather_subtasks subtasks no_keys ;;
  inp_metas <- fetch_metas (inp_keys g) ;;
  inp_metas <- zero_broadcasters (broadcaster_keys g) inp_metas ;;
  assign_each g inp_metas subtasks.
End AssignSubtasks.

(** [assign_subtasks]: [cluster_bands] is what [get_all_bands] answers when
    the actor has no band yet; the state after the call is
    [ensure_bands self cluster_bands]. *)
Definition assign_subtasks (self : AssignerActor) (cluster_bands : list BandType)
  (get_chunk_meta : string -> option ChunkMeta) (subtasks : list Subtask)
  (exclude_bands : list BandType) (random_when_unavailable : bool)
  : M (list BandType) :=
  assign_with_bands (ensure_bands self cluster_bands) get_chunk_meta
    exclude_bands random_when_unavailable subtasks.

(** ** reassign_subtasks *)

Definition has_prefix (band_name_prefix : string) (band : BandType) : bool :=
  startswith band_name_prefix (snd band).

(** The two early exits taken when a single band of the class is in use:
    the band that gets a zero move, if any. *)
Definition single_used_band (filtered_bands : list BandType)
  (filtered_band_to_queued_num : dict BandType Z) : option BandType :=
  match filtered_band_to_queued_num with
  | [(band, length)] =>
      if length =? 0 then Some band
      else
        match filtered_bands with
        | [first] => if band_eq_dec band first then Some band else None
        | _ => None
        end
  | _ => None
  end.

Section ReassignSubtasks.
Variable order : SetOrder.
Variable self : AssignerActor.
Variable band_to_queued_num : dict BandType Z.

(** The bands of one device class that the input records as no longer
    ready, and the ready ones that it does not record. *)
Definition unready_bands (filtered_bands : list BandType)
  (filtered_band_to_queued_num : dict BandType Z) : list BandType :=
  set_iter order
    (set_difference band_eq_dec (keys filtered_band_to_queued_num) filtered_bands).

Definition new_ready_bands (filtered_bands : list BandType)
  (filtered_band_to_queued_num : dict BandType Z) : list BandType :=
  set_iter order
    (set_difference band_eq_dec filtered_bands (keys filtered_band_to_queued_num)).

(** The queue lengths that are balanced: those of the unready bands only
    when there is no new ready band and some band is unready. *)
Definition working_set (filtered_bands : list BandType)
  (filtered_band_to_queued_num : dict BandType Z) : dict BandType Z :=
  let unready := unready_bands filtered_bands filtered_band_to_queued_num in
  let new_ready := new_ready_bands filtered_bands filtered_band_to_queued_num in
  if null new_ready && negb (null unready) then
    map (fun k => (k, dict_get_default band_eq_dec filtered_band_to_queued_num k 0))
        unready
  else filtered_band_to_queued_num.

(** [int(num_all_subtasks / len(filtered_bands))] *)
Definition mean_of (filtered_bands : list BandType)
  (filtered_band_to_queued_num : dict BandType Z) : result Z :=
  int_true_divide (sum (values filtered_band_to_queued_num))
                  (Z.of_nat (List.length filtered_bands)).

Definition all_bands_of (filtered_bands : list BandType)
  (filtered_band_to_queued_num : dict BandType Z) : list BandType :=
  set_iter order
    (set_union band_eq_dec filtered_bands (keys filtered_band_to_queued_num)).

(** The move of one band before the balance is restored. *)
Definition move_num (filtered_bands : list BandType)
  (filtered_band_to_queued_num : dict BandType Z) (mean : Z) (band : BandType) : Z :=
  if band_in band filtered_bands
  then mean - dict_get_default band_eq_dec filtered_band_to_queued_num band 0
  else - dict_get_default band_eq_dec filtered_band_to_queued_num band 0.

Definition move_nums (filtered_bands : list BandType)
  (filtered_band_to_queued_num : dict BandType Z) (mean : Z)
  (all_bands : list BandType) : dict BandType Z :=
  fold_left
    (fun band_move_nums band =>
       dict_set band_eq_dec band_move_nums band
         (move_num filtered_bands filtered_band_to_queued_num mean band))
    all_bands [].

(** [assert total_move <= 0] and the credit of the residual to a CPU
    band. *)
Definition balance (band_move_nums : dict BandType Z) : M (dict BandType Z) :=
  let total_move := sum (values band_move_nums) in
  if total_move >? 0 then raise AssertionError
  else if negb (total_move =? 0) then
    band <- _get_random_band self false [] true ;;
    match dict_get band_eq_dec band_move_nums band with
    | None => raise KeyError
    | Some num => ret (dict_set band_eq_dec band_move_nums band (num - total_move))
    end
  else ret band_move_nums.

(** One iteration of the loop over the device classes. *)
Definition reassign_class (is_gpu : bool) (move_queued_subtasks : dict BandType Z)
  : M (dict BandType Z) :=
  let band_name_prefix := device_prefix is_gpu in
  let filtered_bands := filter (has_prefix band_name_prefix) (_bands self) in
  let filtered_band_to_queued_num :=
    filter (fun kv => has_prefix band_name_prefix (fst kv)) band_to_queued_num in
  if null filtered_bands then ret move_queued_subtasks
  else
    match single_used_band filtered_bands filtered_band_to_queued_num with
    | Some band =>
        ret (dict_update band_eq_dec move_queued_subtasks [(band, 0)])
    | None =>
        let filtered_band_to_queued_num :=
          working_set filtered_bands filtered_band_to_queued_num in
        mean <- lift_result (mean_of filtered_bands filtered_band_to_queued_num) ;;
        let all_bands := all_bands_of filtered_bands filtered_band_to_queued_num in
        band_move_nums <-
          balance (move_nums filtered_bands filtered_band_to_queued_num mean all_bands) ;;
        ret (dict_update band_eq_dec move_queued_subtasks band_move_nums)
    end.

Definition move_leb (a b : BandType * Z) : bool := snd a <=? snd b.

Definition reassign_subtasks : M (dict BandType Z) :=
  move_queued_subtasks <- reassign_class false [] ;;
  move_queued_subtasks <- reassign_class true move_queued_subtasks ;;
  ret (dict_of_items band_eq_dec (sorted move_leb move_queued_subtasks)).
End ReassignSubtasks.

(** ** The bands and inputs of the scenarios *)

Definition B1 : BandType := ("A", "numa-0").
Definition B2 : BandType := ("B", "numa-0").
Definition B3 : BandType := ("C", "numa-0").

(** Two GPU bands on the worker of B1. *)
Definition GPU0 : BandType := ("A", "gpu-0").
Definition GPU1 : BandType := ("A", "gpu-1").

Definition fetch_chunk (k : string) (broadcaster : bool) : Chunk :=
  {| op := {| gpu := false; kind := Fetch |}; key := k; is_broadcaster := broadcaster |}.

Definition shuffle_chunk (k : string) : Chunk :=
  {| op := {| gpu := false; kind := FetchShuffle |}; key := k; is_broadcaster := false |}.

Definition subtask_of (chunks : list Chunk) : Subtask :=
  {| subtask_id := "s";
     chunk_graph := {| nodes := chunks; edges := [] |};
     expect_bands := None;
     bands_specified := false |}.

(** A subtask that must run on one of the bands [l]. *)
Definition subtask_on (chunks : list Chunk) (l : list BandType) : Subtask :=
  {| subtask_id := "s";
     chunk_graph := {| nodes := chunks; edges := [] |};
     expect_bands := Some l;
     bands_specified := true |}.

Definition metas_of (table : dict string ChunkMeta) (k : string) : option ChunkMeta :=
  dict_get string_dec table k.

(** Scenario S1: an input of size 100 on B1 and one of size 10 on B2.
    Scenario S2: the input on B1, of size 1000, is a broadcaster, the other
    one has size 5. *)
Definition S1_metas : string -> option ChunkMeta :=
  metas_of [("k1", {| store_size := 100; bands := [B1] |});
            ("k2", {| store_size := 10; bands := [B2] |})].

Definition S1_subtask : Subtask :=
  subtask_of [fetch_chunk "k1" false; fetch_chunk "k2" false].



(** The outcome of a computation on a stream, without the rest of the
    stream. *)
Definition run {A} (m : M A) (rng : list nat) : result A :=
  match m rng with
  | Ok (a, _) => Ok a
  | Err e => Err e
  end.

(** ** How a subtask is assigned, and what its inputs weigh *)

Definition is_shuffle (c : Chunk) : bool :=
  match kind (op c) with
  | FetchShuffle => true
  | _ => false
  end.

(** A subtask with a [FetchShuffle] source. *)
Definition has_shuffle (subtask : Subtask) : bool :=
  existsb is_shuffle (iter_indep (chunk_graph subtask)).

(** A subtask assigned by the locality of its inputs: no expected bands and
    no [FetchShuffle] source. *)
Definition by_locality (subtask : Subtask) : Prop :=
  expect_bands_list subtask = [] /\ has_shuffle subtask = false.

(** The bands of the device class of a subtask, and those of them that are
    not excluded. *)
Definition device_bands (self : AssignerActor) (subtask : Subtask) : list BandType :=
  dict_get_default string_dec (_device_type_to_bands self)
    (device_prefix (subtask_is_gpu subtask)) [].

Definition candidates (self : AssignerActor) (exclude_bands : list BandType)
  (subtask : Subtask) : list BandType :=
  filter (fun band => negb (band_in band exclude_bands)) (device_bands self subtask).

(** The expected bands that are in the band list and not excluded. *)
Definition expect_available (self : AssignerActor) (exclude_bands : list BandType)
  (subtask : Subtask) : list BandType :=
  filter (fun expect_band =>
            band_in expect_band (_bands self)
            && negb (band_in expect_band exclude_bands))
         (expect_bands_list subtask).

(** A subtask whose bands the first loop selects. *)
Definition preselected (subtask : Subtask) : bool :=
  negb (null (expect_bands_list subtask)) || has_shuffle subtask.

(** A band that [_get_random_band] can return for the subtask. *)
Definition random_pick (self : AssignerActor) (exclude_bands : list BandType)
  (random_when_unavailable : bool) (subtask : Subtask) (band : BandType) : Prop :=
  exists rng rng',
    _get_random_band self (subtask_is_gpu subtask) exclude_bands
      random_when_unavailable rng = Ok (band, rng').

(** What the first loop selects for a preselected subtask. *)
Definition preselection (self : AssignerActor) (exclude_bands : list BandType)
  (random_when_unavailable : bool) (subtask : Subtask) (l : list BandType) : Prop :=
  if negb (null (expect_bands_list subtask))
     && negb (null (expect_available self exclude_bands subtask))
  then l = expect_available self exclude_bands subtask
  else exists band,
      l = [band] /\ random_pick self exclude_bands random_when_unavailable subtask band.

(** The keys of the [Fetch] sources of a subtask are gathered. *)
Definition inputs_gathered (subtask : Subtask) (g : Gathered) : Prop :=
  forall c, In c (iter_indep (chunk_graph subtask)) -> kind (op c) = Fetch ->
            In (key c) (inp_keys g) /\
            (is_broadcaster c = true -> In (key c) (broadcaster_keys g)).

(** The first loop only adds keys, and every broadcaster key is an input
    key. *)
Definition grows (g g' : Gathered) : Prop :=
  incl (inp_keys g) (inp_keys g') /\
  incl (broadcaster_keys g) (broadcaster_keys g') /\
  (incl (broadcaster_keys g) (inp_keys g) -> incl (broadcaster_keys g') (inp_keys g')).

(** The metadata that the second loop reads: what the metadata service
    answers for the gathered keys, with the size of the broadcasters set to
    zero. *)
Definition zeroed (meta : ChunkMeta) : ChunkMeta :=
  {| store_size := 0; bands := bands meta |}.

Definition metas_read (get_chunk_meta : string -> option ChunkMeta) (g : Gathered)
  (k : string) : option ChunkMeta :=
  if mem string_dec k (inp_keys g) then
    option_map (fun meta => if mem string_dec k (broadcaster_keys g)
                            then zeroed meta else meta)
               (get_chunk_meta k)
  else None.

(** A resident band that counts for itself: a band of the device class
    that is in the band list of the class and not excluded. *)
Definition own_band (exclude_bands : list BandType) (is_gpu : bool)
  (filtered_bands : list BandType) (band : BandType) : Prop :=
  startswith (device_prefix is_gpu) (snd band) = true /\
  In band filtered_bands /\ ~ In band exclude_bands.


(** The bands on which the [Fetch] inputs reside. *)
Fixpoint resident_bands (inp_metas : dict string ChunkMeta) (chunks : list Chunk)
  : list BandType :=
  match chunks with
  | [] => []
  | inp :: rest =>
      match kind (op inp), dict_get string_dec inp_metas (key inp) with
      | Fetch, Some meta => bands meta ++ resident_bands inp_metas rest
      | _, _ => resident_bands inp_metas rest
      end
  end.

(** A resident band that the size accumulation counts on its own worker:
    it counts for itself, or it is of the other device class and its worker
    has a band of the class of the subtask that is not excluded. *)
Definition counts_on_worker (self : AssignerActor) (exclude_bands : list BandType)
  (is_gpu : bool) (band : BandType) : Prop :=
  own_band exclude_bands is_gpu
    (dict_get_default string_dec (_device_type_to_bands self) (device_prefix is_gpu) [])
    band \/
  (startswith (device_prefix is_gpu) (snd band) = false /\
   exists b, In b (_bands self) /\ fst b = fst band /\
             startswith (device_prefix is_gpu) (snd b) = true /\
             ~ In b exclude_bands).

(** Maps with the same entries, whatever their order. *)
Definition same_entries (m m' : dict BandType Z) : Prop :=
  forall k, dict_get band_eq_dec m k = dict_get band_eq_dec m' k.

(** Outcomes of one class of [reassign_subtasks] that agree up to the order
    of the entries. *)
Definition same_outcome (x y : result (dict BandType Z * list nat)) : Prop :=
  match x, y with
  | Ok (m, rng), Ok (m', rng') => same_entries m m' /\ rng = rng'
  | Err e, Err e' => e = e'
  | _, _ => False
  end.

(** Outcomes of [reassign_subtasks] that differ at most in the order of the
    entries of the returned map. *)
Definition same_moves (x y : result (dict BandType Z * list nat)) : Prop :=
  match x, y with
  | Ok (m, rng), Ok (m', rng') => Permutation m m' /\ rng = rng'
  | Err e, Err e' => e = e'
  | _, _ => False
  end.

(** ** The supervisor references behind [get_all_bands]

    [ClusterAPI.get_all_bands] (services/cluster/api/oscar.py) asks the node
    information actor, which it finds with [get_supervisor_refs]. *)

(** [mo.actor_ref(uid, address=addr)]: the uid and the address it is looked
    up at. *)
Definition ActorRef : Type := (string * option string)%type.

(** What [get_supervisor_refs] returns or raises; [StopIteration] is what
    [next] raises on an exhausted generator. *)
Inductive refs_result : Type :=
| Refs (refs : list ActorRef)
| ActorNotExist (uid : string)
| StopIteration.

Definition is_none {A} (o : option A) : bool :=
  match o with
  | None => true
  | Some _ => false
  end.

(** [next(uid for addr, uid in zip(addrs, uids) if addr is None)] *)
Fixpoint first_none_uid (pairs : list (option string * string)) : option string :=
  match pairs with
  | [] => None
  | (addr, uid) :: rest => if is_none addr then Some uid else first_none_uid rest
  end.

(** [get_supervisor_refs(uids)]; the locator behind
    [get_supervisors_by_keys] is a parameter. *)
Definition get_supervisor_refs
  (get_supervisors_by_keys : list string -> list (option string))
  (uids : list string) : refs_result :=
  let addrs := get_supervisors_by_keys uids in
  if existsb is_none addrs then
    match first_none_uid (combine addrs uids) with
    | Some none_uid => ActorNotExist none_uid
    | None => StopIteration
    end
  else Refs (map (fun au => (snd au, fst au)) (combine addrs uids)).

(** ** What the band indexes are meant to hold *)

Definition is_numa (b : BandType) : bool := startswith "numa" (snd b).

(** An entry of an index against the bands it should list: no entry when
    there is none, else those bands in sorted order. *)
Definition index_entry (entry : option (list BandType)) (expected : list BandType)
  : Prop :=
  match entry with
  | None => expected = []
  | Some l =>
      l <> [] /\ StronglySorted (le_of band_leb) l /\ Permutation l expected
  end.

Definition indexes_consistent (self : AssignerActor) : Prop :=
  (forall address,
      index_entry (dict_get string_dec (_address_to_bands self) address)
        (filter (fun b => String.eqb (fst b) address) (_bands self))) /\
  index_entry (dict_get string_dec (_device_type_to_bands self) "numa")
    (filter is_numa (_bands self)) /\
  index_entry (dict_get string_dec (_device_type_to_bands self) "gpu")
    (filter (fun b => negb (is_numa b)) (_bands self)) /\
  (forall device,
      In device (keys (_device_type_to_bands self)) ->
      device = "numa" \/ device = "gpu") /\
  Permutation
    (dict_get_default string_dec (_device_type_to_bands self) "numa" []
     ++ dict_get_default string_dec (_device_type_to_bands self) "gpu" [])
    (_bands self).

(** ** File systems by scheme (lib/filesystem/core.py) *)

Module Filesystem.

(** The file system classes: the two that are built in and those that a
    caller registers. *)
Inductive FileSystemType : Type :=
| LocalFileSystem
| OSSFileSystem
| Registered (cls : string).

(** What [get_fs] returns or raises: the singleton
    [file_system_type.get_instance()], a new [file_system_type] built from
    the storage options, or an exception with its message. *)
Inductive outcome : Type :=
| Instance (file_system_type : FileSystemType)
| Constructed (file_system_type : FileSystemType)
| ImportError (message : string)
| ValueError (message : string).

(** The registry as the module is loaded. *)
Definition _filesystems : dict string FileSystemType :=
  [("file", LocalFileSystem); ("oss", OSSFileSystem)].

Definition _scheme_to_dependencies : dict string (list string) :=
  [("hdfs", ["pyarrow"]);
   ("az", ["fsspec"; "adlfs"]);
   ("abfs", ["fsspec"; "adlfs"]);
   ("s3", ["fsspec"; "s3fs"])].

(** [register_filesystem(name, fs)], on the registry [filesystems]. *)
Definition register_filesystem (filesystems : dict string FileSystemType)
  (name : string) (fs : FileSystemType) : dict string FileSystemType :=
  dict_set string_dec filesystems name fs.

(** [get_fs(path, storage_options)] as far as the choice of the file system
    goes: [exists_locally] is [os.path.exists(path) or glob_.glob(path)]
    and [url_scheme] is [urlparse(path).scheme]. *)
Definition get_fs (filesystems : dict string FileSystemType)
  (exists_locally : bool) (url_scheme : string) : outcome :=
  let scheme := if exists_locally then "file" else url_scheme in
  let scheme :=
    if String.eqb scheme "" || Nat.eqb (String.length scheme) 1 then "file"
    else scheme in
  match dict_get string_dec filesystems scheme with
  | Some file_system_type =>
      if String.eqb scheme "file" || String.eqb scheme "oss"
      then Instance file_system_type
      else Constructed file_system_type
  | None =>
      match dict_get string_dec _scheme_to_dependencies scheme with
      | Some dependencies =>
          ImportError
            (String.append "Need to install "
               (String.append (String.concat ", " dependencies)
                  (String.append " to access " (String.append scheme "."))))
      | None =>
          ValueError
            (String.append "Unknown file system type: "
               (String.append scheme
                  (String.append ", available include: "
                     (String.concat ", " (keys _scheme_to_dependencies)))))
      end
  end.

End Filesystem.

(** ** Parquet engines (dataframe/datasource/read_parquet.py) *)

Module Parquet.

Inductive ParquetEngine : Type := ArrowEngine | FastpaquetEngine.

(** A value or a [RuntimeError] with its message. *)
Inductive checked (A : Type) : Type :=
| Returns (a : A)
| RuntimeError (message : string).
Arguments Returns {A} a.
Arguments RuntimeError {A} message.

(** [check_engine(engine)]; [pa] and [fastparquet] tell whether the two
    libraries were imported ([pa is not None], [fastparquet is not
    None]). *)
Definition check_engine (pa fastparquet : bool) (engine : string) : checked string :=
  if String.eqb engine "auto" then
    if pa then Returns "pyarrow"
    else if fastparquet then Returns "fastparquet"
    else RuntimeError "Please install either pyarrow or fastparquet."
  else if String.eqb engine "pyarrow" then
    if negb pa then RuntimeError "Please install pyarrow first."
    else Returns engine
  else if String.eqb engine "fastparquet" then
    if negb fastparquet then RuntimeError "Please install fastparquet first."
    else Returns engine
  else
    RuntimeError
      (String.append "Unsupported engine "
         (String.append engine " to read parquet.")).

Definition get_engine (engine : string) : checked ParquetEngine :=
  if String.eqb engine "pyarrow" then Returns ArrowEngine
  else if String.eqb engine "fastparquet" then Returns FastpaquetEngine
  else RuntimeError (String.append "Unsupported engine " engine).

(** The fields that [_tile_no_partitioned] sets on the operand of a chunk,
    with the first component of the index of the chunk,
    [index=(chunk_index, 0)]. *)
Record ChunkOp : Type := {
  path : string;
  group_index : option nat;
  first_chunk_row_num : option Z;
  first_chunk_raw_bytes : option Z;
  num_group_rows : option nat;
  index : nat
}.

Section Tile.
Variable groups_as_chunks : bool.
(** [pq.ParquetFile(pth).num_row_groups], the row number that the engine
    reads from the file at [pth], and [file_size(pth)]. *)
Variable num_row_groups : string -> nat.
Variable get_row_num : string -> Z.
Variable file_size : string -> Z.
Variable path_prefix : string.

(** [for group_idx in range(num_row_groups): ...], over the group indexes
    that are left. *)
Fixpoint tile_groups (pth : string) (first_row_num first_raw_bytes : option Z)
  (groups : list nat) (chunk_index : nat) (out_chunks : list ChunkOp)
  : nat * list ChunkOp :=
  match groups with
  | [] => (chunk_index, out_chunks)
  | group_idx :: rest =>
      tile_groups pth first_row_num first_raw_bytes rest (S chunk_index)
        (out_chunks ++ [{| path := pth;
                           group_index := Some group_idx;
                           first_chunk_row_num := first_row_num;
                           first_chunk_raw_bytes := first_raw_bytes;
                           num_group_rows := Some (num_row_groups pth);
                           index := chunk_index |}])
  end.

(** [for i, pth in enumerate(paths): ...], from position [i] on. *)
Fixpoint tile_paths (i : nat) (paths : list string)
  (first_row_num first_raw_bytes : option Z)
  (chunk_index : nat) (out_chunks : list ChunkOp) : list ChunkOp :=
  match paths with
  | [] => out_chunks
  | pth :: rest =>
      let pth := String.append path_prefix pth in
      let first_row_num :=
        if Nat.eqb i 0 then Some (get_row_num pth) else first_row_num in
      let first_raw_bytes :=
        if Nat.eqb i 0 then Some (file_size pth) else first_raw_bytes in
      if groups_as_chunks then
        let (chunk_index, out_chunks) :=
          tile_groups pth first_row_num first_raw_bytes
            (seq 0 (num_row_groups pth)) chunk_index out_chunks in
        tile_paths (S i) rest first_row_num first_raw_bytes chunk_index out_chunks
      else
        tile_paths (S i) rest first_row_num first_raw_bytes (S chunk_index)
          (out_chunks ++ [{| path := pth;
                             group_index := None;
                             first_chunk_row_num := first_row_num;
                             first_chunk_raw_bytes := first_raw_bytes;
                             num_group_rows := None;
                             index := chunk_index |}])
  end.

(** The chunks of [_tile_no_partitioned], from the paths it has resolved
    and the prefix it puts before them. *)
Definition tile_chunks (paths : list string) : list ChunkOp :=
  tile_paths 0 paths None None 0 [].
End Tile.

End Parquet.

(** * Properties *)

(** ** Computations *)

Lemma bind_Ok A B (m : M A) (f : A -> M B) rng b rng' :
  bind m f rng = Ok (b, rng') ->
  exists a rng1, m rng = Ok (a, rng1) /\ f a rng1 = Ok (b, rng').
Proof.
  unfold bind. destruct (m rng) as [[a rng1]|e]; [|discriminate].
  intros H. exists a, rng1. auto.
Qed.

Lemma bind_Ok_intro A B (m : M A) (f : A -> M B) rng a rng1 :
  m rng = Ok (a, rng1) -> bind m f rng = f a rng1.
Proof. unfold bind. intros ->. reflexivity. Qed.

Lemma bind_Err A B (m : M A) (f : A -> M B) rng e :
  m rng = Err e -> bind m f rng = Err e.
Proof. unfold bind. intros ->. reflexivity. Qed.

Lemma ret_Ok A (a b : A) rng rng' : ret a rng = Ok (b, rng') -> a = b /\ rng = rng'.
Proof. unfold ret. intros H. inversion H. auto. Qed.

(** ** The integer part of a true division *)

Lemma round_half_even_near n d :
  0 <= n -> 0 < d ->
  let m := round_half_even n d in
  n / d <= m <= n / d + 1 /\ (m = n / d + 1 -> d <= 2 * (n mod d)).
Proof.
  intros Hn Hd. unfold round_half_even. cbv zeta.
  destruct (Z.ltb_spec (2 * (n mod d)) d) as [H1|H1]; [split; lia|].
  destruct (Z.ltb_spec d (2 * (n mod d))) as [H2|H2]; [split; lia|].
  destruct (Z.even (n / d)); split; lia.
Qed.

Lemma pow2_pos e : 0 < 2 ^ e \/ e < 0.
Proof. destruct (Z.le_gt_cases 0 e); [left; apply Z.pow_pos_nonneg; lia|right; lia]. Qed.

Lemma quotient_exponent_spec n d :
  0 < n -> 0 < d ->
  let e := quotient_exponent n d in
  e <= Z.log2 n /\
  (0 <= e -> d * 2 ^ e <= n < d * 2 ^ (e + 1)) /\
  (e < 0 -> d <= n * 2 ^ (- e) < 2 * d).
Proof.
  intros Hn Hd. unfold quotient_exponent. cbv zeta.
  destruct (Z.log2_spec n Hn) as [Hn1 Hn2]. destruct (Z.log2_spec d Hd) as [Hd1 Hd2].
  pose proof (Z.log2_nonneg n) as Hln. pose proof (Z.log2_nonneg d) as Hld.
  set (ln := Z.log2 n) in *. set (ld := Z.log2 d) in *.
  replace (Z.succ ln) with (ln + 1) in Hn2 by lia.
  replace (Z.succ ld) with (ld + 1) in Hd2 by lia.
  rewrite Z.pow_add_r in Hn2, Hd2 by lia. change (2 ^ 1) with 2 in *.
  assert (Pn : 0 < 2 ^ ln) by (apply Z.pow_pos_nonneg; lia).
  assert (Pd : 0 < 2 ^ ld) by (apply Z.pow_pos_nonneg; lia).
  destruct (Z.leb_spec 0 (ln - ld)) as [He|He].
  - assert (E : 2 ^ ln = 2 ^ ld * 2 ^ (ln - ld)).
    { rewrite <- Z.pow_add_r by lia. f_equal. lia. }
    assert (Pe : 0 < 2 ^ (ln - ld)) by (apply Z.pow_pos_nonneg; lia).
    destruct (Z.ltb_spec n (d * 2 ^ (ln - ld))) as [Ht|Ht].
    + split; [lia|]. split.
      * intros He'. replace (ln - ld - 1 + 1) with (ln - ld) by lia.
        split; [|exact Ht].
        assert (E2 : 2 ^ (ln - ld) = 2 * 2 ^ (ln - ld - 1)).
        { replace (ln - ld) with ((ln - ld - 1) + 1) at 1 by lia.
          rewrite Z.pow_add_r by lia. change (2 ^ 1) with 2. lia. }
        assert (P1 : 0 < 2 ^ (ln - ld - 1)) by (apply Z.pow_pos_nonneg; lia).
        nia.
      * intros He'. assert (E0 : ln - ld = 0) by lia.
        replace (- (ln - ld - 1)) with 1 by lia. change (2 ^ 1) with 2.
        rewrite E0 in *. change (2 ^ 0) with 1 in *. nia.
    + split; [lia|]. split.
      * intros _. split; [lia|]. rewrite Z.pow_add_r by lia. change (2 ^ 1) with 2. nia.
      * lia.
  - assert (E : 2 ^ ld = 2 ^ ln * 2 ^ (- (ln - ld))).
    { rewrite <- Z.pow_add_r by lia. f_equal. lia. }
    assert (Pe : 0 < 2 ^ (- (ln - ld))) by (apply Z.pow_pos_nonneg; lia).
    destruct (Z.ltb_spec (n * 2 ^ (- (ln - ld))) d) as [Ht|Ht].
    + split; [lia|]. split; [lia|]. intros _.
      replace (- (ln - ld - 1)) with (- (ln - ld) + 1) by lia.
      rewrite Z.pow_add_r by lia. change (2 ^ 1) with 2. nia.
    + split; [lia|]. split; [lia|]. intros _. nia.
Qed.

Lemma div_between m k T : 0 < T -> k * T <= m < (k + 1) * T -> m / T = k.
Proof.
  intros HT [H1 H2]. symmetry. apply (Z.div_unique m T k (m - k * T)); [lia|lia].
Qed.

(** Below 2^53 the rounding of the quotient does not reach the next
    integer: [int(n / d)] is the floor. *)
Lemma int_true_divide_pos_exact n d :
  0 <= n < 2 ^ 53 -> 0 < d -> int_true_divide_pos n d = Some (n / d).
Proof.
  intros [Hn0 Hn] Hd. unfold int_true_divide_pos.
  destruct (Z.eqb_spec n 0) as [->|Hnz]; [rewrite Z.div_0_l by lia; reflexivity|].
  assert (Hpos : 0 < n) by lia.
  destruct (@quotient_exponent_spec n d Hpos Hd) as (Hle & Hge & Hlt).
  set (e := quotient_exponent n d) in *. cbv zeta.
  assert (Hlog : Z.log2 n < 53) by (apply Z.log2_lt_pow2; lia).
  set (s := Z.max (e - 52) (-1074)).
  assert (Hs : s <= 0) by (unfold s; lia).
  destruct (Z.leb_spec 0 s) as [Hs0|Hs0].
  - (* the last place is the unit: d = 1 *)
    assert (Es : s = 0) by lia. rewrite Es. change (2 ^ 0) with 1.
    assert (Ee : e = 52) by (unfold s in Es; lia).
    destruct Hge as [Hlo _]; [lia|]. rewrite Ee in Hlo.
    assert (Ed : d = 1).
    { assert (P : 0 < 2 ^ 52) by (apply Z.pow_pos_nonneg; lia).
      change (2 ^ 53) with (2 * 2 ^ 52) in Hn. nia. }
    subst d. rewrite !Z.mul_1_r. unfold round_half_even.
    rewrite Z.div_1_r, Z.mod_1_r. cbn [Z.mul Z.ltb Z.compare].
    destruct (Z.leb_spec (2 ^ 1024) n) as [Hbig|_]; [|reflexivity].
    exfalso. assert (2 ^ 53 < 2 ^ 1024) by (apply Z.pow_lt_mono_r; lia). lia.
  - set (t := - s). assert (Ht : 0 < t) by (unfold t; lia).
    set (T := 2 ^ t). assert (HT : 2 <= T).
    { unfold T. replace t with ((t - 1) + 1) by lia. rewrite Z.pow_add_r by lia.
      change (2 ^ 1) with 2. assert (0 < 2 ^ (t - 1)) by (apply Z.pow_pos_nonneg; lia). lia. }
    f_equal. set (N := n * T).
    destruct (@round_half_even_near N d) as (Hm & Hup); [unfold N; nia|exact Hd|].
    set (m := round_half_even N d) in *.
    pose proof (Z.div_mod n d ltac:(lia)) as En.
    pose proof (Z.mod_pos_bound n d Hd) as Hr.
    pose proof (Z.div_mod N d ltac:(lia)) as EN.
    pose proof (Z.mod_pos_bound N d Hd) as HR.
    set (k := n / d) in *. set (r := n mod d) in *.
    set (Q := N / d) in *. set (R := N mod d) in *.
    assert (Hk0 : 0 <= k) by (apply Z.div_pos; lia).
    assert (HQlo : k * T <= Q).
    { unfold Q. apply Z.div_le_lower_bound; [lia|]. unfold N. nia. }
    assert (HQhi : Q < (k + 1) * T).
    { unfold Q. apply Z.div_lt_upper_bound; [lia|]. unfold N. nia. }
    apply (@div_between _ k T); [lia|]. split; [lia|].
    destruct (Z.eq_dec m (Q + 1)) as [Em|Em]; [|lia].
    specialize (Hup Em).
    destruct (Z.eq_dec (Q + 1) ((k + 1) * T)) as [EQ|EQ]; [|lia].
    exfalso.
    assert (ER : R = d - (d - r) * T) by (unfold N in EN; nia).
    assert (Hbad : 2 * (d - r) * T <= d) by lia.
    (* either the last place is that of a normal double, or the quotient is tiny *)
    destruct (Z.le_gt_cases (e - 52) (-1074)) as [Hclip|Hnoclip].
    + assert (Et : t = 1074) by (unfold t, s; lia).
      destruct Hlt as [_ Hhi]; [lia|].
      assert (Hbig : n * 2 ^ 1022 <= n * 2 ^ (- e)).
      { apply Z.mul_le_mono_nonneg_l; [lia|]. apply Z.pow_le_mono_r; lia. }
      assert (P : 4 <= 2 ^ 1022).
      { change 4 with (2 ^ 2). apply Z.pow_le_mono_r; lia. }
      assert (Hnd : 2 * n < d) by nia.
      assert (Ek : k = 0) by (unfold k; apply Z.div_small; lia).
      assert (Er : r = n) by (unfold r; apply Z.mod_small; lia).
      nia.
    + assert (Et : t = 52 - e) by (unfold t, s; lia).
      assert (Hd2 : d < 2 * T).
      { unfold T. rewrite Et.
        destruct (Z.le_gt_cases 0 e) as [He|He].
        - destruct Hge as [Hlo _]; [exact He|].
          assert (E53 : 2 ^ 53 = 2 ^ e * (2 * 2 ^ (52 - e))).
          { replace 53 with (e + (1 + (52 - e))) by lia.
            rewrite Z.pow_add_r by lia. rewrite Z.pow_add_r by lia. reflexivity. }
          assert (Pe : 0 < 2 ^ e) by (apply Z.pow_pos_nonneg; lia).
          assert (Pt : 0 < 2 ^ (52 - e)) by (apply Z.pow_pos_nonneg; lia).
          nia.
        - destruct Hlt as [Hlo _]; [exact He|].
          assert (E : 2 * 2 ^ (52 - e) = 2 ^ 53 * 2 ^ (- e)).
          { replace (52 - e) with (52 + - e) by lia. rewrite Z.pow_add_r by lia.
            change (2 ^ 53) with (2 * 2 ^ 52). lia. }
          assert (Pe : 0 < 2 ^ (- e)) by (apply Z.pow_pos_nonneg; lia).
          rewrite E. nia. }
      nia.
Qed.

Lemma int_true_divide_pos_nonneg n d v :
  0 <= n -> 0 < d -> int_true_divide_pos n d = Some v -> 0 <= v.
Proof.
  intros Hn Hd. unfold int_true_divide_pos.
  destruct (n =? 0); [intros E; inversion E; lia|]. cbv zeta.
  set (s := Z.max (quotient_exponent n d - 52) (-1074)).
  destruct (Z.leb_spec 0 s) as [Hs|Hs].
  - assert (P : 0 < 2 ^ s) by (apply Z.pow_pos_nonneg; lia).
    destruct (@round_half_even_near n (d * 2 ^ s)) as (Hm & _); [lia|nia|].
    assert (Hq : 0 <= n / (d * 2 ^ s)) by (apply Z.div_pos; nia).
    destruct (2 ^ 1024 <=? _); [discriminate|]. intros E; inversion E. nia.
  - assert (P : 0 < 2 ^ (- s)) by (apply Z.pow_pos_nonneg; lia).
    destruct (@round_half_even_near (n * 2 ^ (- s)) d) as (Hm & _); [nia|lia|].
    assert (Hq : 0 <= n * 2 ^ (- s) / d) by (apply Z.div_pos; nia).
    intros E; inversion E. apply Z.div_pos; lia.
Qed.

(** [int(a / b)] is the truncated quotient when the magnitude of [a] is
    below 2^53. *)
Lemma int_true_divide_exact a b :
  Z.abs a < 2 ^ 53 -> b <> 0 -> int_true_divide a b = Ok (Z.quot a b).
Proof.
  intros Ha Hb. unfold int_true_divide.
  destruct (Z.eqb_spec b 0) as [E|_]; [contradiction|].
  rewrite (@int_true_divide_pos_exact (Z.abs a) (Z.abs b)) by lia.
  rewrite (Z.quot_div a b Hb). reflexivity.
Qed.

Lemma int_true_divide_floor a b :
  0 <= a < 2 ^ 53 -> 0 < b -> int_true_divide a b = Ok (a / b).
Proof.
  intros Ha Hb. rewrite int_true_divide_exact by lia.
  rewrite Z.quot_div_nonneg by lia. reflexivity.
Qed.

Lemma int_true_divide_nonneg a b v :
  0 <= a -> 0 < b -> int_true_divide a b = Ok v -> 0 <= v.
Proof.
  intros Ha Hb. unfold int_true_divide.
  destruct (Z.eqb_spec b 0) as [E|_]; [lia|].
  destruct (int_true_divide_pos (Z.abs a) (Z.abs b)) as [w|] eqn:E; [|discriminate].
  apply int_true_divide_pos_nonneg in E; [|lia|lia].
  intros H. inversion H.
  destruct (Z.eq_dec a 0) as [->|Hn]; [simpl; lia|].
  rewrite (Z.sgn_pos a), (Z.sgn_pos b) by lia. lia.
Qed.




(** The two quotients at which the rounding shows: [(2^53 + 3) / 2] rounds
    up to the next integer, [(2^54 + 2) / 2] rounds down by one. *)
Lemma int_true_divide_rounds :
  int_true_divide (2 ^ 53 + 3) 2 = Ok (2 ^ 52 + 2) /\
  int_true_divide (2 ^ 54 + 2) 2 = Ok (2 ^ 53) /\
  int_true_divide (2 ^ 1024) 1 = Err OverflowError /\
  int_true_divide 1 0 = Err ZeroDivisionError.
Proof. repeat split; vm_compute; reflexivity. Qed.

Lemma lift_result_Ok A (r : result A) rng a rng' :
  lift_result r rng = Ok (a, rng') -> r = Ok a /\ rng' = rng.
Proof.
  unfold lift_result. destruct r; [|discriminate]. intros H. inversion H. auto.
Qed.

Lemma lift_result_intro A (r : result A) rng a :
  r = Ok a -> lift_result r rng = Ok (a, rng).
Proof. intros ->. reflexivity. Qed.

Ltac inv_M :=
  repeat match goal with
    | H : bind _ _ _ = Ok (_, _) |- _ =>
        let a := fresh "a" in
        let r := fresh "rng" in
        let H1 := fresh "H" in
        let H2 := fresh "H" in
        apply bind_Ok in H; destruct H as (a & r & H1 & H2)
    | H : ret _ _ = Ok (_, _) |- _ =>
        apply ret_Ok in H; destruct H; subst
    | H : lift_result _ _ = Ok (_, _) |- _ =>
        apply lift_result_Ok in H; destruct H; subst
    | H : raise _ _ = Ok _ |- _ => discriminate H
    | H : Err _ = Ok _ |- _ => discriminate H
    end.

Lemma random_choice_lt n rng i rng' :
  random_choice n rng = Ok (i, rng') -> (i < n)%nat /\ rng' = tl rng.
Proof.
  unfold random_choice. destruct n; [discriminate|].
  intros H. injection H as Hi Hr. subst i rng'. split; [|reflexivity].
  exact (Nat.mod_upper_bound (hd O rng) (S n) (Nat.neq_succ_0 n)).
Qed.

Lemma random_element_In A (l : list A) rng a rng' :
  random_element l rng = Ok (a, rng') -> In a l /\ rng' = tl rng.
Proof.
  unfold random_element. intros H. inv_M.
  apply random_choice_lt in H0. destruct H0 as [_ ->].
  destruct (nth_error l a0) eqn:E; simpl in H1; inv_M.
  split; [eapply nth_error_In; eauto | reflexivity].
Qed.

Lemma random_element_total A (l : list A) rng :
  l <> [] -> exists a, random_element l rng = Ok (a, tl rng) /\ In a l.
Proof.
  intros Hl. unfold random_element, bind, random_choice.
  destruct l as [|x l]; [congruence|].
  cbn [List.length].
  assert (Hlt : (Nat.modulo (hd O rng) (S (List.length l)) < List.length (x :: l))%nat).
  { apply Nat.mod_upper_bound. discriminate. }
  destruct (nth_error (x :: l) (Nat.modulo (hd O rng) (S (List.length l)))) eqn:E.
  - exists a. split; [reflexivity|]. eapply nth_error_In; eauto.
  - apply nth_error_None in E. lia.
Qed.

Lemma random_element_single A (a : A) rng :
  random_element [a] rng = Ok (a, tl rng).
Proof.
  destruct (@random_element_total A [a] rng) as (b & H & [->|[]]); [discriminate|].
  exact H.
Qed.

(** ** Dictionaries *)

Section DictFacts.
Variables K V : Type.
Variable K_eq_dec : forall x y : K, {x = y} + {x <> y}.
Implicit Types (d : dict K V) (k : K) (v : V).

Lemma mem_true k (l : list K) : mem K_eq_dec k l = true <-> In k l.
Proof. unfold mem. destruct (in_dec K_eq_dec k l); split; auto; discriminate. Qed.

Lemma mem_false k (l : list K) : mem K_eq_dec k l = false <-> ~ In k l.
Proof. unfold mem. destruct (in_dec K_eq_dec k l); split; auto; try discriminate; tauto. Qed.

Lemma dict_get_In d k v : dict_get K_eq_dec d k = Some v -> In (k, v) d.
Proof.
  induction d as [|[k' v'] d IH]; simpl; [discriminate|].
  destruct (K_eq_dec k k'); intros H.
  - inversion H; subst. auto.
  - auto.
Qed.

Lemma dict_get_None d k : dict_get K_eq_dec d k = None <-> ~ In k (keys d).
Proof.
  induction d as [|[k' v'] d IH]; simpl; [tauto|].
  destruct (K_eq_dec k k'); split; intros H.
  - discriminate.
  - exfalso. apply H. auto.
  - intros [E|E]; [congruence|]. apply IH in H. auto.
  - apply IH. tauto.
Qed.

Lemma dict_get_Some_key d k v : dict_get K_eq_dec d k = Some v -> In k (keys d).
Proof. intros H. apply dict_get_In in H. apply (in_map fst) in H. exact H. Qed.

Lemma dict_get_key d k : In k (keys d) -> exists v, dict_get K_eq_dec d k = Some v.
Proof.
  intros H. destruct (dict_get K_eq_dec d k) eqn:E; eauto.
  apply dict_get_None in E. tauto.
Qed.

Lemma dict_get_NoDup d k v :
  NoDup (keys d) -> In (k, v) d -> dict_get K_eq_dec d k = Some v.
Proof.
  induction d as [|[k' v'] d IH]; simpl; [tauto|].
  intros Hnd [E|E]; inversion Hnd; subst.
  - inversion E; subst. destruct (K_eq_dec k k); congruence.
  - destruct (K_eq_dec k k'); auto. subst.
    exfalso. apply H1. apply (in_map fst) in E. exact E.
Qed.

Lemma dict_get_set d k v k' :
  dict_get K_eq_dec (dict_set K_eq_dec d k v) k'
  = if K_eq_dec k' k then Some v else dict_get K_eq_dec d k'.
Proof.
  induction d as [|[k0 v0] d IH]; simpl.
  - destruct (K_eq_dec k' k); reflexivity.
  - destruct (K_eq_dec k k0); simpl.
    + subst. destruct (K_eq_dec k' k0); reflexivity.
    + destruct (K_eq_dec k' k0); [|exact IH].
      subst. destruct (K_eq_dec k0 k); congruence.
Qed.

Lemma dict_set_new d k v :
  ~ In k (keys d) -> dict_set K_eq_dec d k v = d ++ [(k, v)].
Proof.
  induction d as [|[k0 v0] d IH]; simpl; [reflexivity|].
  intros H. destruct (K_eq_dec k k0); [exfalso; apply H; auto|].
  rewrite IH; [reflexivity|]. intros H'. apply H. auto.
Qed.

Lemma keys_dict_set_old d k v :
  In k (keys d) -> keys (dict_set K_eq_dec d k v) = keys d.
Proof.
  induction d as [|[k0 v0] d IH]; simpl; [tauto|].
  intros H. destruct (K_eq_dec k k0); simpl; [congruence|].
  f_equal. apply IH. destruct H; congruence.
Qed.

Lemma in_keys_dict_set d k v k' :
  In k' (keys (dict_set K_eq_dec d k v)) <-> k' = k \/ In k' (keys d).
Proof.
  destruct (in_dec K_eq_dec k (keys d)) as [Hin|Hin].
  - rewrite keys_dict_set_old by exact Hin. split; [tauto|].
    intros [->|H]; auto.
  - rewrite dict_set_new by exact Hin. unfold keys. rewrite map_app, in_app_iff.
    simpl. split; [intros [H|[H|[]]]; auto | intros [H|H]; auto].
Qed.

Lemma NoDup_dict_set d k v : NoDup (keys d) -> NoDup (keys (dict_set K_eq_dec d k v)).
Proof.
  intros Hnd. destruct (in_dec K_eq_dec k (keys d)) as [Hin|Hin].
  - rewrite keys_dict_set_old by exact Hin. exact Hnd.
  - rewrite dict_set_new by exact Hin. unfold keys. rewrite map_app. simpl.
    apply NoDup_app_remove_l with (l := []). simpl.
    apply Permutation_NoDup with (l := k :: map fst d).
    + apply Permutation_cons_append.
    + constructor; assumption.
Qed.

Lemma dict_update_app d other :
  NoDup (keys other) -> (forall k, In k (keys other) -> ~ In k (keys d)) ->
  dict_update K_eq_dec d other = d ++ other.
Proof.
  revert d. induction other as [|[k v] o IH]; intros d Hnd Hdis; simpl.
  - symmetry. apply app_nil_r.
  - inversion Hnd; subst. unfold dict_update in *. simpl.
    rewrite dict_set_new by (apply Hdis; simpl; auto).
    rewrite IH; auto.
    + rewrite <- app_assoc. reflexivity.
    + intros k' Hk'. unfold keys. rewrite map_app, in_app_iff. simpl.
      intros [H|[H|[]]].
      * apply (Hdis k'); simpl; auto.
      * subst. auto.
Qed.

Lemma dict_of_items_NoDup (items : list (K * V)) :
  NoDup (keys items) -> dict_of_items K_eq_dec items = items.
Proof.
  intros H. unfold dict_of_items. rewrite dict_update_app; auto.
Qed.
End DictFacts.

(** ** Sums and sorting *)

Lemma sum_app (l1 l2 : list Z) : sum (l1 ++ l2) = sum l1 + sum l2.
Proof. unfold sum. induction l1; simpl; lia. Qed.

Lemma sum_Permutation (l1 l2 : list Z) : Permutation l1 l2 -> sum l1 = sum l2.
Proof. unfold sum. induction 1; simpl; lia. Qed.

Lemma sum_values_set (K : Type) (K_eq_dec : forall x y : K, {x = y} + {x <> y})
  (d : dict K Z) k v0 v :
  dict_get K_eq_dec d k = Some v0 ->
  sum (values (dict_set K_eq_dec d k v)) = sum (values d) - v0 + v.
Proof.
  induction d as [|[k' v'] d IH]; simpl; [discriminate|].
  destruct (K_eq_dec k k'); intros H.
  - inversion H; subst. unfold sum. simpl. lia.
  - unfold sum in *. simpl. rewrite IH by exact H. lia.
Qed.

Section SortedFacts.
Variable A : Type.
Variable leb : A -> A -> bool.
Hypothesis leb_total : forall a b, leb a b = true \/ leb b a = true.
Hypothesis leb_trans : forall a b c, leb a b = true -> leb b c = true -> leb a c = true.

Lemma insert_sorted_perm x l : Permutation (insert_sorted leb x l) (x :: l).
Proof.
  induction l as [|y l IH]; simpl; [reflexivity|].
  destruct (leb x y); [reflexivity|].
  rewrite IH. apply perm_swap.
Qed.

Lemma sorted_perm l : Permutation (sorted leb l) l.
Proof.
  induction l as [|x l IH]; simpl; [reflexivity|].
  rewrite insert_sorted_perm. auto.
Qed.

Lemma insert_sorted_strongly x l :
  StronglySorted (le_of leb) l -> StronglySorted (le_of leb) (insert_sorted leb x l).
Proof.
  induction 1 as [|y l Hs IH Hall]; simpl.
  - repeat constructor.
  - destruct (leb x y) eqn:E.
    + constructor; [constructor; assumption|].
      constructor; [exact E|].
      eapply Forall_impl; [|exact Hall].
      intros z Hz. eapply leb_trans; eauto.
    + constructor; [exact IH|].
      eapply Permutation_Forall.
      * symmetry. apply insert_sorted_perm.
      * constructor; [|exact Hall].
        destruct (leb_total x y) as [H|H]; [congruence|exact H].
Qed.

Lemma sorted_strongly l : StronglySorted (le_of leb) (sorted leb l).
Proof.
  induction l as [|x l IH]; simpl; [constructor|].
  apply insert_sorted_strongly. exact IH.
Qed.
End SortedFacts.

Lemma StronglySorted_filter A (R : A -> A -> Prop) (p : A -> bool) l :
  StronglySorted R l -> StronglySorted R (filter p l).
Proof.
  induction 1 as [|x l Hs IH Hall]; simpl; [constructor|].
  destruct (p x); [|exact IH].
  constructor; [exact IH|].
  apply Forall_forall. intros y Hy. apply filter_In in Hy.
  rewrite Forall_forall in Hall. apply Hall. tauto.
Qed.

Lemma StronglySorted_split A (R : A -> A -> Prop) l1 a l2 b l3 :
  StronglySorted R (l1 ++ a :: l2 ++ b :: l3) -> R a b.
Proof.
  induction l1 as [|x l1 IH]; simpl; intros H; inversion H; subst.
  - rewrite Forall_forall in H3. apply H3. apply in_or_app. right. left. reflexivity.
  - auto.
Qed.

Lemma move_leb_total (a b : BandType * Z) : move_leb a b = true \/ move_leb b a = true.
Proof. unfold move_leb. destruct (Z.leb_spec (snd a) (snd b)); [auto|right]. apply Z.leb_le. lia. Qed.

Lemma move_leb_trans (a b c : BandType * Z) :
  move_leb a b = true -> move_leb b c = true -> move_leb a c = true.
Proof. unfold move_leb. rewrite !Z.leb_le. lia. Qed.

(** ** Band names *)

Lemma band_in_true b l : band_in b l = true <-> In b l.
Proof. apply mem_true. Qed.

Lemma band_in_false b l : band_in b l = false <-> ~ In b l.
Proof. apply mem_false. Qed.

Lemma null_true A (l : list A) : null l = true <-> l = [].
Proof. destruct l; simpl; split; congruence. Qed.

Lemma null_false A (l : list A) : null l = false <-> l <> [].
Proof. destruct l; simpl; split; congruence. Qed.
Lemma prefix_head a s1 c s2 :
  String.prefix (String a s1) (String c s2) = true -> a = c.
Proof.
  cbn [String.prefix]. destruct (ascii_dec a c); [auto|discriminate].
Qed.

Lemma device_prefix_exclusive g1 g2 (b : BandType) :
  has_prefix (device_prefix g1) b = true ->
  has_prefix (device_prefix g2) b = true -> g1 = g2.
Proof.
  unfold has_prefix, startswith. destruct b as [addr name]. cbn [snd].
  destruct name as [|c name].
  - destruct g1; discriminate.
  - destruct g1, g2; auto; cbn [device_prefix negb]; intros H1 H2;
      apply prefix_head in H1; apply prefix_head in H2; congruence.
Qed.

(** ** Rebalancing: the moves of one device class *)

Section MoveNums.
Variable f : BandType -> Z.
Let step := fun (acc : dict BandType Z) (band : BandType) =>
              dict_set band_eq_dec acc band (f band).

Lemma fold_set_keys l d k :
  In k (keys (fold_left step l d)) <-> In k (keys d) \/ In k l.
Proof.
  revert d. induction l as [|b l IH]; intros d; simpl; [tauto|].
  rewrite IH. unfold step. rewrite in_keys_dict_set. intuition.
Qed.

Lemma fold_set_NoDup l d : NoDup (keys d) -> NoDup (keys (fold_left step l d)).
Proof.
  revert d. induction l as [|b l IH]; intros d H; simpl; [exact H|].
  apply IH. apply NoDup_dict_set. exact H.
Qed.

Lemma fold_set_get l d k :
  dict_get band_eq_dec (fold_left step l d) k
  = if band_in k l then Some (f k) else dict_get band_eq_dec d k.
Proof.
  revert d. induction l as [|b l IH]; intros d; simpl; [reflexivity|].
  rewrite IH. unfold step. rewrite dict_get_set.
  destruct (band_in k l) eqn:E.
  - apply band_in_true in E.
    assert (H : band_in k (b :: l) = true) by (apply band_in_true; simpl; auto).
    rewrite H. reflexivity.
  - apply band_in_false in E. destruct (band_eq_dec k b) as [->|Hn].
    + assert (H : band_in b (b :: l) = true) by (apply band_in_true; simpl; auto).
      rewrite H. reflexivity.
    + assert (H : band_in k (b :: l) = false).
      { apply band_in_false. simpl. intros [H|H]; auto. }
      rewrite H. reflexivity.
Qed.
End MoveNums.

Lemma move_nums_keys fb fq mean all k :
  In k (keys (move_nums fb fq mean all)) <-> In k all.
Proof. unfold move_nums. rewrite fold_set_keys. simpl. tauto. Qed.

Lemma move_nums_NoDup fb fq mean all : NoDup (keys (move_nums fb fq mean all)).
Proof. unfold move_nums. apply fold_set_NoDup. constructor. Qed.

Lemma move_nums_get fb fq mean all k :
  dict_get band_eq_dec (move_nums fb fq mean all) k
  = if band_in k all then Some (move_num fb fq mean k) else None.
Proof. unfold move_nums. rewrite fold_set_get. reflexivity. Qed.

(** What [balance] returns: the moves with the residual taken from one
    band, so that they sum to zero. *)
Lemma balance_Ok self bmn rng d' rng' :
  balance self bmn rng = Ok (d', rng') ->
  sum (values d') = 0 /\ keys d' = keys bmn /\
  forall k, dict_get band_eq_dec d' k = dict_get band_eq_dec bmn k \/
            (sum (values bmn) < 0 /\
             exists num, dict_get band_eq_dec bmn k = Some num /\
                         dict_get band_eq_dec d' k = Some (num - sum (values bmn))).
Proof.
  unfold balance. destruct (Z.gtb_spec (sum (values bmn)) 0) as [Hgt|Hle]; [discriminate|].
  destruct (Z.eqb_spec (sum (values bmn)) 0) as [Hz|Hnz]; cbn [negb]; intros H; inv_M.
  - auto.
  - destruct (dict_get band_eq_dec bmn a) as [num|] eqn:E; inv_M.
    split; [|split].
    + rewrite (sum_values_set _ _ _ _ E). lia.
    + apply keys_dict_set_old. eapply dict_get_Some_key; eauto.
    + intros k. rewrite dict_get_set. destruct (band_eq_dec k a) as [->|Hn]; [|auto].
      right. split; [lia|]. eauto.
Qed.

Lemma single_used_band_Some fb fq band :
  single_used_band fb fq = Some band -> exists length, fq = [(band, length)].
Proof.
  unfold single_used_band. destruct fq as [|[b len] [|? ?]]; try discriminate.
  destruct (len =? 0).
  - intros H. inversion H; subst. eauto.
  - destruct fb as [|first [|? ?]]; try discriminate.
    destruct (band_eq_dec b first); [|discriminate].
    intros H. inversion H; subst. eauto.
Qed.

Section ClassFacts.
Variable order : SetOrder.

Lemma set_iter_In l k : In k (set_iter order l) <-> In k l.
Proof.
  split; apply Permutation_in; [|symmetry]; apply set_iter_perm.
Qed.

Lemma unready_bands_In fb fq k :
  In k (unready_bands order fb fq) <-> In k (keys fq) /\ ~ In k fb.
Proof.
  unfold unready_bands, set_difference. rewrite set_iter_In, filter_In, nodup_In.
  rewrite negb_true_iff. fold (band_in k fb). rewrite band_in_false. tauto.
Qed.

Lemma new_ready_bands_In fb fq k :
  In k (new_ready_bands order fb fq) <-> In k fb /\ ~ In k (keys fq).
Proof.
  unfold new_ready_bands, set_difference. rewrite set_iter_In, filter_In, nodup_In.
  rewrite negb_true_iff. fold (band_in k (keys fq)). rewrite band_in_false. tauto.
Qed.

Lemma all_bands_of_In fb fq k :
  In k (all_bands_of order fb fq) <-> In k fb \/ In k (keys fq).
Proof.
  unfold all_bands_of, set_union. rewrite set_iter_In, nodup_In, in_app_iff. tauto.
Qed.

Lemma working_set_keys fb fq k :
  In k (keys (working_set order fb fq)) -> In k (keys fq).
Proof.
  unfold working_set.
  destruct (null (new_ready_bands order fb fq) && negb (null (unready_bands order fb fq)));
    [|auto].
  unfold keys. rewrite map_map. cbn [fst]. rewrite map_id.
  intros H. apply unready_bands_In in H. tauto.
Qed.

Lemma filtered_keys_prefix p (d : dict BandType Z) k :
  In k (keys (filter (fun kv => has_prefix p (fst kv)) d)) -> has_prefix p k = true.
Proof.
  unfold keys. rewrite in_map_iff. intros ([k' v] & <- & H).
  apply filter_In in H. tauto.
Qed.

(** One class only adds entries for bands of its class, and what it adds
    sums to zero. *)
Lemma reassign_class_Ok self d is_gpu m rng m' rng' :
  reassign_class order self d is_gpu m rng = Ok (m', rng') ->
  (forall k, In k (keys m) -> has_prefix (device_prefix is_gpu) k = false) ->
  exists part,
    m' = m ++ part /\ NoDup (keys part) /\
    (forall k, In k (keys part) -> has_prefix (device_prefix is_gpu) k = true) /\
    sum (values part) = 0 /\
    reassign_class order self d is_gpu [] rng = Ok (part, rng').
Proof.
  unfold reassign_class.
  set (p := device_prefix is_gpu).
  set (fb := filter (has_prefix p) (_bands self)).
  set (fq := filter (fun kv => has_prefix p (fst kv)) d).
  intros H Hm.
  destruct (null fb) eqn:Hfb.
  { inv_M. exists []. rewrite app_nil_r.
    repeat split; auto; try constructor; simpl; tauto. }
  destruct (single_used_band fb fq) as [band|] eqn:Hsingle.
  { inv_M. destruct (single_used_band_Some _ _ Hsingle) as (len & Hfq).
    assert (Hp : has_prefix p band = true).
    { apply (@filtered_keys_prefix p d). fold fq. rewrite Hfq. simpl. auto. }
    exists [(band, 0)]. split; [|split; [|split; [|split]]].
    - apply dict_update_app.
      + simpl. repeat constructor. simpl. tauto.
      + simpl. intros k [<-|[]] Hin. apply Hm in Hin. congruence.
    - simpl. repeat constructor. simpl. tauto.
    - simpl. intros k [<-|[]]. exact Hp.
    - reflexivity.
    - reflexivity. }
  inv_M. rename a into mean, H0 into Hmean, a0 into bmn, H into H0.
  destruct (balance_Ok _ _ _ H0) as (Hsum & Hkeys & _).
  assert (Hnd : NoDup (keys bmn)) by (rewrite Hkeys; apply move_nums_NoDup).
  assert (Hpre : forall k, In k (keys bmn) -> has_prefix p k = true).
  { intros k. rewrite Hkeys, move_nums_keys, all_bands_of_In.
    intros [Hk|Hk].
    - apply filter_In in Hk. tauto.
    - apply working_set_keys in Hk. eapply filtered_keys_prefix; eauto. }
  exists bmn. split; [|split; [|split; [|split]]]; auto.
  - apply dict_update_app; auto.
    intros k Hk Hin. apply Hpre in Hk. apply Hm in Hin. fold p in Hin. congruence.
  - erewrite bind_Ok_intro by (apply lift_result_intro; exact Hmean).
    erewrite bind_Ok_intro by exact H0. unfold ret. f_equal. f_equal.
    apply dict_update_app; auto.
Qed.
End ClassFacts.

(** ** Rebalancing: the returned map *)

Lemma reassign_subtasks_Ok order self d rng m rng' :
  reassign_subtasks order self d rng = Ok (m, rng') ->
  exists cpu gpu rng1,
    reassign_class order self d false [] rng = Ok (cpu, rng1) /\
    reassign_class order self d true [] rng1 = Ok (gpu, rng') /\
    m = sorted move_leb (cpu ++ gpu) /\
    NoDup (keys (cpu ++ gpu)) /\
    sum (values cpu) = 0 /\ sum (values gpu) = 0 /\
    (forall k, In k (keys cpu) -> has_prefix "numa" k = true) /\
    (forall k, In k (keys gpu) -> has_prefix "gpu" k = true).
Proof.
  unfold reassign_subtasks. intros H. inv_M.
  rename a into cpu', a0 into all'.
  destruct (reassign_class_Ok _ _ _ _ _ _ H0) as (cpu & E1 & Hnd1 & Hp1 & Hs1 & Hr1).
  { simpl. tauto. }
  simpl in E1. subst cpu'.
  destruct (reassign_class_Ok _ _ _ _ _ _ H) as (gpu & E2 & Hnd2 & Hp2 & Hs2 & Hr2).
  { intros k Hk. apply Hp1 in Hk.
    destruct (has_prefix (device_prefix true) k) eqn:E; [|reflexivity].
    pose proof (device_prefix_exclusive false true k Hk E). discriminate. }
  subst all'.
  assert (Hnd : NoDup (keys (cpu ++ gpu))).
  { unfold keys. rewrite map_app. apply NoDup_app; auto.
    intros k Hk Hk'. apply Hp1 in Hk. apply Hp2 in Hk'.
    pose proof (device_prefix_exclusive false true k Hk Hk'). discriminate. }
  exists cpu, gpu, rng0. repeat split; auto.
  apply dict_of_items_NoDup.
  apply Permutation_NoDup with (l := keys (cpu ++ gpu)); [|exact Hnd].
  apply Permutation_map. symmetry. apply sorted_perm.
Qed.

(** Whatever [reassign_subtasks] returns sums to zero. *)
Lemma reassign_subtasks_sum order self d rng m rng' :
  reassign_subtasks order self d rng = Ok (m, rng') -> sum (values m) = 0.
Proof.
  intros H. destruct (reassign_subtasks_Ok _ _ _ _ H)
    as (cpu & gpu & rng1 & _ & _ & -> & _ & Hc & Hg & _).
  rewrite (sum_Permutation (l2 := values (cpu ++ gpu))).
  - unfold values. rewrite map_app, sum_app. unfold values in *. lia.
  - apply Permutation_map. apply sorted_perm.
Qed.

(** The entries of the returned map are those of the two classes. *)
Lemma reassign_subtasks_get order self d rng m rng' :
  reassign_subtasks order self d rng = Ok (m, rng') ->
  exists cpu gpu rng1,
    reassign_class order self d false [] rng = Ok (cpu, rng1) /\
    reassign_class order self d true [] rng1 = Ok (gpu, rng') /\
    forall k,
      dict_get band_eq_dec m k
      = if has_prefix "numa" k then dict_get band_eq_dec cpu k
        else dict_get band_eq_dec gpu k.
Proof.
  intros H. destruct (reassign_subtasks_Ok _ _ _ _ H)
    as (cpu & gpu & rng1 & H1 & H2 & -> & Hnd & _ & _ & Hp1 & Hp2).
  exists cpu, gpu, rng1. split; [exact H1|]. split; [exact H2|].
  intros k.
  assert (Hnd' : NoDup (keys (sorted move_leb (cpu ++ gpu)))).
  { apply Permutation_NoDup with (l := keys (cpu ++ gpu)); [|exact Hnd].
    apply Permutation_map. symmetry. apply sorted_perm. }
  assert (Hin : forall v, In (k, v) (sorted move_leb (cpu ++ gpu)) <->
                          In (k, v) cpu \/ In (k, v) gpu).
  { intros v. rewrite <- in_app_iff. split; apply Permutation_in;
      [|symmetry]; apply sorted_perm. }
  assert (Hc : NoDup (keys cpu) /\ NoDup (keys gpu)).
  { unfold keys in *. rewrite map_app in Hnd. split.
    - eapply NoDup_app_remove_r; eauto.
    - eapply NoDup_app_remove_l; eauto. }
  destruct Hc as [Hndc Hndg].
  destruct (has_prefix "numa" k) eqn:Ek.
  - destruct (dict_get band_eq_dec cpu k) as [v|] eqn:E.
    + apply dict_get_NoDup; auto. apply Hin. left. apply dict_get_In in E. exact E.
    + apply dict_get_None. intros Hk. apply dict_get_key with (K_eq_dec := band_eq_dec) in Hk.
      destruct Hk as (v & Hv). apply dict_get_In in Hv. apply Hin in Hv.
      destruct Hv as [Hv|Hv].
      * apply dict_get_None in E. apply E. apply (in_map fst) in Hv. exact Hv.
      * apply (in_map fst) in Hv. apply Hp2 in Hv.
        pose proof (device_prefix_exclusive false true k Ek Hv). discriminate.
  - destruct (dict_get band_eq_dec gpu k) as [v|] eqn:E.
    + apply dict_get_NoDup; auto. apply Hin. right. apply dict_get_In in E. exact E.
    + apply dict_get_None. intros Hk. apply dict_get_key with (K_eq_dec := band_eq_dec) in Hk.
      destruct Hk as (v & Hv). apply dict_get_In in Hv. apply Hin in Hv.
      destruct Hv as [Hv|Hv].
      * apply (in_map fst) in Hv. apply Hp1 in Hv. simpl in Hv. congruence.
      * apply dict_get_None in E. apply E. apply (in_map fst) in Hv. exact Hv.
Qed.

(** ** The order on strings and bands *)

Lemma ascii_compare_refl c : Ascii.compare c c = Eq.
Proof. unfold Ascii.compare. apply N.compare_refl. Qed.

Lemma ascii_compare_lt_trans a b c :
  Ascii.compare a b = Lt -> Ascii.compare b c = Lt -> Ascii.compare a c = Lt.
Proof. unfold Ascii.compare. rewrite !N.compare_lt_iff. lia. Qed.

Lemma string_compare_refl s : String.compare s s = Eq.
Proof. induction s as [|c s IH]; simpl; [reflexivity|]. rewrite ascii_compare_refl. exact IH. Qed.

Lemma string_compare_lt_trans a b c :
  String.compare a b = Lt -> String.compare b c = Lt -> String.compare a c = Lt.
Proof.
  revert b c. induction a as [|x a IH]; intros [|y b] [|z c]; simpl; try discriminate; auto.
  destruct (Ascii.compare x y) eqn:Exy; try discriminate;
    destruct (Ascii.compare y z) eqn:Eyz; try discriminate; intros H1 H2.
  - apply Ascii.compare_eq_iff in Exy, Eyz. subst. rewrite ascii_compare_refl. eauto.
  - apply Ascii.compare_eq_iff in Exy. subst. rewrite Eyz. reflexivity.
  - apply Ascii.compare_eq_iff in Eyz. subst. rewrite Exy. reflexivity.
  - rewrite (ascii_compare_lt_trans _ _ _ Exy Eyz). reflexivity.
Qed.

Lemma string_compare_Gt a b : String.compare a b = Gt <-> String.compare b a = Lt.
Proof.
  rewrite (String.compare_antisym b a).
  destruct (String.compare a b); simpl; split; congruence.
Qed.

Lemma string_leb_trans a b c :
  String.leb a b = true -> String.leb b c = true -> String.leb a c = true.
Proof.
  unfold String.leb.
  destruct (String.compare a b) eqn:Eab; try discriminate;
    destruct (String.compare b c) eqn:Ebc; try discriminate; intros _ _.
  - apply String.compare_eq_iff in Eab, Ebc. subst. rewrite string_compare_refl. reflexivity.
  - apply String.compare_eq_iff in Eab. subst. rewrite Ebc. reflexivity.
  - apply String.compare_eq_iff in Ebc. subst. rewrite Eab. reflexivity.
  - rewrite (string_compare_lt_trans _ _ _ Eab Ebc). reflexivity.
Qed.

(** Lexicographic comparison of a string followed by anything ordered. *)
Section Lexicographic.
Variable A : Type.
Variable leb : A -> A -> bool.
Hypothesis leb_total : forall a b, leb a b = true \/ leb b a = true.
Hypothesis leb_trans : forall a b c, leb a b = true -> leb b c = true -> leb a c = true.

Lemma lex_leb_total a b : lex_leb leb a b = true \/ lex_leb leb b a = true.
Proof.
  unfold lex_leb. rewrite (String.compare_antisym (fst b) (fst a)).
  destruct (String.compare (fst a) (fst b)); simpl; auto.
Qed.

Lemma lex_leb_trans a b c :
  lex_leb leb a b = true -> lex_leb leb b c = true -> lex_leb leb a c = true.
Proof.
  unfold lex_leb.
  destruct (String.compare (fst a) (fst b)) eqn:Eab; try discriminate;
    destruct (String.compare (fst b) (fst c)) eqn:Ebc; try discriminate; intros H1 H2.
  - apply String.compare_eq_iff in Eab, Ebc. rewrite Eab, Ebc, string_compare_refl. eauto.
  - apply String.compare_eq_iff in Eab. rewrite Eab, Ebc. reflexivity.
  - apply String.compare_eq_iff in Ebc. rewrite <- Ebc, Eab. reflexivity.
  - rewrite (string_compare_lt_trans _ _ _ Eab Ebc). reflexivity.
Qed.

Lemma lex_leb_fst a b : lex_leb leb a b = true -> String.leb (fst a) (fst b) = true.
Proof.
  unfold lex_leb, String.leb. destruct (String.compare (fst a) (fst b)); auto.
Qed.

Lemma lex_leb_snd a b : lex_leb leb a b = true -> fst a = fst b -> leb (snd a) (snd b) = true.
Proof.
  unfold lex_leb. intros H E. rewrite E, string_compare_refl in H. exact H.
Qed.
End Lexicographic.

(** ** Grouping a sorted list *)

Lemma filter_none A (f : A -> bool) l :
  (forall x, In x l -> f x = false) -> filter f l = [].
Proof.
  induction l as [|x l IH]; simpl; intros H; [reflexivity|].
  rewrite (H x) by auto. apply IH. auto.
Qed.

Section GroupBy.
Variable A : Type.
Variable key : A -> string.
Variable R : A -> A -> Prop.
Hypothesis R_key : forall a b, R a b -> String.leb (key a) (key b) = true.

Lemma groupby_nil l : groupby key l = [] -> l = [].
Proof.
  destruct l as [|x l]; [reflexivity|]. simpl.
  destruct (groupby key l) as [|[k g] rest]; [discriminate|].
  destruct (String.eqb (key x) k); discriminate.
Qed.

Lemma groupby_head x l k g rest :
  groupby key (x :: l) = (k, g) :: rest -> k = key x.
Proof.
  simpl. destruct (groupby key l) as [|[k0 g0] rest0].
  - intros H. inversion H. reflexivity.
  - destruct (String.eqb_spec (key x) k0); intros H; inversion H; congruence.
Qed.

Lemma groupby_keys l k :
  In k (keys (groupby key l)) -> exists y, In y l /\ key y = k.
Proof.
  revert k. induction l as [|x l IH]; intros k; simpl; [tauto|].
  destruct (groupby key l) as [|[k0 g0] rest0].
  - simpl. intros [<-|[]]. eauto.
  - destruct (String.eqb_spec (key x) k0); simpl.
    + intros [<-|H]; [eauto|].
      destruct (IH k) as (y & Hy & E); [simpl; auto|]. eauto.
    + intros [<-|H]; [eauto|].
      destruct (IH k) as (y & Hy & E); [exact H|]. eauto.
Qed.

Lemma groupby_sorted l :
  StronglySorted R l ->
  NoDup (keys (groupby key l)) /\
  forall k,
    dict_get string_dec (groupby key l) k
    = match filter (fun x => String.eqb (key x) k) l with
      | [] => None
      | g => Some g
      end.
Proof.
  induction 1 as [|x l Hs [IHnd IHget] Hall]; [split; [constructor|reflexivity]|].
  cbn [groupby].
  destruct (groupby key l) as [|[k0 g0] rest0] eqn:Eg.
  - apply groupby_nil in Eg. subst l. split.
    + simpl. repeat constructor. simpl. tauto.
    + intros k. simpl. destruct (string_dec k (key x)) as [->|Hn].
      * rewrite String.eqb_refl. reflexivity.
      * destruct (String.eqb_spec (key x) k); [congruence|reflexivity].
  - destruct l as [|y l']; [discriminate|].
    pose proof Eg as Hk0. apply groupby_head in Hk0.
    assert (Hno : key x <> k0 -> forall z, In z (y :: l') -> key z <> key x).
    { intros Ex z Hz Ez. rewrite Forall_forall in Hall.
      assert (H1 : String.leb (key x) (key y) = true) by (apply R_key, Hall; simpl; auto).
      assert (H2 : String.leb (key y) (key z) = true).
      { destruct Hz as [<-|Hz].
        - unfold String.leb. rewrite string_compare_refl. reflexivity.
        - apply R_key. apply StronglySorted_inv in Hs. destruct Hs as [_ Hy].
          rewrite Forall_forall in Hy. auto. }
      rewrite Ez in H2. apply Ex. rewrite Hk0.
      apply String.leb_antisym; assumption. }
    remember (y :: l') as L eqn:EL. clear EL Hk0 Hs Hall.
    destruct (String.eqb_spec (key x) k0) as [Ex|Ex].
    + split; [exact IHnd|].
      intros k. specialize (IHget k). cbn [dict_get] in *.
      cbn [filter]. destruct (string_dec k k0) as [->|Hn].
      * rewrite Ex, String.eqb_refl.
        destruct (filter (fun x0 => String.eqb (key x0) k0) L); congruence.
      * destruct (String.eqb_spec (key x) k); [congruence|]. exact IHget.
    + specialize (Hno Ex). split.
      * cbn [keys map fst]. constructor; [|exact IHnd].
        intros Hin. destruct (groupby_keys L (key x)) as (z & Hz & Ez).
        { rewrite Eg. exact Hin. }
        exact (Hno z Hz Ez).
      * intros k. specialize (IHget k). cbn [dict_get filter].
        destruct (string_dec k (key x)) as [->|Hn].
        -- rewrite String.eqb_refl.
           assert (Hf : filter (fun x0 => String.eqb (key x0) (key x)) L = []).
           { apply filter_none. intros z Hz. apply String.eqb_neq. auto. }
           rewrite Hf. reflexivity.
        -- destruct (String.eqb_spec (key x) k); [congruence|]. exact IHget.
Qed.
End GroupBy.

(** ** The band indexes *)

Lemma Permutation_filter A (p : A -> bool) l l' :
  Permutation l l' -> Permutation (filter p l) (filter p l').
Proof.
  induction 1 as [|x l l' H IH|x y l|l l' l'' H1 IH1 H2 IH2]; simpl.
  - constructor.
  - destruct (p x); auto.
  - destruct (p x), (p y); auto. apply perm_swap.
  - etransitivity; eauto.
Qed.

Lemma Permutation_filter_split A (p : A -> bool) l :
  Permutation (filter p l ++ filter (fun x => negb (p x)) l) l.
Proof.
  induction l as [|x l IH]; simpl; [constructor|].
  destruct (p x); simpl.
  - constructor. exact IH.
  - symmetry. apply Permutation_cons_app. symmetry. exact IH.
Qed.

Lemma dict_get_map_values (V W : Type) (h : V -> W) (d : dict string V) k :
  dict_get string_dec (map (fun kv => (fst kv, h (snd kv))) d) k
  = option_map h (dict_get string_dec d k).
Proof.
  induction d as [|[k' v] d IH]; simpl; [reflexivity|].
  destruct (string_dec k k'); [reflexivity|exact IH].
Qed.

Lemma band_leb_total a b : band_leb a b = true \/ band_leb b a = true.
Proof. apply lex_leb_total. apply String.leb_total. Qed.

Lemma band_leb_trans a b c :
  band_leb a b = true -> band_leb b c = true -> band_leb a c = true.
Proof. apply lex_leb_trans. apply string_leb_trans. Qed.

Lemma typed_band_leb_total a b : typed_band_leb a b = true \/ typed_band_leb b a = true.
Proof. apply lex_leb_total. apply band_leb_total. Qed.

Lemma typed_band_leb_trans a b c :
  typed_band_leb a b = true -> typed_band_leb b c = true -> typed_band_leb a c = true.
Proof. apply lex_leb_trans. apply band_leb_trans. Qed.

Lemma device_type_numa b : String.eqb (device_type b) "numa" = is_numa b.
Proof. unfold device_type, is_numa. destruct (startswith "numa" (snd b)); reflexivity. Qed.

Lemma device_type_gpu b : String.eqb (device_type b) "gpu" = negb (is_numa b).
Proof. unfold device_type, is_numa. destruct (startswith "numa" (snd b)); reflexivity. Qed.

Lemma index_entry_of_filter (p : BandType -> bool) (sb bands : list BandType) :
  StronglySorted (le_of band_leb) sb ->
  Permutation sb bands ->
  index_entry (match filter p sb with [] => None | g => Some g end) (filter p bands).
Proof.
  intros Hs Hp.
  assert (Hf : Permutation (filter p sb) (filter p bands)) by (apply Permutation_filter; exact Hp).
  assert (Hss : StronglySorted (le_of band_leb) (filter p sb)) by (apply StronglySorted_filter; exact Hs).
  destruct (filter p sb) as [|x g] eqn:E; simpl.
  - apply Permutation_nil in Hf. exact Hf.
  - split; [discriminate|]. split; assumption.
Qed.

Section UpdateBands.
Variable bands : list BandType.

Let tag := fun b : BandType => (device_type b, b).
Let st := sorted typed_band_leb (map tag bands).
Let groups := groupby fst st.

Lemma sorted_bands_strongly : StronglySorted (le_of band_leb) (sorted band_leb bands).
Proof. apply sorted_strongly; [apply band_leb_total | apply band_leb_trans]. Qed.

Lemma address_index_get address :
  dict_get string_dec (_address_to_bands (_update_bands bands)) address
  = match filter (fun b => String.eqb (fst b) address) (sorted band_leb bands) with
    | [] => None
    | g => Some g
    end.
Proof.
  cbn [_update_bands _address_to_bands].
  destruct (@groupby_sorted _ fst (le_of band_leb) (@lex_leb_fst _ String.leb)
              (sorted band_leb bands) sorted_bands_strongly) as [Hnd Hget].
  rewrite dict_of_items_NoDup by exact Hnd. apply Hget.
Qed.

Lemma typed_sorted_strongly : StronglySorted (le_of typed_band_leb) st.
Proof. apply sorted_strongly; [apply typed_band_leb_total | apply typed_band_leb_trans]. Qed.

Lemma device_index_eq :
  _device_type_to_bands (_update_bands bands)
  = map (fun ktps => (fst ktps, map snd (snd ktps))) groups.
Proof.
  cbn [_update_bands _device_type_to_bands]. fold tag. fold st. fold groups.
  apply dict_of_items_NoDup.
  unfold keys. rewrite map_map. cbn [fst].
  apply (@groupby_sorted _ fst (le_of typed_band_leb) (@lex_leb_fst _ band_leb)
           st typed_sorted_strongly).
Qed.

Lemma device_index_get device :
  dict_get string_dec (_device_type_to_bands (_update_bands bands)) device
  = match filter (fun tb => String.eqb (fst tb) device) st with
    | [] => None
    | g => Some (map snd g)
    end.
Proof.
  rewrite device_index_eq, dict_get_map_values.
  destruct (@groupby_sorted _ fst (le_of typed_band_leb) (@lex_leb_fst _ band_leb)
              st typed_sorted_strongly) as [_ Hget].
  fold groups in Hget. rewrite Hget.
  destruct (filter (fun tb => String.eqb (fst tb) device) st); reflexivity.
Qed.

Lemma device_group_perm device :
  Permutation (map snd (filter (fun tb => String.eqb (fst tb) device) st))
              (filter (fun b => String.eqb (device_type b) device) bands).
Proof.
  transitivity (map snd (filter (fun tb => String.eqb (fst tb) device) (map tag bands))).
  - apply Permutation_map, Permutation_filter. apply sorted_perm.
  - rewrite filter_map_swap, map_map. cbn [tag snd fst]. rewrite map_id. reflexivity.
Qed.

Lemma device_group_sorted device :
  StronglySorted (le_of band_leb)
    (map snd (filter (fun tb => String.eqb (fst tb) device) st)).
Proof.
  pose proof typed_sorted_strongly as Hs. revert Hs.
  generalize st. intros l. induction 1 as [|x l Hs IH Hall]; simpl; [constructor|].
  destruct (String.eqb_spec (fst x) device) as [Ex|Ex]; [|exact IH].
  simpl. constructor; [exact IH|].
  apply Forall_forall. intros b Hb. apply in_map_iff in Hb.
  destruct Hb as (y & <- & Hy). apply filter_In in Hy. destruct Hy as [Hy Ey].
  apply String.eqb_eq in Ey. rewrite Forall_forall in Hall.
  apply (@lex_leb_snd _ band_leb x y); [apply Hall; exact Hy | congruence].
Qed.

Lemma device_index_entry device :
  index_entry
    (dict_get string_dec (_device_type_to_bands (_update_bands bands)) device)
    (filter (fun b => String.eqb (device_type b) device) bands).
Proof.
  rewrite device_index_get.
  pose proof (device_group_perm device) as Hp.
  pose proof (device_group_sorted device) as Hs.
  destruct (filter (fun tb => String.eqb (fst tb) device) st) as [|x g]; simpl in *.
  - apply Permutation_nil in Hp. exact Hp.
  - split; [discriminate|]. split; assumption.
Qed.

Lemma device_index_default device :
  Permutation
    (dict_get_default string_dec (_device_type_to_bands (_update_bands bands)) device [])
    (filter (fun b => String.eqb (device_type b) device) bands).
Proof.
  unfold dict_get_default. rewrite device_index_get.
  pose proof (device_group_perm device) as Hp.
  destruct (filter (fun tb => String.eqb (fst tb) device) st) as [|x g]; exact Hp.
Qed.

Lemma device_index_keys device :
  In device (keys (_device_type_to_bands (_update_bands bands))) ->
  device = "numa" \/ device = "gpu".
Proof.
  rewrite device_index_eq. unfold keys. rewrite map_map. cbn [fst].
  intros H. apply (groupby_keys fst st) in H. destruct H as ([dt b] & Hin & <-).
  apply (Permutation_in _ (sorted_perm typed_band_leb (map tag bands))) in Hin.
  apply in_map_iff in Hin. destruct Hin as (b' & E & _). inversion E; subst.
  cbn [fst]. unfold device_type. destruct (startswith "numa" (snd b)); auto.
Qed.

Lemma update_bands_consistent : indexes_consistent (_update_bands bands).
Proof.
  unfold indexes_consistent. cbn [_bands _update_bands].
  split; [|split; [|split; [|split]]].
  - intros address. rewrite address_index_get.
    apply index_entry_of_filter; [apply sorted_bands_strongly | apply sorted_perm].
  - rewrite (filter_ext is_numa (fun b => String.eqb (device_type b) "numa")).
    + apply device_index_entry.
    + intros b. symmetry. apply device_type_numa.
  - rewrite (filter_ext (fun b => negb (is_numa b))
               (fun b => String.eqb (device_type b) "gpu")).
    + apply device_index_entry.
    + intros b. symmetry. apply device_type_gpu.
  - apply device_index_keys.
  - rewrite (device_index_default "numa"), (device_index_default "gpu").
    rewrite (filter_ext _ _ device_type_numa), (filter_ext _ _ device_type_gpu).
    apply Permutation_filter_split.
Qed.
End UpdateBands.

Lemma reachable_updated self : reachable self -> self = _update_bands (_bands self).
Proof.
  induction 1 as [|self bands _ _|self cluster_bands _ IH].
  - reflexivity.
  - reflexivity.
  - unfold ensure_bands. destruct (null (_bands self)); [reflexivity|exact IH].
Qed.

(** C10. [_update_bands bands] stores [bands] as the band list and builds
    the two indexes from it, and they agree with that list:
    [_address_to_bands] maps each address to exactly the bands of that
    address, in sorted order; in [_device_type_to_bands] the entry "numa"
    lists the bands whose name starts with "numa" and the entry "gpu" all
    the other bands, both in sorted order; there is no other entry, and the
    two groups together are a rearrangement of the band list.  Every state
    that the actor reaches (after construction, after every band list that
    the cluster watcher delivers and after the refresh in
    [assign_subtasks]) is the result of [_update_bands] on its band list,
    so the indexes agree with the band list there too. *)
Theorem update_bands_indexes :
  (forall bands,
      _bands (_update_bands bands) = bands /\
      (forall address,
          index_entry
            (dict_get string_dec (_address_to_bands (_update_bands bands)) address)
            (filter (fun b => String.eqb (fst b) address) bands)) /\
      index_entry
        (dict_get string_dec (_device_type_to_bands (_update_bands bands)) "numa")
        (filter is_numa bands) /\
      index_entry
        (dict_get string_dec (_device_type_to_bands (_update_bands bands)) "gpu")
        (filter (fun b => negb (is_numa b)) bands) /\
      (forall device,
          In device (keys (_device_type_to_bands (_update_bands bands))) ->
          device = "numa" \/ device = "gpu") /\
      Permutation
        (dict_get_default string_dec (_device_type_to_bands (_update_bands bands)) "numa" []
         ++ dict_get_default string_dec (_device_type_to_bands (_update_bands bands)) "gpu" [])
        bands) /\
  (forall self,
      reachable self ->
      self = _update_bands (_bands self) /\ indexes_consistent self).
Proof.
  split.
  - intros bands. split; [reflexivity|]. exact (update_bands_consistent bands).
  - intros self H. split; [exact (reachable_updated H)|].
    rewrite (reachable_updated H). apply update_bands_consistent.
Qed.

Lemma update_bands_indexes_witness :
  _update_bands [B2; ("A", "gpu-0"); B1]
  = _update_bands (_bands (_update_bands [B2; ("A", "gpu-0"); B1])) /\
  indexes_consistent (_update_bands [B2; ("A", "gpu-0"); B1]).
Proof.
  apply (proj2 update_bands_indexes).
  apply (reachable_watch [B2; ("A", "gpu-0"); B1] reachable_init).
Defined.

Lemma get_device_bands_Ok self is_gpu rng l rng' :
  _get_device_bands self is_gpu rng = Ok (l, rng') ->
  l = dict_get_default string_dec (_device_type_to_bands self) (device_prefix is_gpu) []
  /\ l <> [] /\ rng' = rng.
Proof.
  unfold _get_device_bands.
  destruct (null (dict_get_default string_dec (_device_type_to_bands self)
                    (device_prefix is_gpu) [])) eqn:E; intros H; inv_M.
  apply null_false in E. auto.
Qed.

Lemma get_device_bands_Err self is_gpu rng e :
  _get_device_bands self is_gpu rng = Err e ->
  e = NoMatchingSlots (if is_gpu then "gpu" else "cpu") /\
  dict_get_default string_dec (_device_type_to_bands self) (device_prefix is_gpu) [] = [].
Proof.
  unfold _get_device_bands.
  destruct (null (dict_get_default string_dec (_device_type_to_bands self)
                    (device_prefix is_gpu) [])) eqn:E; intros H.
  - apply null_true in E. inversion H. auto.
  - discriminate.
Qed.

(** The bands of a device class, as [_update_bands] classifies them. *)
Lemma device_bands_reachable self is_gpu :
  reachable self ->
  Permutation
    (dict_get_default string_dec (_device_type_to_bands self) (device_prefix is_gpu) [])
    (filter (fun b => if is_gpu then negb (is_numa b) else is_numa b) (_bands self)).
Proof.
  intros H. rewrite (reachable_updated H). cbn [_bands _update_bands].
  destruct is_gpu; cbn [device_prefix negb].
  - rewrite (device_index_default (_bands self) "gpu").
    rewrite (filter_ext _ _ device_type_gpu). reflexivity.
  - rewrite (device_index_default (_bands self) "numa").
    rewrite (filter_ext _ _ device_type_numa). reflexivity.
Qed.

(** ** Rebalancing: the residual is never positive *)

Lemma fold_set_fresh (f : BandType -> Z) l (d : dict BandType Z) :
  NoDup l -> (forall b, In b l -> ~ In b (keys d)) ->
  fold_left (fun acc band => dict_set band_eq_dec acc band (f band)) l d
  = d ++ map (fun b => (b, f b)) l.
Proof.
  revert d. induction l as [|b l IH]; intros d Hnd Hd; simpl.
  - symmetry. apply app_nil_r.
  - inversion Hnd; subst. rewrite dict_set_new by (apply Hd; simpl; auto).
    rewrite IH; auto.
    + rewrite <- app_assoc. reflexivity.
    + intros b' Hb'. unfold keys. rewrite map_app, in_app_iff. simpl.
      intros [H|[H|[]]].
      * apply (Hd b'); simpl; auto.
      * subst. auto.
Qed.

Lemma move_nums_values fb fq mean all :
  NoDup all -> values (move_nums fb fq mean all) = map (move_num fb fq mean) all.
Proof.
  intros H. unfold move_nums. rewrite fold_set_fresh; auto.
  simpl. unfold values. rewrite map_map. reflexivity.
Qed.

Lemma sum_map_const (A : Type) (p : A -> bool) (c : Z) (g : A -> Z) l :
  sum (map (fun a => if p a then c - g a else - g a) l)
  = c * Z.of_nat (List.length (filter p l)) - sum (map g l).
Proof.
  unfold sum. induction l as [|a l IH]; simpl; [lia|].
  rewrite IH. destruct (p a); simpl List.length; lia.
Qed.

Lemma get_default_values (d : dict BandType Z) :
  NoDup (keys d) ->
  map (fun b => dict_get_default band_eq_dec d b 0) (keys d) = values d.
Proof.
  induction d as [|[k v] d IH]; simpl; intros Hnd; [reflexivity|].
  inversion Hnd; subst. unfold dict_get_default at 1. simpl.
  destruct (band_eq_dec k k); [|congruence]. f_equal.
  rewrite <- IH by assumption. apply map_ext_in. intros b Hb.
  unfold dict_get_default. simpl.
  destruct (band_eq_dec b k); [subst; tauto|reflexivity].
Qed.

Lemma sum_get_default (d : dict BandType Z) all :
  NoDup (keys d) -> NoDup all -> incl (keys d) all ->
  sum (map (fun b => dict_get_default band_eq_dec d b 0) all) = sum (values d).
Proof.
  intros Hd Hall Hincl.
  set (rest := filter (fun b => negb (band_in b (keys d))) all).
  assert (Hp : Permutation all (keys d ++ rest)).
  { apply NoDup_Permutation; auto.
    - apply NoDup_app; auto.
      + apply NoDup_filter. exact Hall.
      + intros b Hb Hr. apply filter_In in Hr. destruct Hr as [_ Hr].
        apply negb_true_iff, band_in_false in Hr. tauto.
    - intros b. rewrite in_app_iff. unfold rest. rewrite filter_In.
      rewrite negb_true_iff, band_in_false.
      destruct (in_dec band_eq_dec b (keys d)); split; auto; try tauto. }
  rewrite (sum_Permutation (Permutation_map _ Hp)).
  rewrite map_app, sum_app, get_default_values by exact Hd.
  assert (Hz : sum (map (fun b => dict_get_default band_eq_dec d b 0) rest) = 0).
  { assert (Hr : forall b, In b rest -> dict_get_default band_eq_dec d b 0 = 0).
    { intros b Hb. apply filter_In in Hb. destruct Hb as [_ Hb].
      apply negb_true_iff, band_in_false in Hb.
      unfold dict_get_default.
      rewrite (proj2 (dict_get_None band_eq_dec d b) Hb). reflexivity. }
    clearbody rest. clear Hp. unfold sum. induction rest as [|b r IH]; simpl; [reflexivity|].
    rewrite Hr by (simpl; auto). rewrite IH; [reflexivity|].
    intros b' Hb'. apply Hr. simpl. auto. }
  lia.
Qed.

Lemma sum_nonneg l : (forall v, In v l -> 0 <= v) -> 0 <= sum l.
Proof.
  unfold sum. induction l as [|v l IH]; simpl; intros H; [lia|].
  assert (0 <= v) by (apply H; auto).
  assert (0 <= fold_right Z.add 0 l) by (apply IH; auto). lia.
Qed.

(** The mean of the code is the rounded-down quotient when the queue
    lengths are non-negative and sum to less than 2^53. *)
Lemma mean_of_floor fb fq :
  fb <> [] -> 0 <= sum (values fq) < 2 ^ 53 ->
  mean_of fb fq = Ok (sum (values fq) / Z.of_nat (List.length fb)).
Proof.
  intros Hfb Hs. unfold mean_of. apply int_true_divide_floor; [exact Hs|].
  destruct fb; [congruence|simpl List.length; lia].
Qed.

Lemma mean_of_nonneg fb fq mean :
  fb <> [] -> 0 <= sum (values fq) -> mean_of fb fq = Ok mean -> 0 <= mean.
Proof.
  intros Hfb Hs. unfold mean_of. apply int_true_divide_nonneg; [exact Hs|].
  destruct fb; [congruence|simpl List.length; lia].
Qed.

(** The moves before the credit sum to the mean times the number of ready
    bands, less the queue lengths. *)
Lemma move_nums_sum order fb fq mean :
  NoDup (keys fq) ->
  sum (values (move_nums fb fq mean (all_bands_of order fb fq)))
  = mean * Z.of_nat (List.length (filter (fun b => band_in b fb)
                                     (all_bands_of order fb fq)))
    - sum (values fq).
Proof.
  intros Hnd.
  assert (Hall : NoDup (all_bands_of order fb fq)).
  { unfold all_bands_of, set_union.
    eapply Permutation_NoDup; [symmetry; apply set_iter_perm|]. apply NoDup_nodup. }
  rewrite move_nums_values by exact Hall.
  unfold move_num.
  rewrite (sum_map_const (fun b => band_in b fb) mean
             (fun b => dict_get_default band_eq_dec fq b 0)).
  rewrite sum_get_default; auto.
  intros b Hb. apply all_bands_of_In. auto.
Qed.

Lemma ready_count_le order fb fq :
  (List.length (filter (fun b => band_in b fb) (all_bands_of order fb fq))
   <= List.length fb)%nat.
Proof.
  apply NoDup_incl_length.
  - apply NoDup_filter. unfold all_bands_of, set_union.
    eapply Permutation_NoDup; [symmetry; apply set_iter_perm|]. apply NoDup_nodup.
  - intros b Hb. apply filter_In in Hb. apply band_in_true. tauto.
Qed.

(** With non-negative queue lengths and a mean that is at most the exact
    one, the moves before the credit sum to at most zero, as the assertion
    in the code expects. *)
Lemma move_nums_total order fb fq mean :
  NoDup (keys fq) -> 0 <= mean ->
  mean * Z.of_nat (List.length fb) <= sum (values fq) ->
  sum (values (move_nums fb fq mean (all_bands_of order fb fq))) <= 0.
Proof.
  intros Hnd Hmean Hle. rewrite move_nums_sum by exact Hnd.
  pose proof (ready_count_le order fb fq) as Hc. nia.
Qed.

Lemma floor_mean_le S n : 0 <= S -> (0 < n)%nat ->
  0 <= S / Z.of_nat n /\ S / Z.of_nat n * Z.of_nat n <= S.
Proof.
  intros HS Hn. split; [apply Z.div_pos; lia|].
  rewrite Z.mul_comm. apply Z.mul_div_le. lia.
Qed.

Lemma sum_filter_le (p : BandType * Z -> bool) (d : dict BandType Z) :
  (forall v, In v (values d) -> 0 <= v) ->
  sum (values (filter p d)) <= sum (values d).
Proof.
  unfold sum, values. induction d as [|[k v] d IH]; simpl; intros H; [lia|].
  assert (0 <= v) by (apply H; auto).
  assert (fold_right Z.add 0 (map snd (filter p d)) <= fold_right Z.add 0 (map snd d))
    by (apply IH; auto).
  assert (0 <= fold_right Z.add 0 (map snd (filter p d))).
  { apply (@sum_nonneg (map snd (filter p d))). intros w Hw. apply H. right.
    apply in_map_iff in Hw. destruct Hw as (x & E & Hx). apply filter_In in Hx.
    apply in_map_iff. exists x. tauto. }
  destruct (p (k, v)); simpl; lia.
Qed.

(** ** Rebalancing: when a map is returned *)

Lemma filter_keys_NoDup (p : BandType * Z -> bool) (d : dict BandType Z) :
  NoDup (keys d) -> NoDup (keys (filter p d)).
Proof.
  induction d as [|[k v] d IH]; simpl; intros H; [constructor|].
  inversion H; subst. destruct (p (k, v)); simpl; auto.
  constructor; auto. intros Hin. apply H2.
  unfold keys in *. apply in_map_iff in Hin. destruct Hin as (x & E & Hx).
  apply filter_In in Hx. apply in_map_iff. exists x. tauto.
Qed.

Lemma get_default_nonneg (d : dict BandType Z) b :
  (forall v, In v (values d) -> 0 <= v) -> 0 <= dict_get_default band_eq_dec d b 0.
Proof.
  intros H. unfold dict_get_default.
  destruct (dict_get band_eq_dec d b) as [v|] eqn:E; [|lia].
  apply H. apply dict_get_In in E. apply (in_map snd) in E. exact E.
Qed.

Lemma working_set_NoDup order fb fq :
  NoDup (keys fq) -> NoDup (keys (working_set order fb fq)).
Proof.
  intros H. unfold working_set.
  destruct (null (new_ready_bands order fb fq) && negb (null (unready_bands order fb fq)));
    [|exact H].
  unfold keys. rewrite map_map. cbn [fst]. rewrite map_id.
  unfold unready_bands, set_difference.
  eapply Permutation_NoDup; [symmetry; apply set_iter_perm|].
  apply NoDup_filter, NoDup_nodup.
Qed.

Lemma working_set_nonneg order fb fq :
  (forall v, In v (values fq) -> 0 <= v) ->
  forall v, In v (values (working_set order fb fq)) -> 0 <= v.
Proof.
  intros H. unfold working_set.
  destruct (null (new_ready_bands order fb fq) && negb (null (unready_bands order fb fq)));
    [|exact H].
  intros v Hv. unfold values in Hv. rewrite map_map in Hv. cbn [snd] in Hv.
  apply in_map_iff in Hv. destruct Hv as (b & <- & _).
  apply get_default_nonneg. exact H.
Qed.

Lemma sum_get_default_le (d : dict BandType Z) l :
  NoDup (keys d) -> NoDup l -> (forall v, In v (values d) -> 0 <= v) ->
  sum (map (fun b => dict_get_default band_eq_dec d b 0) l) <= sum (values d).
Proof.
  intros Hd Hl Hpos.
  set (rest := filter (fun b => negb (band_in b l)) (keys d)).
  assert (Hall : NoDup (l ++ rest)).
  { apply NoDup_app; auto.
    - apply NoDup_filter. exact Hd.
    - intros b Hb Hr. apply filter_In in Hr. destruct Hr as [_ Hr].
      apply negb_true_iff, band_in_false in Hr. tauto. }
  assert (Hincl : incl (keys d) (l ++ rest)).
  { intros b Hb. apply in_app_iff.
    destruct (in_dec band_eq_dec b l) as [Hin|Hout]; [left; exact Hin|right].
    apply filter_In. split; [exact Hb|]. apply negb_true_iff, band_in_false. exact Hout. }
  rewrite <- (@sum_get_default d (l ++ rest) Hd Hall Hincl).
  rewrite map_app, sum_app.
  assert (0 <= sum (map (fun b => dict_get_default band_eq_dec d b 0) rest)).
  { apply sum_nonneg. intros v Hv. apply in_map_iff in Hv. destruct Hv as (b & <- & _).
    apply get_default_nonneg. exact Hpos. }
  lia.
Qed.

Lemma working_set_sum_le order fb fq :
  NoDup (keys fq) -> (forall v, In v (values fq) -> 0 <= v) ->
  sum (values (working_set order fb fq)) <= sum (values fq).
Proof.
  intros Hnd Hpos. unfold working_set.
  destruct (null (new_ready_bands order fb fq) && negb (null (unready_bands order fb fq)));
    [|lia].
  unfold values at 1. rewrite map_map. cbn [snd].
  apply sum_get_default_le; auto.
  unfold unready_bands, set_difference.
  eapply Permutation_NoDup; [symmetry; apply set_iter_perm|].
  apply NoDup_filter, NoDup_nodup.
Qed.

(** The working set of a class sums to at most the sum of the input. *)
Lemma class_sum_bound order fb p (d : dict BandType Z) :
  NoDup (keys d) -> (forall v, In v (values d) -> 0 <= v) ->
  let ws := working_set order fb (filter (fun kv => has_prefix p (fst kv)) d) in
  NoDup (keys ws) /\ (forall v, In v (values ws) -> 0 <= v) /\
  0 <= sum (values ws) <= sum (values d).
Proof.
  intros Hnd Hpos ws.
  set (fq := filter (fun kv => has_prefix p (fst kv)) d) in *.
  assert (Hfq : forall v, In v (values fq) -> 0 <= v).
  { intros v Hv. apply Hpos.
    unfold values in *. apply in_map_iff in Hv. destruct Hv as (x & E & Hx).
    apply filter_In in Hx. apply in_map_iff. exists x. tauto. }
  assert (Hndq : NoDup (keys fq)) by (apply filter_keys_NoDup, Hnd).
  assert (Hwp : forall v, In v (values ws) -> 0 <= v) by (apply working_set_nonneg, Hfq).
  split; [apply working_set_NoDup, Hndq|]. split; [exact Hwp|].
  split; [apply sum_nonneg, Hwp|].
  pose proof (@working_set_sum_le order fb fq Hndq Hfq).
  pose proof (@sum_filter_le (fun kv => has_prefix p (fst kv)) d Hpos).
  fold fq in H0. fold ws in H. lia.
Qed.

Lemma random_band_cpu self rng :
  reachable self -> filter is_numa (_bands self) <> [] ->
  exists band,
    _get_random_band self false [] true rng = Ok (band, tl rng) /\
    In band (filter is_numa (_bands self)).
Proof.
  intros Hr Hne.
  pose proof (@device_bands_reachable self false Hr) as Hp. cbn beta iota in Hp.
  unfold _get_random_band, _get_device_bands.
  set (l := dict_get_default string_dec (_device_type_to_bands self) (device_prefix false) []) in *.
  assert (Hl : l <> []).
  { intros E. rewrite E in Hp. apply Permutation_nil in Hp. auto. }
  destruct l as [|x l'] eqn:El; [congruence|]. cbn [null].
  unfold bind at 1. unfold ret. cbn [null negb].
  destruct (random_element_total (l := x :: l') rng) as (band & Hb & Hin); [discriminate|].
  exists band. split; [exact Hb|]. eapply Permutation_in; eauto.
Qed.

Lemma reassign_class_cpu_total order self d m rng :
  reachable self -> NoDup (keys d) -> (forall v, In v (values d) -> 0 <= v) ->
  sum (values d) < 2 ^ 53 ->
  exists m' rng', reassign_class order self d false m rng = Ok (m', rng').
Proof.
  intros Hr Hnd Hpos Hbound. unfold reassign_class.
  set (p := device_prefix false).
  set (fb := filter (has_prefix p) (_bands self)).
  set (fq := filter (fun kv => has_prefix p (fst kv)) d).
  destruct (null fb) eqn:Hfb; [unfold ret; eauto|].
  apply null_false in Hfb.
  destruct (single_used_band fb fq); [unfold ret; eauto|].
  destruct (@class_sum_bound order fb p d Hnd Hpos) as (Hws & Hwp & Hsum).
  fold fq in Hws, Hwp, Hsum.
  set (ws := working_set order fb fq) in *.
  assert (Hlen : (0 < List.length fb)%nat) by (destruct fb; [congruence|simpl; lia]).
  destruct (@floor_mean_le (sum (values ws)) (List.length fb)) as [Hm0 Hm1]; [lia|lia|].
  erewrite bind_Ok_intro by (apply lift_result_intro, mean_of_floor; [exact Hfb|lia]).
  pose proof (@move_nums_total order fb ws _ Hws Hm0 Hm1) as Htot.
  unfold balance.
  set (bmn := move_nums fb ws (sum (values ws) / Z.of_nat (List.length fb))
                (all_bands_of order fb ws)) in *.
  unfold bind at 1.
  destruct (Z.gtb_spec (sum (values bmn)) 0) as [Hgt|_]; [lia|].
  destruct (Z.eqb_spec (sum (values bmn)) 0) as [Hz|Hnz]; cbn [negb].
  - unfold ret. eauto.
  - destruct (@random_band_cpu self rng Hr Hfb) as (band & Hb & Hin).
    unfold bind at 1. rewrite Hb.
    destruct (dict_get band_eq_dec bmn band) as [num|] eqn:E.
    + unfold ret. eauto.
    + exfalso. apply dict_get_None in E. apply E.
      apply move_nums_keys, all_bands_of_In. left. exact Hin.
Qed.

Lemma reassign_class_no_band order self d is_gpu m rng :
  (forall b, In b (_bands self) -> has_prefix (device_prefix is_gpu) b = false) ->
  reassign_class order self d is_gpu m rng = Ok (m, rng).
Proof.
  intros H. unfold reassign_class.
  rewrite filter_none by exact H. reflexivity.
Qed.

(** C9. The map that [reassign_subtasks] returns is ordered by ascending
    move: of any two entries the earlier one has the smaller or equal move,
    so the bands that give subtasks away (negative moves) come before the
    bands that receive subtasks (positive moves). *)
Theorem reassign_subtasks_ascending order self band_to_queued_num rng m rng' :
  reassign_subtasks order self band_to_queued_num rng = Ok (m, rng') ->
  StronglySorted (fun a b => snd a <= snd b) m /\
  forall l1 a l2 b l3,
    m = l1 ++ a :: l2 ++ b :: l3 ->
    snd a <= snd b /\ (snd b < 0 -> snd a < 0) /\ (0 < snd a -> 0 < snd b).
Proof.
  intros H.
  destruct (reassign_subtasks_Ok _ _ _ _ H) as (cpu & gpu & rng1 & _ & _ & -> & _).
  assert (Hs : StronglySorted (fun a b : BandType * Z => snd a <= snd b)
                 (sorted move_leb (cpu ++ gpu))).
  { pose proof (@sorted_strongly _ move_leb move_leb_total move_leb_trans (cpu ++ gpu)) as Hs.
    revert Hs. generalize (sorted move_leb (cpu ++ gpu)). intros l.
    induction 1 as [|x l Hs IH Hall]; constructor; auto.
    eapply Forall_impl; [|exact Hall].
    intros y Hy. apply Z.leb_le. exact Hy. }
  split; [exact Hs|].
  intros l1 a l2 b l3 E. rewrite E in Hs. apply StronglySorted_split in Hs. lia.
Qed.

Lemma reassign_subtasks_ascending_witness :
  StronglySorted (fun a b : BandType * Z => snd a <= snd b)
    [(B1, -6); (B3, 3); (B2, 3)].
Proof.
  apply (proj1 (@reassign_subtasks_ascending insertion_order (_update_bands [B1; B2; B3])
                  [(B1, 9); (B2, 0)] [] _ [] eq_refl)).
Defined.

(** ** Rebalancing: the move of a ready band *)

Lemma empty_of_no_member A (l : list A) : (forall x, ~ In x l) -> l = [].
Proof. destruct l as [|x l]; [reflexivity|]. intros H. exfalso. apply (H x). simpl. auto. Qed.

Lemma working_set_all_ready order fb fq :
  (forall k, In k (keys fq) -> In k fb) -> working_set order fb fq = fq.
Proof.
  intros H. unfold working_set.
  assert (E : unready_bands order fb fq = []).
  { apply empty_of_no_member. intros k Hk. apply unready_bands_In in Hk.
    destruct Hk as [Hk Hn]. auto. }
  rewrite E. cbn [null negb]. rewrite andb_false_r. reflexivity.
Qed.

Lemma single_used_band_cases fb fq band :
  single_used_band fb fq = Some band ->
  exists len, fq = [(band, len)] /\ (len = 0 \/ fb = [band]).
Proof.
  unfold single_used_band. destruct fq as [|[b len] [|? ?]]; try discriminate.
  destruct (Z.eqb_spec len 0).
  - intros H. inversion H; subst. eauto.
  - destruct fb as [|first [|? ?]]; try discriminate.
    destruct (band_eq_dec b first); [|discriminate].
    intros H. inversion H; subst. eauto.
Qed.

Lemma balance_credit self bmn rng d' rng' k :
  balance self bmn rng = Ok (d', rng') ->
  dict_get band_eq_dec d' k = dict_get band_eq_dec bmn k \/
  (sum (values bmn) < 0 /\
   _get_random_band self false [] true rng = Ok (k, rng') /\
   exists num, dict_get band_eq_dec bmn k = Some num /\
               dict_get band_eq_dec d' k = Some (num - sum (values bmn))).
Proof.
  unfold balance. destruct (Z.gtb_spec (sum (values bmn)) 0) as [Hgt|Hle]; [discriminate|].
  destruct (Z.eqb_spec (sum (values bmn)) 0) as [Hz|Hnz]; cbn [negb]; intros H; inv_M.
  - auto.
  - destruct (dict_get band_eq_dec bmn a) as [num|] eqn:E; inv_M.
    rewrite dict_get_set. destruct (band_eq_dec k a) as [->|Hn]; [|auto].
    right. split; [lia|]. split; [exact H0|]. eauto.
Qed.


(** ** Small sets have few iteration orders *)

Lemma set_iter_nil order : set_iter order [] = [].
Proof. apply Permutation_nil. symmetry. apply set_iter_perm. Qed.

Lemma set_iter_one order x : set_iter order [x] = [x].
Proof. apply Permutation_length_1_inv. symmetry. apply set_iter_perm. Qed.

Lemma set_iter_two order x y :
  set_iter order [x; y] = [x; y] \/ set_iter order [x; y] = [y; x].
Proof. apply Permutation_length_2_inv. symmetry. apply set_iter_perm. Qed.

Lemma set_iter_three order x y z :
  let l := set_iter order [x; y; z] in
  l = [x; y; z] \/ l = [x; z; y] \/ l = [y; x; z] \/
  l = [y; z; x] \/ l = [z; x; y] \/ l = [z; y; x].
Proof.
  intros l. pose proof (set_iter_perm order [x; y; z]) as Hp. fold l in Hp.
  clearbody l.
  destruct (Permutation_vs_cons_inv Hp) as (l1 & l2 & ->).
  apply Permutation_sym, Permutation_cons_app_inv in Hp.
  apply Permutation_length_2_inv in Hp.
  destruct l1 as [|a [|b [|c l1]]]; simpl in *.
  - destruct Hp as [->| ->]; auto.
  - destruct l2 as [|b [|c l2]]; destruct Hp as [Hp|Hp]; inversion Hp; subst; auto 7.
  - destruct l2 as [|c l2]; destruct Hp as [Hp|Hp]; inversion Hp; subst; auto 7.
  - destruct Hp as [Hp|Hp]; inversion Hp; destruct l1; discriminate.
Qed.

(** ** Rebalancing on given bands *)

Lemma working_set_new_ready order fb fq k :
  In k fb -> ~ In k (keys fq) -> working_set order fb fq = fq.
Proof.
  intros H1 H2. unfold working_set.
  assert (E : null (new_ready_bands order fb fq) = false).
  { apply null_false. intros E.
    assert (Hk : In k (new_ready_bands order fb fq)) by (apply new_ready_bands_In; auto).
    rewrite E in Hk. exact Hk. }
  rewrite E. reflexivity.
Qed.

Lemma working_set_unready order fb fq :
  (forall k, In k fb -> In k (keys fq)) ->
  unready_bands order fb fq <> [] ->
  working_set order fb fq
  = map (fun k => (k, dict_get_default band_eq_dec fq k 0)) (unready_bands order fb fq).
Proof.
  intros H1 H2. unfold working_set.
  assert (E : new_ready_bands order fb fq = []).
  { apply empty_of_no_member. intros k Hk. apply new_ready_bands_In in Hk.
    destruct Hk as [Hk Hn]. auto. }
  rewrite E. apply null_false in H2. rewrite H2. reflexivity.
Qed.

Lemma reassign_class_eq order self d is_gpu m rng fb fq ws all :
  filter (has_prefix (device_prefix is_gpu)) (_bands self) = fb ->
  filter (fun kv => has_prefix (device_prefix is_gpu) (fst kv)) d = fq ->
  null fb = false ->
  single_used_band fb fq = None ->
  working_set order fb fq = ws ->
  all_bands_of order fb ws = all ->
  reassign_class order self d is_gpu m rng
  = bind (lift_result (mean_of fb ws))
      (fun mean =>
         bind (balance self (move_nums fb ws mean all))
           (fun band_move_nums => ret (dict_update band_eq_dec m band_move_nums))) rng.
Proof.
  intros H1 H2 H3 H4 H5 H6. unfold reassign_class.
  rewrite H1, H2, H3, H4, H5, H6. reflexivity.
Qed.

Lemma all_bands_of_three order fb ws x y z :
  set_union band_eq_dec fb (keys ws) = [x; y; z] ->
  let l := all_bands_of order fb ws in
  l = [x; y; z] \/ l = [x; z; y] \/ l = [y; x; z] \/
  l = [y; z; x] \/ l = [z; x; y] \/ l = [z; y; x].
Proof.
  intros H. unfold all_bands_of. rewrite H. apply set_iter_three.
Qed.

(** ** Random bands *)

(** A random band is a band of the device class; it is outside
    [exclude_bands] unless every band of the class is excluded and
    [random_when_unavailable] is set. *)
Lemma get_random_band_Ok self is_gpu exclude_bands rwu rng band rng' :
  _get_random_band self is_gpu exclude_bands rwu rng = Ok (band, rng') ->
  let device_bands :=
    dict_get_default string_dec (_device_type_to_bands self) (device_prefix is_gpu) [] in
  In band device_bands /\ rng' = tl rng /\
  ((rwu = false \/ exists b, In b device_bands /\ ~ In b exclude_bands) ->
   ~ In band exclude_bands).
Proof.
  unfold _get_random_band. intros H. inv_M.
  apply get_device_bands_Ok in H0. destruct H0 as (-> & Hne & ->).
  set (l := dict_get_default string_dec (_device_type_to_bands self)
              (device_prefix is_gpu) []) in *.
  cbn zeta.
  destruct exclude_bands as [|x ex]; cbn [null negb] in H1.
  { apply random_element_In in H1. destruct H1. repeat split; auto. }
  set (excl := x :: ex) in *.
  destruct (filter (fun b => negb (band_in b excl)) l) as [|y avail] eqn:Ef;
    cbn [null negb] in H1.
  - destruct rwu; cbn [negb] in H1; [|discriminate].
    apply random_element_In in H1. destruct H1 as [Hin ->].
    repeat split; auto.
    intros [Hf|(b & Hb & Hnb)]; [discriminate|].
    assert (Hb' : In b (filter (fun b => negb (band_in b excl)) l)).
    { apply filter_In. split; [exact Hb|]. apply negb_true_iff, band_in_false. exact Hnb. }
    rewrite Ef in Hb'. destruct Hb'.
  - apply random_element_In in H1. destruct H1 as [Hin ->].
    rewrite <- Ef in Hin. apply filter_In in Hin. destruct Hin as [Hin Hex].
    apply negb_true_iff, band_in_false in Hex. repeat split; auto.
Qed.

Lemma random_band_cpu_is_numa self rng band rng' :
  reachable self ->
  _get_random_band self false [] true rng = Ok (band, rng') ->
  In band (_bands self) /\ is_numa band = true.
Proof.
  intros Hr H. apply get_random_band_Ok in H. destruct H as (Hin & _).
  apply (Permutation_in _ (@device_bands_reachable self false Hr)) in Hin.
  apply filter_In in Hin. exact Hin.
Qed.


Section ReadyMove.
Variable order : SetOrder.
Variable self : AssignerActor.
Variable d : dict BandType Z.
Variable is_gpu : bool.

Let p := device_prefix is_gpu.
Let fb := filter (has_prefix p) (_bands self).
Let fq0 := filter (fun kv : BandType * Z => has_prefix p (fst kv)) d.
Let fq := working_set order fb fq0.




End ReadyMove.




(** C8. When a device class has no new-ready band (every ready
    band is in the input) and some input band is unready, the working set
    is the input restricted to the unready bands.  For ready bands {B1, B2}
    and input {B1:4, B3:6} the band B2 is new-ready (ready and absent from
    the input), so the working set is the whole input: the mean is 5 and
    the returned map is {B3:-6, B1:+1, B2:+5}.  With input
    {B1:4, B2:0, B3:6} there is no new-ready band, the working set is
    {B3:6}, the mean is 3 and the returned map is {B3:-6, B1:+3, B2:+3}. *)
Theorem reassign_subtasks_unready :
  (forall order filtered_bands queued,
      (forall k, In k filtered_bands -> In k (keys queued)) ->
      unready_bands order filtered_bands queued <> [] ->
      working_set order filtered_bands queued
      = map (fun k => (k, dict_get_default band_eq_dec queued k 0))
          (unready_bands order filtered_bands queued) /\
      forall k, In k (keys (working_set order filtered_bands queued)) <->
                In k (keys queued) /\ ~ In k filtered_bands) /\
  (forall order rng,
      run (reassign_subtasks order (_update_bands [B1; B2]) [(B1, 4); (B3, 6)]) rng
      = Ok [(B3, -6); (B1, 1); (B2, 5)]) /\
  (forall order rng,
      exists m,
        run (reassign_subtasks order (_update_bands [B1; B2])
               [(B1, 4); (B2, 0); (B3, 6)]) rng = Ok m /\
        dict_get band_eq_dec m B3 = Some (-6) /\
        dict_get band_eq_dec m B1 = Some 3 /\
        dict_get band_eq_dec m B2 = Some 3 /\
        List.length m = 3%nat).
Proof.
  split; [|split].
  - intros order fb fq Hnew Hun.
    rewrite (working_set_unready order fb fq Hnew Hun). split; [reflexivity|].
    intros k. unfold keys at 1. rewrite map_map. cbn [fst]. rewrite map_id.
    apply unready_bands_In.
  - intros order rng.
    set (st := _update_bands [B1; B2]). set (d := [(B1, 4); (B3, 6)]).
    assert (Hws : working_set order [B1; B2] d = d).
    { apply (@working_set_new_ready order [B1; B2] d B2); simpl; [auto|].
      intros H. decompose [or] H; try discriminate; tauto. }
    assert (Hgpu : forall m r, reassign_class order st d true m r = Ok (m, r)).
    { intros m r. apply reassign_class_no_band. simpl.
      intros b H. decompose [or] H; subst; try reflexivity; tauto. }
    assert (Hcpu : forall all, all_bands_of order [B1; B2] d = all ->
              reassign_class order st d false [] rng
              = bind (lift_result (mean_of [B1; B2] d))
                  (fun mean =>
                     bind (balance st (move_nums [B1; B2] d mean all))
                       (fun bmn => ret (dict_update band_eq_dec [] bmn))) rng).
    { intros all Hall. eapply reassign_class_eq; eauto; reflexivity. }
    unfold run, reassign_subtasks. unfold bind at 1 2.
    destruct (@all_bands_of_three order [B1; B2] d B2 B1 B3 eq_refl)
      as [H|[H|[H|[H|[H|H]]]]];
      rewrite (Hcpu _ H); clear Hcpu;
      match goal with
      | |- context [bind ?a ?b rng] =>
          let v := eval vm_compute in (bind a b rng) in
          change (bind a b rng) with v
      end; cbv beta iota; rewrite Hgpu; reflexivity.
  - intros order rng.
    set (st := _update_bands [B1; B2]). set (d := [(B1, 4); (B2, 0); (B3, 6)]).
    assert (Hun : unready_bands order [B1; B2] d = [B3]).
    { unfold unready_bands.
      change (set_difference band_eq_dec (keys d) [B1; B2]) with [B3].
      apply set_iter_one. }
    assert (Hws : working_set order [B1; B2] d = [(B3, 6)]).
    { rewrite working_set_unready.
      - rewrite Hun. reflexivity.
      - simpl. intros k H. decompose [or] H; subst; auto; tauto.
      - rewrite Hun. discriminate. }
    assert (Hgpu : forall m r, reassign_class order st d true m r = Ok (m, r)).
    { intros m r. apply reassign_class_no_band. simpl.
      intros b H. decompose [or] H; subst; try reflexivity; tauto. }
    assert (Hcpu : forall all, all_bands_of order [B1; B2] [(B3, 6)] = all ->
              reassign_class order st d false [] rng
              = bind (lift_result (mean_of [B1; B2] [(B3, 6)]))
                  (fun mean =>
                     bind (balance st (move_nums [B1; B2] [(B3, 6)] mean all))
                       (fun bmn => ret (dict_update band_eq_dec [] bmn))) rng).
    { intros all Hall. eapply reassign_class_eq; eauto; reflexivity. }
    unfold run, reassign_subtasks. unfold bind at 1 2.
    destruct (@all_bands_of_three order [B1; B2] [(B3, 6)] B1 B2 B3 eq_refl)
      as [H|[H|[H|[H|[H|H]]]]];
      rewrite (Hcpu _ H); clear Hcpu;
      match goal with
      | |- context [bind ?a ?b rng] =>
          let v := eval vm_compute in (bind a b rng) in
          change (bind a b rng) with v
      end; cbv beta iota; rewrite Hgpu; cbv beta iota;
      eexists; (split; [reflexivity|]); vm_compute; repeat split; reflexivity.
Qed.

Lemma reassign_subtasks_unready_witness :
  working_set insertion_order [B1; B2] [(B1, 4); (B2, 0); (B3, 6)] = [(B3, 6)].
Proof.
  refine (proj1 (proj1 reassign_subtasks_unready insertion_order [B1; B2]
                   [(B1, 4); (B2, 0); (B3, 6)] _ _)).
  - simpl. intros k H. decompose [or] H; subst; auto; tauto.
  - vm_compute. discriminate.
Defined.

(** Ready bands {B1, B2} and input {B1:4, B3:6}: the working set is not
    {B3} and no band receives 6. *)
Lemma reassign_subtasks_unready_counterexample :
  working_set insertion_order [B1; B2] [(B1, 4); (B3, 6)] = [(B1, 4); (B3, 6)] /\
  run (reassign_subtasks insertion_order (_update_bands [B1; B2]) [(B1, 4); (B3, 6)]) []
  = Ok [(B3, -6); (B1, 1); (B2, 5)].
Proof. split; reflexivity. Qed.

(** ** Rebalancing: the residual of the GPU class *)

Lemma random_cpu_band_B1 rng :
  _get_random_band (_update_bands [GPU0; GPU1; B1]) false [] true rng = Ok (B1, tl rng).
Proof.
  unfold _get_random_band.
  erewrite bind_Ok_intro by reflexivity.
  cbn [null negb]. apply random_element_single.
Qed.

(** Two GPU bands and one CPU band, three subtasks queued on the first GPU
    band: the moves of the GPU class are -2 and +1, and the CPU band picked
    for the residual is not among them. *)
Lemma reassign_gpu_residual order rng :
  run (reassign_subtasks order (_update_bands [GPU0; GPU1; B1]) [(GPU0, 3)]) rng
  = Err KeyError.
Proof.
  set (st := _update_bands [GPU0; GPU1; B1]). set (d := [(GPU0, 3)]).
  assert (Hcpu : reassign_class order st d false [] rng = Ok ([(B1, 0)], rng)).
  { erewrite reassign_class_eq with (fb := [B1]) (fq := []) (ws := []) (all := [B1]);
      try reflexivity.
    - apply working_set_all_ready. simpl. tauto.
    - unfold all_bands_of. apply set_iter_one. }
  assert (Hws : working_set order [GPU0; GPU1] d = d).
  { apply (@working_set_new_ready order [GPU0; GPU1] d GPU1); simpl; [auto|].
    intros H. decompose [or] H; try discriminate; tauto. }
  assert (Hgpu : forall all,
             all = [GPU1; GPU0] \/ all = [GPU0; GPU1] ->
             all_bands_of order [GPU0; GPU1] d = all ->
             reassign_class order st d true [(B1, 0)] rng = Err KeyError).
  { intros all Hcase Hall.
    erewrite reassign_class_eq with (fb := [GPU0; GPU1]) (fq := d) (ws := d) (all := all);
      try reflexivity; try assumption.
    assert (Hmean : mean_of [GPU0; GPU1] d = Ok 1) by (vm_compute; reflexivity).
    erewrite bind_Ok_intro by (apply lift_result_intro; exact Hmean).
    apply bind_Err. unfold balance.
    destruct Hcase as [-> | ->];
      (match goal with
       | |- context [sum ?l] =>
           let v := eval vm_compute in (sum l) in change (sum l) with v
       end);
      cbn [Z.gtb Z.compare Z.eqb negb];
      (erewrite bind_Ok_intro by apply random_cpu_band_B1); reflexivity. }
  unfold run, reassign_subtasks.
  erewrite bind_Ok_intro by exact Hcpu.
  destruct (set_iter_two order GPU1 GPU0) as [H|H];
    (erewrite bind_Err; [reflexivity|]);
    (eapply Hgpu; [|unfold all_bands_of; exact H]); auto.
Qed.

(** Two CPU bands, 2^53 + 3 subtasks queued on the first: the quotient
    (2^53 + 3) / 2 is not a double and rounds up to 2^52 + 2, the moves sum
    to +1 and the assertion fails. *)
Lemma reassign_mean_rounded_up order rng :
  run (reassign_subtasks order (_update_bands [B1; B2]) [(B1, 2 ^ 53 + 3); (B2, 0)]) rng
  = Err AssertionError.
Proof.
  set (st := _update_bands [B1; B2]). set (d := [(B1, 2 ^ 53 + 3); (B2, 0)]).
  assert (Hws : working_set order [B1; B2] d = d).
  { apply working_set_all_ready. simpl. intros k H. decompose [or] H; subst; auto; tauto. }
  assert (Hmean : mean_of [B1; B2] d = Ok (2 ^ 52 + 2)) by (vm_compute; reflexivity).
  assert (Hcpu : forall all,
             all = [B1; B2] \/ all = [B2; B1] ->
             all_bands_of order [B1; B2] d = all ->
             reassign_class order st d false [] rng = Err AssertionError).
  { intros all Hcase Hall.
    erewrite reassign_class_eq with (fb := [B1; B2]) (fq := d) (ws := d) (all := all);
      try reflexivity; try assumption.
    erewrite bind_Ok_intro by (apply lift_result_intro; exact Hmean).
    apply bind_Err. unfold balance.
    destruct Hcase as [-> | ->];
      (match goal with
       | |- context [sum ?l] =>
           let v := eval vm_compute in (sum l) in change (sum l) with v
       end); reflexivity. }
  unfold run, reassign_subtasks.
  destruct (set_iter_two order B1 B2) as [H|H];
    (erewrite bind_Err; [reflexivity|]);
    (eapply Hcpu; [|unfold all_bands_of; exact H]); auto.
Qed.

(** C1. Every map that [reassign_subtasks] returns has values that sum to
    zero, for every input map, band list, iteration order and random
    outcome.  With non-negative queue lengths that sum to less than 2^53
    and no band of the GPU class a map is returned, a negative residual of
    the rounded-down mean being credited to one CPU band.  The residual of
    the GPU class is not credited: the CPU band picked for it is not among
    the moves of that class, and with two GPU bands, one CPU band and three
    subtasks queued on one GPU band the call raises [KeyError] instead of
    returning a map.  Beyond 2^53 the mean can be rounded up: with two CPU
    bands and 2^53 + 3 subtasks queued on one of them the assertion on the
    total fails and no map is returned either. *)
Theorem reassign_subtasks_sum_zero :
  (forall order self band_to_queued_num rng m rng',
      reassign_subtasks order self band_to_queued_num rng = Ok (m, rng') ->
      sum (values m) = 0) /\
  (forall order self band_to_queued_num rng,
      reachable self ->
      NoDup (keys band_to_queued_num) ->
      (forall v, In v (values band_to_queued_num) -> 0 <= v) ->
      sum (values band_to_queued_num) < 2 ^ 53 ->
      (forall b, In b (_bands self) -> has_prefix "gpu" b = false) ->
      exists m rng',
        reassign_subtasks order self band_to_queued_num rng = Ok (m, rng') /\
        sum (values m) = 0) /\
  (forall order rng,
      run (reassign_subtasks order (_update_bands [GPU0; GPU1; B1]) [(GPU0, 3)]) rng
      = Err KeyError) /\
  (forall order rng,
      run (reassign_subtasks order (_update_bands [B1; B2])
             [(B1, 2 ^ 53 + 3); (B2, 0)]) rng
      = Err AssertionError).
Proof.
  split; [|split; [|split]].
  - intros order self d rng m rng'. apply reassign_subtasks_sum.
  - intros order self d rng Hr Hnd Hpos Hbound Hgpu.
    destruct (@reassign_class_cpu_total order self d [] rng Hr Hnd Hpos Hbound)
      as (cpu & rng1 & Hcpu).
    assert (E : reassign_subtasks order self d rng
                = Ok (dict_of_items band_eq_dec (sorted move_leb cpu), rng1)).
    { unfold reassign_subtasks. erewrite bind_Ok_intro by exact Hcpu.
      erewrite bind_Ok_intro by (apply reassign_class_no_band; exact Hgpu).
      reflexivity. }
    eexists. eexists. split; [exact E|]. eapply reassign_subtasks_sum. exact E.
  - exact reassign_gpu_residual.
  - exact reassign_mean_rounded_up.
Qed.

Lemma reassign_subtasks_sum_zero_witness :
  exists m rng',
    reassign_subtasks insertion_order (_update_bands [B1; B2]) [(B1, 7); (B2, 0)] [1%nat]
    = Ok (m, rng') /\ sum (values m) = 0.
Proof.
  apply (proj1 (proj2 reassign_subtasks_sum_zero) insertion_order (_update_bands [B1; B2])
           [(B1, 7); (B2, 0)] [1%nat]).
  - apply (reachable_watch [B1; B2] reachable_init).
  - simpl. repeat constructor; simpl; intros H; decompose [or] H; try discriminate; auto.
  - simpl. intros v H. decompose [or] H; subst; try lia; tauto.
  - vm_compute. reflexivity.
  - simpl. intros b H. decompose [or] H; subst; try reflexivity; tauto.
Defined.

(** ** Assignment: the second loop *)

Section AssignFacts.
Variable self : AssignerActor.
Variable get_chunk_meta : string -> option ChunkMeta.
Variable exclude_bands : list BandType.
Variable random_when_unavailable : bool.

Local Abbreviation check := (check_band exclude_bands random_when_unavailable).
Local Abbreviation candidate := (candidate_bands self exclude_bands random_when_unavailable).
Local Abbreviation assign1 := (assign_subtask self exclude_bands random_when_unavailable).

Lemma check_band_Ok subtask band rng band' rng' :
  check subtask band rng = Ok (band', rng') ->
  band' = band /\ rng' = rng /\
  (random_when_unavailable = false -> ~ In band exclude_bands) /\
  (bands_specified subtask = true ->
   exists l, expect_bands subtask = Some l /\ In band l).
Proof.
  unfold check_band.
  destruct (negb random_when_unavailable && band_in band exclude_bands) eqn:E1;
    [discriminate|].
  assert (Hex : random_when_unavailable = false -> ~ In band exclude_bands).
  { intros ->. simpl in E1. apply band_in_false. exact E1. }
  destruct (bands_specified subtask).
  - destruct (expect_bands subtask) as [l|]; [|discriminate].
    destruct (band_in band l) eqn:E2; cbn [negb]; intros H; inv_M.
    apply band_in_true in E2. repeat split; eauto.
  - intros H. inv_M. repeat split; auto. discriminate.
Qed.


Lemma candidate_bands_Ok g inp_metas subtask rng l rng' :
  candidate g inp_metas subtask rng = Ok (l, rng') ->
  device_bands self subtask <> [] /\
  match dict_get string_dec (selected_bands g) (subtask_id subtask) with
  | Some l' => l = l' /\ rng' = rng
  | None =>
      exists band_sizes,
        accumulate_sizes self exclude_bands random_when_unavailable
          (subtask_is_gpu subtask) (device_bands self subtask) inp_metas
          (iter_indep (chunk_graph subtask)) [] rng = Ok (band_sizes, rng') /\
        l = max_size_bands band_sizes [] (-1)
  end.
Proof.
  unfold candidate_bands. intros H. inv_M.
  apply get_device_bands_Ok in H0. destruct H0 as (-> & Hne & ->).
  split; [exact Hne|].
  destruct (dict_get string_dec (selected_bands g) (subtask_id subtask)); inv_M; eauto.
Qed.

Lemma assign_subtask_Ok g inp_metas subtask rng band rng' :
  assign1 g inp_metas subtask rng = Ok (band, rng') ->
  exists l rng1,
    candidate g inp_metas subtask rng = Ok (l, rng1) /\
    random_element l rng1 = Ok (band, rng') /\
    In band l /\
    check subtask band rng' = Ok (band, rng').
Proof.
  unfold assign_subtask. intros H. inv_M.
  pose proof (random_element_In _ _ H) as [Hin _].
  pose proof (check_band_Ok _ _ _ H2) as (-> & -> & _).
  eauto 10.
Qed.

Lemma assign_each_Ok g inp_metas subtasks rng assigns rng' :
  assign_each self exclude_bands random_when_unavailable
    g inp_metas subtasks rng = Ok (assigns, rng') ->
  Forall2 (fun subtask band =>
             exists r r', assign1 g inp_metas subtask r = Ok (band, r'))
          subtasks assigns.
Proof.
  revert rng assigns. induction subtasks as [|s rest IH]; intros rng assigns; simpl; intros H.
  - inv_M. constructor.
  - inv_M. constructor; eauto.
Qed.

Lemma assign_with_bands_Ok subtasks rng assigns rng' :
  assign_with_bands self get_chunk_meta exclude_bands random_when_unavailable
    subtasks rng = Ok (assigns, rng') ->
  exists g metas0 inp_metas r1 r2 r3,
    gather_subtasks self exclude_bands random_when_unavailable subtasks no_keys rng
    = Ok (g, r1) /\
    fetch_metas get_chunk_meta (inp_keys g) r1 = Ok (metas0, r2) /\
    zero_broadcasters (broadcaster_keys g) metas0 r2 = Ok (inp_metas, r3) /\
    assign_each self exclude_bands random_when_unavailable
      g inp_metas subtasks r3 = Ok (assigns, rng').
Proof.
  unfold assign_with_bands. intros H. inv_M. eauto 12.
Qed.
End AssignFacts.

(** ** Assignment: the first loop *)

Lemma set_add_key_In k k' s : In k' (set_add_key k s) <-> k' = k \/ In k' s.
Proof.
  unfold set_add_key. destruct (mem string_dec k s) eqn:E.
  - apply mem_true in E. split; [auto|]. intros [->|H]; auto.
  - rewrite in_app_iff. simpl. split; [intros [H|[H|[]]]; auto | intros [H|H]; auto].
Qed.

Section GatherFacts.
Variable self : AssignerActor.
Variable exclude_bands : list BandType.
Variable random_when_unavailable : bool.

Local Abbreviation pick := (random_pick self exclude_bands random_when_unavailable).

Lemma grows_refl g : grows g g.
Proof. unfold grows. repeat split; auto using incl_refl. Qed.

Lemma grows_trans g1 g2 g3 : grows g1 g2 -> grows g2 g3 -> grows g1 g3.
Proof.
  unfold grows. intros (A1 & B1 & C1) (A2 & B2 & C2).
  repeat split; eauto using incl_tran.
Qed.

Lemma grows_add_input c g : grows g (add_input c g).
Proof.
  unfold grows, add_input. cbn. repeat split.
  - intros k Hk. apply set_add_key_In. auto.
  - destruct (is_broadcaster c); [|apply incl_refl].
    intros k Hk. apply set_add_key_In. auto.
  - intros H k Hk. apply set_add_key_In.
    destruct (is_broadcaster c); [apply set_add_key_In in Hk; destruct Hk|]; auto.
Qed.

Lemma grows_select subtask l g : grows g (select subtask l g).
Proof. unfold grows, select. cbn. repeat split; auto using incl_refl. Qed.

Lemma gather_inputs_Ok subtask chunks g rng g' rng' :
  gather_inputs self exclude_bands random_when_unavailable subtask chunks g rng
  = Ok (g', rng') ->
  grows g g' /\
  if existsb is_shuffle chunks then
    exists band,
      _get_random_band self (subtask_is_gpu subtask) exclude_bands
        random_when_unavailable rng = Ok (band, rng') /\
      selected_bands g'
      = dict_set string_dec (selected_bands g) (subtask_id subtask) [band]
  else
    rng' = rng /\ selected_bands g' = selected_bands g /\
    forall c, In c chunks -> kind (op c) = Fetch ->
              In (key c) (inp_keys g') /\
              (is_broadcaster c = true -> In (key c) (broadcaster_keys g')).
Proof.
  revert g. induction chunks as [|c rest IH]; intros g; cbn [gather_inputs existsb].
  - intros H. inv_M. split; [apply grows_refl|]. repeat split; auto; contradiction.
  - unfold is_shuffle at 1. destruct (kind (op c)) eqn:Ek; cbn [orb].
    + intros H. apply IH in H. destruct H as (Hg & H).
      split; [eapply grows_trans; [apply grows_add_input|exact Hg]|].
      destruct (existsb is_shuffle rest); [exact H|].
      destruct H as (-> & Hs & Hk). split; [reflexivity|]. split; [exact Hs|].
      intros c' [<-|Hc'] Hf; [|auto].
      destruct Hg as (Hi & Hb & _). split.
      * apply Hi. unfold add_input. cbn. apply set_add_key_In. auto.
      * intros Hbc. apply Hb. unfold add_input. cbn. rewrite Hbc.
        apply set_add_key_In. auto.
    + intros H. inv_M. split; [apply grows_select|]. exists a. auto.
    + intros H. apply IH in H. destruct H as (Hg & H). split; [exact Hg|].
      destruct (existsb is_shuffle rest); [exact H|].
      destruct H as (-> & Hs & Hk). split; [reflexivity|]. split; [exact Hs|].
      intros c' [<-|Hc'] Hf; [congruence|auto].
Qed.

Lemma gather_subtask_Ok g subtask rng g' rng' :
  gather_subtask self exclude_bands random_when_unavailable g subtask rng
  = Ok (g', rng') ->
  grows g g' /\
  if preselected subtask then
    exists l,
      preselection self exclude_bands random_when_unavailable subtask l /\
      selected_bands g' = dict_set string_dec (selected_bands g) (subtask_id subtask) l
  else
    rng' = rng /\ selected_bands g' = selected_bands g /\ inputs_gathered subtask g'.
Proof.
  unfold gather_subtask, preselected, preselection.
  fold (expect_available self exclude_bands subtask).
  destruct (null (expect_bands_list subtask)) eqn:En; cbn [negb orb andb].
  - intros H. apply gather_inputs_Ok in H. destruct H as (Hg & H).
    split; [exact Hg|]. unfold has_shuffle. fold is_shuffle.
    destruct (existsb is_shuffle (iter_indep (chunk_graph subtask))).
    + destruct H as (band & Hb & Hs). exists [band]. split; [|exact Hs].
      exists band. split; [reflexivity|]. unfold random_pick. eauto.
    + exact H.
  - destruct (null (expect_available self exclude_bands subtask)) eqn:Ea; cbn [negb];
      intros H; inv_M; (split; [apply grows_select|]).
    + exists [a]. split; [|reflexivity]. exists a. split; [reflexivity|].
      unfold random_pick. eauto.
    + eexists. split; reflexivity.
Qed.

Lemma gather_subtasks_Ok subtasks g rng g' rng' :
  gather_subtasks self exclude_bands random_when_unavailable subtasks g rng
  = Ok (g', rng') ->
  grows g g' /\
  (forall id, ~ In id (map subtask_id subtasks) ->
              dict_get string_dec (selected_bands g') id
              = dict_get string_dec (selected_bands g) id) /\
  (forall subtask, In subtask subtasks -> preselected subtask = false ->
                   inputs_gathered subtask g') /\
  (NoDup (map subtask_id subtasks) ->
   forall subtask, In subtask subtasks ->
     if preselected subtask then
       exists l,
         preselection self exclude_bands random_when_unavailable subtask l /\
         dict_get string_dec (selected_bands g') (subtask_id subtask) = Some l
     else
       dict_get string_dec (selected_bands g') (subtask_id subtask)
       = dict_get string_dec (selected_bands g) (subtask_id subtask)).
Proof.
  revert g rng. induction subtasks as [|s rest IH]; intros g rng; cbn [gather_subtasks].
  - intros H. inv_M. split; [apply grows_refl|]. repeat split; auto; contradiction.
  - intros H. inv_M. rename a into g1.
    apply gather_subtask_Ok in H0. destruct H0 as (Hg1 & Hs).
    apply IH in H1. destruct H1 as (Hg2 & Hother & Hin & Hsel).
    assert (Hstep : forall id, id <> subtask_id s ->
              dict_get string_dec (selected_bands g1) id
              = dict_get string_dec (selected_bands g) id).
    { intros id Hid. destruct (preselected s).
      - destruct Hs as (l & _ & ->). rewrite dict_get_set.
        destruct (string_dec id (subtask_id s)); [contradiction|reflexivity].
      - destruct Hs as (_ & -> & _). reflexivity. }
    split; [eapply grows_trans; eauto|]. split; [|split].
    + intros id Hid. cbn [map] in Hid.
      rewrite Hother by (intros X; apply Hid; simpl; auto).
      apply Hstep. intros ->. apply Hid. simpl. auto.
    + intros s' [<-|Hs'] Hp; [|auto].
      rewrite Hp in Hs. destruct Hs as (_ & _ & Hk).
      intros c Hc Hf. destruct (Hk c Hc Hf) as [H1 H2].
      destruct Hg2 as (Hi & Hb & _). split; auto.
    + cbn [map]. intros Hnd s' Hs'. inversion Hnd as [|? ? Hnot Hnd']; subst.
      destruct Hs' as [<-|Hs'].
      * rewrite Hother by exact Hnot.
        destruct (preselected s).
        -- destruct Hs as (l & Hl & ->). exists l. split; [exact Hl|].
           rewrite dict_get_set. destruct (string_dec (subtask_id s) (subtask_id s));
             [reflexivity|congruence].
        -- destruct Hs as (_ & -> & _). reflexivity.
      * specialize (Hsel Hnd' s' Hs').
        assert (Hne : subtask_id s' <> subtask_id s).
        { intros E. apply Hnot. rewrite <- E. apply in_map. exact Hs'. }
        destruct (preselected s'); [exact Hsel|].
        rewrite Hsel. apply Hstep. exact Hne.
Qed.
End GatherFacts.

(** ** Assignment: subtasks with specified bands *)

Lemma Forall2_weaken A B (P Q : A -> B -> Prop) l l' :
  (forall a b, In a l -> P a b -> Q a b) -> Forall2 P l l' -> Forall2 Q l l'.
Proof.
  intros H F. induction F as [|a b l l' Hab F IH]; constructor.
  - apply H; simpl; auto.
  - apply IH. intros a' b' Ha'. apply H. simpl. auto.
Qed.





(** One CPU band B1 that is excluded and expected: no expected band is in
    the band list and outside [exclude_bands], and with the default
    [random_when_unavailable] the call returns B1 instead of raising
    [NoAvailableBand].  With a GPU band only, the call for a CPU subtask
    raises [NoMatchingSlots], not [NoAvailableBand]. *)
Lemma assign_subtasks_bands_specified_counterexample :
  expect_available (_update_bands [B1]) [B1] (subtask_on [] [B1]) = [] /\
  (forall rng,
      run (assign_subtasks (_update_bands [B1]) [] (metas_of [])
             [subtask_on [] [B1]] [B1] true) rng = Ok [B1]) /\
  expect_available (_update_bands [GPU0]) [] (subtask_on [] [B3]) = [] /\
  (forall rng,
      run (assign_subtasks (_update_bands [GPU0]) [] (metas_of [])
             [subtask_on [] [B3]] [] true) rng = Err (NoMatchingSlots "cpu")).
Proof.
  split; [reflexivity|]. split; [intros rng; reflexivity|].
  split; [reflexivity|]. intros rng. reflexivity.
Qed.

(** ** Assignment: device classes and excluded bands *)

Lemma get_device_bands_none self is_gpu rng :
  dict_get_default string_dec (_device_type_to_bands self) (device_prefix is_gpu) [] = [] ->
  _get_device_bands self is_gpu rng
  = Err (NoMatchingSlots (if is_gpu then "gpu" else "cpu")).
Proof. intros H. unfold _get_device_bands. cbv zeta. rewrite H. reflexivity. Qed.

Lemma get_random_band_none self is_gpu exclude_bands rwu rng :
  dict_get_default string_dec (_device_type_to_bands self) (device_prefix is_gpu) [] = [] ->
  _get_random_band self is_gpu exclude_bands rwu rng
  = Err (NoMatchingSlots (if is_gpu then "gpu" else "cpu")).
Proof.
  intros H. unfold _get_random_band. apply bind_Err. apply get_device_bands_none. exact H.
Qed.


Lemma fetch_metas_total get_chunk_meta ks rng :
  (forall k, In k ks -> get_chunk_meta k <> None) ->
  exists metas, fetch_metas get_chunk_meta ks rng = Ok (metas, rng) /\ keys metas = ks.
Proof.
  induction ks as [|k ks IH]; intros H; cbn [fetch_metas].
  - exists []. split; reflexivity.
  - destruct (get_chunk_meta k) as [meta|] eqn:E; [|exfalso; apply (H k); simpl; auto].
    destruct IH as (metas & Hm & Hk); [intros k' Hk'; apply H; simpl; auto|].
    exists ((k, meta) :: metas). split.
    + unfold bind at 1. cbn [lift_option]. unfold ret at 1.
      erewrite bind_Ok_intro by exact Hm. reflexivity.
    + simpl. congruence.
Qed.

Lemma zero_broadcasters_total ks (metas : dict string ChunkMeta) rng :
  incl ks (keys metas) ->
  exists metas', zero_broadcasters ks metas rng = Ok (metas', rng) /\
                 keys metas' = keys metas.
Proof.
  revert metas. induction ks as [|k ks IH]; intros metas H; cbn [zero_broadcasters].
  - exists metas. split; reflexivity.
  - destruct (dict_get_key string_dec metas k) as (meta & E); [apply H; simpl; auto|].
    rewrite E. unfold bind at 1. cbn [lift_option]. unfold ret at 1.
    assert (Hk : keys (dict_set string_dec metas k {| store_size := 0; bands := bands meta |})
                 = keys metas).
    { apply keys_dict_set_old. eapply dict_get_Some_key; eauto. }
    destruct (IH (dict_set string_dec metas k {| store_size := 0; bands := bands meta |}))
      as (metas' & Hz & Hk').
    { rewrite Hk. intros k' Hk'. apply H. simpl. auto. }
    exists metas'. split; [exact Hz|congruence].
Qed.

Lemma gather_inputs_keys self exclude_bands rwu subtask chunks g rng g' rng' :
  gather_inputs self exclude_bands rwu subtask chunks g rng = Ok (g', rng') ->
  forall k, In k (inp_keys g') ->
            In k (inp_keys g) \/ exists c, In c chunks /\ kind (op c) = Fetch /\ key c = k.
Proof.
  revert g. induction chunks as [|c rest IH]; intros g; cbn [gather_inputs]; intros H k Hk.
  - inv_M. auto.
  - destruct (kind (op c)) eqn:Ek.
    + destruct (IH _ H k Hk) as [Hin|(c' & Hc' & Hf & E)].
      * unfold add_input in Hin. cbn in Hin. apply set_add_key_In in Hin.
        destruct Hin as [->|Hin]; [|auto]. right. exists c. simpl. auto.
      * right. exists c'. simpl. auto.
    + inv_M. left. exact Hk.
    + destruct (IH _ H k Hk) as [Hin|(c' & Hc' & Hf & E)]; [auto|].
      right. exists c'. simpl. auto.
Qed.









(** ** Assignment: shuffle inputs *)

Lemma candidates_In self exclude_bands subtask band :
  In band (candidates self exclude_bands subtask) <->
  In band (device_bands self subtask) /\ ~ In band exclude_bands.
Proof.
  unfold candidates. rewrite filter_In, negb_true_iff, band_in_false. tauto.
Qed.

Lemma random_pick_candidate self exclude_bands rwu subtask band :
  random_pick self exclude_bands rwu subtask band ->
  In band (device_bands self subtask) /\
  ((rwu = false \/ candidates self exclude_bands subtask <> []) ->
   In band (candidates self exclude_bands subtask)).
Proof.
  intros (r & r' & H). apply get_random_band_Ok in H. destruct H as (Hin & _ & Hex).
  split; [exact Hin|]. intros Hc. apply candidates_In. split; [exact Hin|].
  apply Hex. destruct Hc as [Hc|Hc]; [auto|]. right.
  destruct (candidates self exclude_bands subtask) as [|b l] eqn:E; [congruence|].
  exists b. apply candidates_In. rewrite E. simpl. auto.
Qed.

(** The band of a preselected subtask is one of the bands that the first
    loop selected for it. *)
Lemma assign_preselected self get_chunk_meta exclude_bands rwu subtasks rng assigns rng' :
  NoDup (map subtask_id subtasks) ->
  assign_with_bands self get_chunk_meta exclude_bands rwu subtasks rng
  = Ok (assigns, rng') ->
  Forall2 (fun subtask band =>
             preselected subtask = true ->
             exists l, preselection self exclude_bands rwu subtask l /\ In band l)
          subtasks assigns.
Proof.
  intros Hnd H. apply assign_with_bands_Ok in H.
  destruct H as (g & metas0 & metas & r1 & r2 & r3 & Hg & _ & _ & H).
  apply gather_subtasks_Ok in Hg. destruct Hg as (_ & _ & _ & Hsel).
  apply assign_each_Ok in H. eapply Forall2_weaken; [|exact H].
  intros s b Hs (r & r' & Ha) Hp.
  specialize (Hsel Hnd s Hs). rewrite Hp in Hsel. destruct Hsel as (l & Hl & Hget).
  apply assign_subtask_Ok in Ha. destruct Ha as (l' & rr & Hc & _ & Hin & _).
  apply candidate_bands_Ok in Hc. destruct Hc as (_ & Hc). rewrite Hget in Hc.
  destruct Hc as [-> _]. eauto.
Qed.

(** C7. A subtask without [expect_bands] that has a
    [FetchShuffle] source gets a band that [_get_random_band] picks,
    whatever the metadata of its inputs: the band is a band of the required
    device class, and it is in the candidate set (outside [exclude_bands])
    whenever the candidate set is not empty or [random_when_unavailable] is
    false.  For a single subtask the band is the pick on the incoming
    random stream. *)
Theorem assign_subtasks_shuffle :
  (forall self cluster_bands get_chunk_meta subtasks exclude_bands
          random_when_unavailable rng assigns rng',
      NoDup (map subtask_id subtasks) ->
      assign_subtasks self cluster_bands get_chunk_meta subtasks exclude_bands
        random_when_unavailable rng = Ok (assigns, rng') ->
      let self' := ensure_bands self cluster_bands in
      Forall2 (fun subtask band =>
                 expect_bands_list subtask = [] ->
                 has_shuffle subtask = true ->
                 random_pick self' exclude_bands random_when_unavailable subtask band /\
                 In band (device_bands self' subtask) /\
                 ((random_when_unavailable = false \/
                   candidates self' exclude_bands subtask <> []) ->
                  In band (candidates self' exclude_bands subtask)))
              subtasks assigns) /\
  (forall self cluster_bands get_chunk_meta subtask exclude_bands
          random_when_unavailable rng assigns rng',
      expect_bands_list subtask = [] ->
      has_shuffle subtask = true ->
      assign_subtasks self cluster_bands get_chunk_meta [subtask] exclude_bands
        random_when_unavailable rng = Ok (assigns, rng') ->
      exists band,
        assigns = [band] /\
        _get_random_band (ensure_bands self cluster_bands) (subtask_is_gpu subtask)
          exclude_bands random_when_unavailable rng = Ok (band, tl rng)).
Proof.
  split.
  - intros self cluster get_meta subtasks excl rwu rng assigns rng' Hnd H.
    cbv zeta. unfold assign_subtasks in H.
    pose proof (assign_preselected _ _ _ _ _ _ Hnd H) as F.
    eapply Forall2_weaken; [|exact F].
    intros s b _ Hsel He Hsh.
    destruct Hsel as (l & Hl & Hin).
    { unfold preselected. rewrite Hsh. apply orb_true_r. }
    unfold preselection in Hl. rewrite He in Hl. cbn in Hl.
    destruct Hl as (band & -> & Hp). destruct Hin as [<-|[]].
    split; [exact Hp|]. apply random_pick_candidate. exact Hp.
  - intros self cluster get_meta s excl rwu rng assigns rng' He Hsh H.
    unfold assign_subtasks in H. set (st := ensure_bands self cluster) in *.
    apply assign_with_bands_Ok in H.
    destruct H as (g & metas0 & metas & r1 & r2 & r3 & Hg & _ & _ & H).
    cbn [gather_subtasks] in Hg. inv_M.
    unfold gather_subtask in H0. rewrite He in H0. cbn [null negb] in H0.
    apply gather_inputs_Ok in H0. destruct H0 as (_ & H0).
    unfold has_shuffle in Hsh. rewrite Hsh in H0. destruct H0 as (band & Hb & Hs).
    cbn [assign_each] in H. inv_M.
    apply assign_subtask_Ok in H0. destruct H0 as (l & rr & Hc & _ & Hin & _).
    apply candidate_bands_Ok in Hc. destruct Hc as (_ & Hc).
    rewrite Hs in Hc. cbn in Hc.
    destruct (string_dec (subtask_id s) (subtask_id s)); [|congruence].
    destruct Hc as [-> _]. destruct Hin as [<-|[]].
    exists band. split; [reflexivity|].
    pose proof (get_random_band_Ok _ _ _ _ _ Hb) as (_ & E & _). rewrite <- E. exact Hb.
Qed.

Lemma assign_subtasks_shuffle_witness :
  exists band,
    [B2] = [band] /\
    _get_random_band (ensure_bands (_update_bands [B1; B2]) [])
      (subtask_is_gpu (subtask_of [fetch_chunk "k1" false; shuffle_chunk "k2"]))
      [B1] true [5%nat] = Ok (band, tl [5%nat]).
Proof.
  apply (proj2 assign_subtasks_shuffle (_update_bands [B1; B2]) []
           (metas_of [("k1", {| store_size := 100; bands := [B1] |})])
           (subtask_of [fetch_chunk "k1" false; shuffle_chunk "k2"])
           [B1] true [5%nat] [B2] []).
  - reflexivity.
  - reflexivity.
  - reflexivity.
Defined.

(** Every band of the class is excluded: the candidate set is empty and the
    band that is returned is excluded. *)
Lemma assign_subtasks_shuffle_counterexample :
  candidates (_update_bands [B1; B2]) [B1; B2] (subtask_of [shuffle_chunk "k"]) = [] /\
  run (assign_subtasks (_update_bands [B1; B2]) [] (metas_of [])
         [subtask_of [shuffle_chunk "k"]] [B1; B2] true) [1%nat]
  = Ok [B2].
Proof. split; reflexivity. Qed.

(** ** Assignment: the metadata that is read *)

Lemma fetch_metas_get get_chunk_meta ks rng metas rng' :
  fetch_metas get_chunk_meta ks rng = Ok (metas, rng') ->
  forall k, dict_get string_dec metas k
            = if mem string_dec k ks then get_chunk_meta k else None.
Proof.
  revert metas rng. induction ks as [|k0 ks IH]; intros metas rng; cbn [fetch_metas];
    intros H k.
  - inv_M. reflexivity.
  - inv_M. destruct (get_chunk_meta k0) as [meta|] eqn:E; cbn [lift_option] in H0; inv_M.
    cbn [dict_get]. specialize (IH _ _ H k). rewrite IH.
    destruct (string_dec k k0) as [->|Hn].
    + assert (Hm : mem string_dec k0 (k0 :: ks) = true) by (apply mem_true; simpl; auto).
      rewrite Hm. auto.
    + destruct (mem string_dec k ks) eqn:Em.
      * assert (Hm : mem string_dec k (k0 :: ks) = true).
        { apply mem_true. apply mem_true in Em. simpl. auto. }
        rewrite Hm. reflexivity.
      * assert (Hm : mem string_dec k (k0 :: ks) = false).
        { apply mem_false. apply mem_false in Em. simpl. intros [X|X]; auto. }
        rewrite Hm. reflexivity.
Qed.

Lemma zero_broadcasters_get ks (metas : dict string ChunkMeta) rng metas' rng' :
  zero_broadcasters ks metas rng = Ok (metas', rng') ->
  forall k, dict_get string_dec metas' k
            = option_map (fun meta => if mem string_dec k ks then zeroed meta else meta)
                (dict_get string_dec metas k).
Proof.
  revert metas rng. induction ks as [|k0 ks IH]; intros metas rng; cbn [zero_broadcasters];
    intros H k.
  - inv_M. cbn. destruct (dict_get string_dec metas' k); reflexivity.
  - inv_M. destruct (dict_get string_dec metas k0) as [meta0|] eqn:E;
      cbn [lift_option] in H0; inv_M.
    rewrite (IH _ _ H1 k), dict_get_set.
    destruct (string_dec k k0) as [->|Hn].
    + assert (Hm : mem string_dec k0 (k0 :: ks) = true) by (apply mem_true; simpl; auto).
      rewrite Hm, E. cbn. destruct (mem string_dec k0 ks); reflexivity.
    + destruct (mem string_dec k ks) eqn:Em.
      * assert (Hm : mem string_dec k (k0 :: ks) = true).
        { apply mem_true. apply mem_true in Em. simpl. auto. }
        rewrite Hm. reflexivity.
      * assert (Hm : mem string_dec k (k0 :: ks) = false).
        { apply mem_false. apply mem_false in Em. simpl. intros [X|X]; auto. }
        rewrite Hm. reflexivity.
Qed.

(** A subtask that is not preselected is assigned one of the bands of
    maximum accumulated size, with the sizes of [metas_read]. *)
Lemma assign_by_locality self get_chunk_meta exclude_bands rwu subtasks rng assigns rng' :
  NoDup (map subtask_id subtasks) ->
  assign_with_bands self get_chunk_meta exclude_bands rwu subtasks rng
  = Ok (assigns, rng') ->
  exists g inp_metas,
    (forall k, dict_get string_dec inp_metas k = metas_read get_chunk_meta g k) /\
    (forall subtask, In subtask subtasks -> preselected subtask = false ->
                     inputs_gathered subtask g) /\
    Forall2 (fun subtask band =>
               preselected subtask = false ->
               exists band_sizes r r',
                 accumulate_sizes self exclude_bands rwu (subtask_is_gpu subtask)
                   (device_bands self subtask) inp_metas
                   (iter_indep (chunk_graph subtask)) [] r = Ok (band_sizes, r') /\
                 In band (max_size_bands band_sizes [] (-1)))
            subtasks assigns.
Proof.
  intros Hnd H. apply assign_with_bands_Ok in H.
  destruct H as (g & metas0 & metas & r1 & r2 & r3 & Hg & Hf & Hz & H).
  apply gather_subtasks_Ok in Hg. destruct Hg as (_ & _ & Hkeys & Hsel).
  exists g, metas. split; [|split].
  - intros k. rewrite (zero_broadcasters_get _ _ _ Hz k), (fetch_metas_get _ _ _ Hf k).
    unfold metas_read. destruct (mem string_dec k (inp_keys g)); reflexivity.
  - exact Hkeys.
  - apply assign_each_Ok in H. eapply Forall2_weaken; [|exact H].
    intros s b Hs (r & r' & Ha) Hp.
    specialize (Hsel Hnd s Hs). rewrite Hp in Hsel. cbn in Hsel.
    apply assign_subtask_Ok in Ha. destruct Ha as (l & rr & Hc & _ & Hin & _).
    apply candidate_bands_Ok in Hc. destruct Hc as (_ & Hc). rewrite Hsel in Hc.
    destruct Hc as (bs & Hacc & ->). eauto.
Qed.

Lemma preselected_false subtask : preselected subtask = false <-> by_locality subtask.
Proof.
  unfold preselected, by_locality. rewrite orb_false_iff, negb_false_iff, null_true. tauto.
Qed.

(** ** Assignment: the bands of maximum size *)

Lemma max_size_bands_In items bands0 max0 band :
  In band (max_size_bands items bands0 max0) ->
  (In band bands0 /\ forall b s, In (b, s) items -> s <= max0) \/
  (exists size, In (band, size) items /\ max0 <= size /\
                forall b s, In (b, s) items -> s <= size).
Proof.
  revert bands0 max0. induction items as [|[b0 s0] items IH]; intros bands0 max0;
    cbn [max_size_bands].
  - intros H. left. split; [exact H|]. intros b s [].
  - destruct (Z.gtb_spec s0 max0) as [Hgt|Hle].
    + intros H. apply IH in H. right. destruct H as [[Hin Hall]|(size & Hin & Hge & Hall)].
      * destruct Hin as [<-|[]]. exists s0. split; [simpl; auto|]. split; [lia|].
        intros b s [E|Hbs]; [inversion E; lia|eauto].
      * exists size. split; [simpl; auto|]. split; [lia|].
        intros b s [E|Hbs]; [inversion E; lia|eauto].
    + destruct (Z.eqb_spec s0 max0) as [->|Hne].
      * intros H. apply IH in H. destruct H as [[Hin Hall]|(size & Hin & Hge & Hall)].
        -- apply in_app_iff in Hin. destruct Hin as [Hin|[<-|[]]].
           ++ left. split; [exact Hin|]. intros b s [E|Hbs]; [inversion E; lia|eauto].
           ++ right. exists max0. split; [simpl; auto|]. split; [lia|].
              intros b s [E|Hbs]; [inversion E; lia|eauto].
        -- right. exists size. split; [simpl; auto|]. split; [lia|].
           intros b s [E|Hbs]; [inversion E; lia|eauto].
      * intros H. apply IH in H. destruct H as [[Hin Hall]|(size & Hin & Hge & Hall)].
        -- left. split; [exact Hin|]. intros b s [E|Hbs]; [inversion E; lia|eauto].
        -- right. exists size. split; [simpl; auto|]. split; [lia|].
           intros b s [E|Hbs]; [inversion E; lia|eauto].
Qed.


(** ** Assignment: accumulated sizes *)


Section AccumulateFacts.
Variable self : AssignerActor.
Variable exclude_bands : list BandType.
Variable random_when_unavailable : bool.
Variable is_gpu : bool.
Variable filtered_bands : list BandType.

Local Abbreviation add :=
  (add_sizes self exclude_bands random_when_unavailable is_gpu filtered_bands).
Local Abbreviation accumulate :=
  (accumulate_sizes self exclude_bands random_when_unavailable is_gpu filtered_bands).

Local Abbreviation own := (own_band exclude_bands is_gpu filtered_bands).

Lemma resident_band_own band rng :
  own band ->
  resident_band self exclude_bands random_when_unavailable is_gpu filtered_bands band rng
  = Ok (band, rng).
Proof.
  unfold own_band. intros (Hp & Hin & Hex). unfold resident_band. cbv zeta. rewrite Hp. cbn [negb].
  unfold bind at 1. unfold ret at 1.
  apply band_in_true in Hin. apply band_in_false in Hex. rewrite Hin, Hex. reflexivity.
Qed.





End AccumulateFacts.

(** ** Assignment by the locality of the inputs *)




(** ** Assignment by locality: a band is returned *)

Lemma gather_inputs_locality self exclude_bands rwu subtask chunks g rng :
  existsb is_shuffle chunks = false ->
  exists g', gather_inputs self exclude_bands rwu subtask chunks g rng = Ok (g', rng).
Proof.
  revert g. induction chunks as [|c rest IH]; intros g; cbn [gather_inputs existsb]; intros H.
  - exists g. reflexivity.
  - apply orb_false_iff in H. destruct H as [Hc Hrest]. unfold is_shuffle in Hc.
    destruct (kind (op c)); [apply IH; exact Hrest|discriminate|apply IH; exact Hrest].
Qed.




Lemma resident_bands_In inp_metas chunks b :
  In b (resident_bands inp_metas chunks) ->
  exists c meta, In c chunks /\ kind (op c) = Fetch /\
                 dict_get string_dec inp_metas (key c) = Some meta /\ In b (bands meta).
Proof.
  induction chunks as [|c rest IH]; cbn [resident_bands]; [intros []|].
  destruct (kind (op c)) eqn:Ek.
  - destruct (dict_get string_dec inp_metas (key c)) as [meta|] eqn:E.
    + rewrite in_app_iff. intros [H|H].
      * exists c, meta. simpl. auto.
      * destruct (IH H) as (c' & m' & Hc' & Hr). exists c', m'. simpl. tauto.
    + intros H. destruct (IH H) as (c' & m' & Hc' & Hr). exists c', m'. simpl. tauto.
  - intros H. destruct (IH H) as (c' & m' & Hc' & Hr). exists c', m'. simpl. tauto.
  - intros H. destruct (IH H) as (c' & m' & Hc' & Hr). exists c', m'. simpl. tauto.
Qed.


Section AccumulateTotal.
Variable self : AssignerActor.
Variable exclude_bands : list BandType.
Variable random_when_unavailable : bool.
Variable is_gpu : bool.
Variable filtered_bands : list BandType.


End AccumulateTotal.






(** * Further properties of the code *)

(** ** The bands of a device class and the random pick *)

Lemma filter_all A (p : A -> bool) l :
  (forall x, In x l -> p x = true) -> filter p l = l.
Proof.
  induction l as [|x l IH]; intros H; simpl; [reflexivity|].
  rewrite (H x (or_introl eq_refl)). f_equal. apply IH. intros y Hy. apply H. right. exact Hy.
Qed.

Lemma random_element_nth A (l : list A) i a rng :
  nth_error l i = Some a ->
  random_element l (i :: rng) = Ok (a, rng).
Proof.
  intros H. unfold random_element, bind, random_choice.
  assert (Hlt : (i < List.length l)%nat) by (apply nth_error_Some; congruence).
  destruct (List.length l) as [|n] eqn:E; [inversion Hlt|].
  cbn [hd tl]. rewrite Nat.mod_small by exact Hlt. rewrite H. reflexivity.
Qed.

(** X1. The outcomes of [_get_random_band], exhaustively: it raises
    [NoMatchingSlots] (naming "gpu" or "cpu") exactly when the device class
    has no band, and [NoAvailableBand] exactly when the class has bands, all
    of them are excluded and [random_when_unavailable] is off; in every
    other case it returns a band of the class after exactly one random
    draw, and the band is a non-excluded one whenever there is one or
    [random_when_unavailable] is off. *)
Theorem get_random_band_outcome self is_gpu exclude_bands random_when_unavailable rng :
  let device_bands :=
    dict_get_default string_dec (_device_type_to_bands self) (device_prefix is_gpu) [] in
  let avail_bands :=
    filter (fun band => negb (band_in band exclude_bands)) device_bands in
  match _get_random_band self is_gpu exclude_bands random_when_unavailable rng with
  | Err e =>
      (device_bands = [] /\ e = NoMatchingSlots (if is_gpu then "gpu" else "cpu")) \/
      (device_bands <> [] /\ avail_bands = [] /\ random_when_unavailable = false /\
       e = NoAvailableBand)
  | Ok (band, rng') =>
      rng' = tl rng /\ In band device_bands /\
      (avail_bands <> [] \/ random_when_unavailable = false -> In band avail_bands)
  end.
Proof.
  intros l avail.
  destruct (_get_random_band self is_gpu exclude_bands random_when_unavailable rng)
    as [[band rng']|e] eqn:H.
  - pose proof (get_random_band_Ok _ _ _ _ _ H) as (Hin & Hrng & Hex). fold l in Hin, Hex.
    split; [exact Hrng|]. split; [exact Hin|].
    intros Hc. apply filter_In. split; [exact Hin|].
    apply negb_true_iff, band_in_false. apply Hex.
    destruct Hc as [Hne|Hf]; [right|left; exact Hf].
    destruct avail as [|b av] eqn:E; [congruence|].
    assert (Hb : In b avail) by (rewrite E; left; reflexivity).
    apply filter_In in Hb. destruct Hb as [Hb Hnb].
    apply negb_true_iff, band_in_false in Hnb. eauto.
  - assert (Hcase : l = [] \/ l <> []) by (destruct l; [left; reflexivity|right; discriminate]).
    destruct Hcase as [El|Hne].
    + left. split; [exact El|].
      rewrite (@get_random_band_none self is_gpu exclude_bands random_when_unavailable rng El) in H.
      congruence.
    + right. split; [exact Hne|].
      assert (Hd : _get_device_bands self is_gpu rng = Ok (l, rng)).
      { unfold _get_device_bands. cbv zeta. fold l. apply null_false in Hne.
        rewrite Hne. reflexivity. }
      unfold _get_random_band in H. erewrite bind_Ok_intro in H by exact Hd.
      destruct (random_element_total (l := l) rng Hne) as (band & Hb & _).
      destruct exclude_bands as [|x ex]; cbn [null negb] in H; [congruence|].
      fold avail in H.
      destruct avail as [|y av] eqn:Ea; cbn [null negb] in H.
      * destruct random_when_unavailable; cbn [negb] in H; [congruence|].
        unfold raise in H. repeat split; congruence.
      * destruct (random_element_total (l := y :: av) rng) as (band' & Hb' & _);
          [discriminate|congruence].
Qed.

(** X2. Every band of the device class that is not excluded can be the
    band that [_get_random_band] returns: some random draw selects it. *)
Theorem get_random_band_any self is_gpu exclude_bands random_when_unavailable band rng :
  In band (dict_get_default string_dec (_device_type_to_bands self)
             (device_prefix is_gpu) []) ->
  ~ In band exclude_bands ->
  exists draw,
    _get_random_band self is_gpu exclude_bands random_when_unavailable (draw :: rng)
    = Ok (band, rng).
Proof.
  set (l := dict_get_default string_dec (_device_type_to_bands self)
              (device_prefix is_gpu) []).
  intros Hin Hex.
  assert (Hne : l <> []) by (intros E; rewrite E in Hin; destruct Hin).
  assert (Hd : forall r, _get_device_bands self is_gpu r = Ok (l, r)).
  { intros r. unfold _get_device_bands. cbv zeta. fold l. apply null_false in Hne.
    rewrite Hne. reflexivity. }
  set (avail := filter (fun b => negb (band_in b exclude_bands)) l).
  assert (Ha : In band avail).
  { apply filter_In. split; [exact Hin|]. apply negb_true_iff, band_in_false. exact Hex. }
  destruct exclude_bands as [|x ex].
  - destruct (In_nth_error _ _ Hin) as (i & Hi). exists i.
    unfold _get_random_band. erewrite bind_Ok_intro by apply Hd.
    cbn [null negb]. apply random_element_nth. exact Hi.
  - destruct (In_nth_error _ _ Ha) as (i & Hi). exists i.
    unfold _get_random_band. erewrite bind_Ok_intro by apply Hd.
    cbn [null negb]. fold avail.
    destruct avail as [|y av] eqn:E; [destruct Ha|].
    cbn [null negb]. apply random_element_nth. exact Hi.
Qed.

Lemma get_random_band_any_witness :
  exists draw,
    _get_random_band (_update_bands [B1; B2; B3]) false [B1] false (draw :: [])
    = Ok (B3, []).
Proof.
  apply (@get_random_band_any (_update_bands [B1; B2; B3]) false [B1] false B3 []).
  - vm_compute. auto.
  - simpl. intros [H|[]]. discriminate.
Defined.

(** X3. On every state that the actor reaches, [_get_device_bands] draws
    no random number and either returns all the bands of the class
    (names starting with "numa" for CPU, every other name for GPU), in
    sorted order and at least one, or raises [NoMatchingSlots] when the
    band list has no band of the class; the error names the class "cpu" or
    "gpu". *)
Theorem get_device_bands_class (self : AssignerActor) (is_gpu : bool) (rng : list nat) :
  reachable self ->
  let class :=
    filter (fun b : BandType => if is_gpu then negb (is_numa b) else is_numa b)
           (_bands self) in
  match _get_device_bands self is_gpu rng with
  | Err e => class = [] /\ e = NoMatchingSlots (if is_gpu then "gpu" else "cpu")
  | Ok (l, rng') =>
      rng' = rng /\ l <> [] /\ Permutation l class /\ StronglySorted (le_of band_leb) l
  end.
Proof.
  intros Hr class.
  pose proof (device_bands_reachable is_gpu Hr) as Hp. fold class in Hp.
  destruct (_get_device_bands self is_gpu rng) as [[l rng']|e] eqn:H.
  - apply get_device_bands_Ok in H. destruct H as (-> & Hne & ->).
    split; [reflexivity|]. split; [exact Hne|]. split; [exact Hp|].
    revert Hne. rewrite (reachable_updated Hr). cbn [_bands _update_bands].
    unfold dict_get_default.
    pose proof (device_index_entry (_bands self) (device_prefix is_gpu)) as He.
    destruct (dict_get string_dec
                (_device_type_to_bands (_update_bands (_bands self)))
                (device_prefix is_gpu)) as [g|]; [|congruence].
    intros _. apply He.
  - apply get_device_bands_Err in H. destruct H as (-> & E).
    rewrite E in Hp. apply Permutation_nil in Hp. auto.
Qed.

Lemma get_device_bands_class_witness :
  match _get_device_bands (_update_bands [B2; GPU0; B1]) false [] with
  | Err e => filter is_numa [B2; GPU0; B1] = [] /\ e = NoMatchingSlots "cpu"
  | Ok (l, rng') =>
      rng' = [] /\ l <> [] /\ Permutation l (filter is_numa [B2; GPU0; B1]) /\
      StronglySorted (le_of band_leb) l
  end.
Proof.
  apply (@get_device_bands_class (_update_bands [B2; GPU0; B1]) false []).
  apply (reachable_watch [B2; GPU0; B1] reachable_init).
Defined.

(** ** The band indexes do not depend on the order of the report *)

Lemma sorted_unique A (R : A -> A -> Prop) (l1 l2 : list A) :
  (forall a b, R a b -> R b a -> a = b) ->
  StronglySorted R l1 -> StronglySorted R l2 -> Permutation l1 l2 -> l1 = l2.
Proof.
  intros Hanti H1. revert l2. induction H1 as [|x l1 Hs1 IH Hx]; intros l2 H2 Hp.
  - apply Permutation_nil in Hp. congruence.
  - destruct H2 as [|y l2 Hs2 Hy].
    + apply Permutation_sym, Permutation_nil in Hp. discriminate.
    + assert (E : x = y).
      { assert (Hxin : In x (y :: l2)) by (apply (Permutation_in _ Hp); left; reflexivity).
        assert (Hyin : In y (x :: l1))
          by (apply (Permutation_in _ (Permutation_sym Hp)); left; reflexivity).
        destruct Hxin as [E|Hxin]; [congruence|].
        destruct Hyin as [E|Hyin]; [congruence|].
        rewrite Forall_forall in Hx, Hy. apply Hanti; [apply Hx|apply Hy]; assumption. }
      subst y. f_equal. apply IH; [exact Hs2|]. eapply Permutation_cons_inv. exact Hp.
Qed.

Lemma string_leb_antisym a b : String.leb a b = true -> String.leb b a = true -> a = b.
Proof.
  unfold String.leb. intros H1 H2.
  destruct (String.compare a b) eqn:E; [apply String.compare_eq_iff; exact E| |discriminate].
  apply string_compare_Gt in E. rewrite E in H2. discriminate.
Qed.

Lemma lex_leb_antisym A (leb : A -> A -> bool) (a b : string * A) :
  (forall x y, leb x y = true -> leb y x = true -> x = y) ->
  lex_leb leb a b = true -> lex_leb leb b a = true -> a = b.
Proof.
  intros Hanti. unfold lex_leb. destruct a as [a1 a2], b as [b1 b2]. cbn [fst snd].
  destruct (String.compare a1 b1) eqn:E.
  - apply String.compare_eq_iff in E. subst b1. rewrite string_compare_refl.
    intros H1 H2. f_equal. apply Hanti; assumption.
  - apply string_compare_Gt in E. rewrite E. discriminate.
  - discriminate.
Qed.

Lemma band_leb_antisym a b : band_leb a b = true -> band_leb b a = true -> a = b.
Proof. apply (@lex_leb_antisym _ String.leb a b string_leb_antisym). Qed.

Lemma sorted_bands_permutation (bands bands' : list BandType) :
  Permutation bands bands' -> sorted band_leb bands = sorted band_leb bands'.
Proof.
  intros Hp. apply (@sorted_unique _ (le_of band_leb)).
  - exact band_leb_antisym.
  - apply sorted_bands_strongly.
  - apply sorted_bands_strongly.
  - rewrite (sorted_perm band_leb bands), (sorted_perm band_leb bands'). exact Hp.
Qed.

(** X4. The two indexes that [_update_bands] builds depend only on which
    bands are reported, not on the order of the report: band lists that
    are rearrangements of each other give the same [_address_to_bands] and
    the same [_device_type_to_bands]. *)
Theorem update_bands_permutation (bands bands' : list BandType) :
  Permutation bands bands' ->
  _address_to_bands (_update_bands bands) = _address_to_bands (_update_bands bands') /\
  _device_type_to_bands (_update_bands bands)
  = _device_type_to_bands (_update_bands bands').
Proof.
  intros Hp. cbn [_update_bands _address_to_bands _device_type_to_bands]. split.
  - rewrite (sorted_bands_permutation Hp). reflexivity.
  - do 3 f_equal.
    apply (@sorted_unique _ (le_of typed_band_leb)).
    + intros a b. apply (@lex_leb_antisym _ band_leb a b band_leb_antisym).
    + apply typed_sorted_strongly.
    + apply typed_sorted_strongly.
    + rewrite (sorted_perm typed_band_leb (map (fun b => (device_type b, b)) bands)).
      rewrite (sorted_perm typed_band_leb (map (fun b => (device_type b, b)) bands')).
      apply Permutation_map. exact Hp.
Qed.

Lemma update_bands_permutation_witness :
  _address_to_bands (_update_bands [B2; GPU0; B1])
  = _address_to_bands (_update_bands [GPU0; B2; B1]) /\
  _device_type_to_bands (_update_bands [B2; GPU0; B1])
  = _device_type_to_bands (_update_bands [GPU0; B2; B1]).
Proof.
  apply (@update_bands_permutation [B2; GPU0; B1] [GPU0; B2; B1]).
  apply perm_swap.
Defined.

(** ** The address index as a partition of the sorted band list *)

Lemma groupby_concat A (key : A -> string) (l : list A) :
  List.concat (map snd (groupby key l)) = l.
Proof.
  induction l as [|x l IH]; [reflexivity|]. cbn [groupby].
  destruct (groupby key l) as [|[k g] rest].
  - simpl in IH. subst l. reflexivity.
  - destruct (String.eqb (key x) k); simpl in *; rewrite IH; reflexivity.
Qed.

Lemma groupby_keys_ascending A (key : A -> string) (l : list A) :
  StronglySorted (fun x y => String.leb (key x) (key y) = true) l ->
  StronglySorted (fun a b => String.compare a b = Lt) (map fst (groupby key l)).
Proof.
  induction 1 as [|x l Hs IH Hx]; [constructor|]. cbn [groupby].
  destruct (groupby key l) as [|[k g] rest] eqn:E.
  - simpl. constructor; constructor.
  - destruct (String.eqb_spec (key x) k) as [Ek|Ek]; [exact IH|].
    cbn [map fst] in *. constructor; [exact IH|].
    rewrite Forall_forall in Hx.
    assert (Hle : forall k', In k' (k :: map fst rest) -> String.leb (key x) k' = true).
    { intros k' Hk'.
      assert (Hin : In k' (map fst (groupby key l))) by (rewrite E; exact Hk').
      apply (groupby_keys key l) in Hin. destruct Hin as (y & Hy & <-). apply Hx. exact Hy. }
    inversion IH as [|k0 rest0 Hrest Hall]; subst. rewrite Forall_forall in Hall.
    apply Forall_forall. intros k' Hk'.
    pose proof (Hle k' Hk') as H1. unfold String.leb in H1.
    destruct (String.compare (key x) k') eqn:Ec; [|reflexivity|discriminate].
    exfalso. apply String.compare_eq_iff in Ec. subst k'.
    destruct Hk' as [Hk'|Hk']; [congruence|].
    specialize (Hall _ Hk').
    pose proof (Hle k (or_introl eq_refl)) as H2. unfold String.leb in H2.
    apply string_compare_Gt in Hall. rewrite Hall in H2. discriminate.
Qed.

Lemma StronglySorted_weaken A (R R' : A -> A -> Prop) (l : list A) :
  (forall a b, R a b -> R' a b) -> StronglySorted R l -> StronglySorted R' l.
Proof.
  intros HR. induction 1 as [|x l Hs IH Hx]; constructor; [exact IH|].
  eapply Forall_impl; [|exact Hx]. intros b. apply HR.
Qed.

Lemma groupby_keys_intro A (key : A -> string) (l : list A) y :
  In y l -> In (key y) (map fst (groupby key l)).
Proof.
  induction l as [|x l IH]; [intros []|]. intros Hy. cbn [groupby].
  destruct (groupby key l) as [|[k g] rest] eqn:E.
  - destruct Hy as [->|Hy]; [left; reflexivity|]. destruct (IH Hy).
  - destruct (String.eqb_spec (key x) k) as [Ek|Ek]; cbn [map fst] in *.
    + destruct Hy as [->|Hy]; [left; congruence|]. apply IH. exact Hy.
    + destruct Hy as [->|Hy]; [left; reflexivity|]. right. apply IH. exact Hy.
Qed.

(** X5. The address index is a partition of the sorted band list: its keys
    are the addresses of the bands, each once and in ascending order, and
    its entries, concatenated in that order, are the band list in sorted
    order. *)
Theorem update_bands_address_partition (bands : list BandType) :
  StronglySorted (fun a b => String.compare a b = Lt)
    (keys (_address_to_bands (_update_bands bands))) /\
  (forall address,
      In address (keys (_address_to_bands (_update_bands bands)))
      <-> In address (map fst bands)) /\
  List.concat (values (_address_to_bands (_update_bands bands)))
  = sorted band_leb bands.
Proof.
  cbn [_update_bands _address_to_bands].
  pose proof (sorted_bands_strongly bands) as Hs.
  destruct (@groupby_sorted _ fst (le_of band_leb) (@lex_leb_fst _ String.leb)
              (sorted band_leb bands) Hs) as [Hnd _].
  rewrite dict_of_items_NoDup by exact Hnd.
  split; [|split].
  - apply groupby_keys_ascending.
    eapply (@StronglySorted_weaken _ (le_of band_leb)); [|exact Hs].
    intros a b Hab. apply (@lex_leb_fst _ String.leb a b Hab).
  - intros address. unfold keys. split; intros H.
    + apply (groupby_keys fst (sorted band_leb bands)) in H.
      destruct H as (b & Hb & <-). apply in_map.
      apply (Permutation_in _ (sorted_perm band_leb bands)). exact Hb.
    + apply in_map_iff in H. destruct H as (b & <- & Hb).
      apply (@groupby_keys_intro _ fst (sorted band_leb bands) b).
      apply (Permutation_in _ (Permutation_sym (sorted_perm band_leb bands))). exact Hb.
  - apply groupby_concat.
Qed.

(** ** Rebalancing: which bands the returned map mentions *)

Lemma filter_keys_In (p : BandType * Z -> bool) (d : dict BandType Z) k :
  In k (keys (filter p d)) -> In k (keys d).
Proof.
  unfold keys. rewrite !in_map_iff. intros (x & E & Hx).
  apply filter_In in Hx. exists x. tauto.
Qed.

Lemma reassign_class_keys order self d is_gpu rng part rng' k :
  reassign_class order self d is_gpu [] rng = Ok (part, rng') ->
  In k (keys part) ->
  (In k (_bands self) \/ In k (keys d)) /\
  exists b, In b (_bands self) /\ has_prefix (device_prefix is_gpu) b = true.
Proof.
  unfold reassign_class.
  set (p := device_prefix is_gpu).
  set (fb := filter (has_prefix p) (_bands self)).
  set (fq := filter (fun kv => has_prefix p (fst kv)) d).
  intros H Hk.
  destruct (null fb) eqn:Hfb.
  { inv_M. destruct Hk. }
  assert (Hb : exists b, In b (_bands self) /\ has_prefix p b = true).
  { apply null_false in Hfb. destruct fb as [|b fb'] eqn:E; [congruence|].
    exists b. apply filter_In. fold fb. rewrite E. left. reflexivity. }
  split; [|exact Hb].
  destruct (single_used_band fb fq) as [band|] eqn:Hsingle.
  { inv_M. destruct (single_used_band_Some _ _ Hsingle) as (len & Hfq).
    cbn in Hk. destruct Hk as [<-|[]]. right.
    apply (@filter_keys_In (fun kv => has_prefix p (fst kv)) d). fold fq.
    rewrite Hfq. left. reflexivity. }
  inv_M. rename a into mean, H0 into Hmean, a0 into bmn, H into H0.
  destruct (balance_Ok _ _ _ H0) as (_ & Hkeys & _).
  assert (Hnd : NoDup (keys bmn)) by (rewrite Hkeys; apply move_nums_NoDup).
  rewrite dict_update_app in Hk; [|exact Hnd|intros ? ? []].
  cbn [app] in Hk. rewrite Hkeys in Hk.
  apply move_nums_keys, all_bands_of_In in Hk. destruct Hk as [Hk|Hk].
  - left. apply filter_In in Hk. tauto.
  - right. apply working_set_keys in Hk. eapply filter_keys_In. exact Hk.
Qed.

(** X6. [reassign_subtasks] never invents a band: every band of the
    returned map is a band of the band list or a band of the input, its
    name starts with "numa" or "gpu", and the band list has a band of the
    same class; no band is listed twice.  With an empty band list the
    returned map is empty, whatever the input. *)
Theorem reassign_subtasks_bands :
  (forall order self band_to_queued_num rng m rng',
      reassign_subtasks order self band_to_queued_num rng = Ok (m, rng') ->
      NoDup (keys m) /\
      forall band, In band (keys m) ->
        (In band (_bands self) \/ In band (keys band_to_queued_num)) /\
        exists is_gpu ready,
          has_prefix (device_prefix is_gpu) band = true /\
          In ready (_bands self) /\ has_prefix (device_prefix is_gpu) ready = true) /\
  (forall order self band_to_queued_num rng,
      _bands self = [] ->
      reassign_subtasks order self band_to_queued_num rng = Ok ([], rng)).
Proof.
  split.
  - intros order self d rng m rng' H.
    destruct (reassign_subtasks_Ok _ _ _ _ H)
      as (cpu & gpu & rng1 & H1 & H2 & -> & Hnd & _ & _ & Hp1 & Hp2).
    assert (Hperm : Permutation (keys (sorted move_leb (cpu ++ gpu))) (keys (cpu ++ gpu))).
    { apply Permutation_map. apply sorted_perm. }
    split.
    + eapply Permutation_NoDup; [symmetry; exact Hperm|exact Hnd].
    + intros band Hb. apply (Permutation_in _ Hperm) in Hb.
      unfold keys in Hb. rewrite map_app, in_app_iff in Hb. destruct Hb as [Hb|Hb].
      * destruct (@reassign_class_keys order self d false rng cpu rng1 band H1 Hb)
          as (Hin & ready & Hr & Hpr).
        split; [exact Hin|]. exists false, ready.
        split; [apply Hp1; exact Hb|]. split; assumption.
      * destruct (@reassign_class_keys order self d true rng1 gpu rng' band H2 Hb)
          as (Hin & ready & Hr & Hpr).
        split; [exact Hin|]. exists true, ready.
        split; [apply Hp2; exact Hb|]. split; assumption.
  - intros order self d rng Hnil. unfold reassign_subtasks.
    erewrite bind_Ok_intro
      by (apply reassign_class_no_band; rewrite Hnil; intros b []).
    erewrite bind_Ok_intro
      by (apply reassign_class_no_band; rewrite Hnil; intros b []).
    reflexivity.
Qed.

Lemma reassign_subtasks_bands_witness :
  NoDup (keys [(B1, -5); (B3, 2); (B2, 3)]) /\
  forall band, In band (keys [(B1, -5); (B3, 2); (B2, 3)]) ->
    (In band (_bands (_update_bands [B1; B2; B3])) \/ In band (keys [(B1, 9); (B3, 1)])) /\
    exists is_gpu ready,
      has_prefix (device_prefix is_gpu) band = true /\
      In ready (_bands (_update_bands [B1; B2; B3])) /\
      has_prefix (device_prefix is_gpu) ready = true.
Proof.
  apply (proj1 reassign_subtasks_bands insertion_order (_update_bands [B1; B2; B3])
           [(B1, 9); (B3, 1)] [0%nat] [(B1, -5); (B3, 2); (B2, 3)] []).
  reflexivity.
Defined.

(** ** Rebalancing: how it can fail *)



(** ** Rebalancing: a balanced cluster is left alone *)

Lemma keys_filter (p : BandType -> bool) (d : dict BandType Z) :
  keys (filter (fun kv => p (fst kv)) d) = filter p (keys d).
Proof.
  induction d as [|[k v] d IH]; simpl; [reflexivity|].
  destruct (p k); simpl; rewrite IH; reflexivity.
Qed.

Lemma values_filter_In (p : BandType * Z -> bool) (d : dict BandType Z) v :
  In v (values (filter p d)) -> In v (values d).
Proof.
  unfold values. rewrite !in_map_iff. intros (x & E & Hx).
  apply filter_In in Hx. exists x. tauto.
Qed.


Section Balanced.
Variable order : SetOrder.
Variable self : AssignerActor.
Variable d : dict BandType Z.
Variable q : Z.
Hypothesis bands_NoDup : NoDup (_bands self).
Hypothesis recorded : Permutation (keys d) (_bands self).
Hypothesis equal_queues : forall v, In v (values d) -> v = q.
Hypothesis representable : Z.abs q < 2 ^ 53.

End Balanced.



(** ** Assignment: one band for each subtask *)

Lemma Forall2_same_length A B (P : A -> B -> Prop) (l : list A) (l' : list B) :
  Forall2 P l l' -> List.length l = List.length l'.
Proof. induction 1; simpl; congruence. Qed.

(** X9. [assign_subtasks] returns one band for each subtask: the list it
    returns is as long as the list of subtasks.  For the empty list of
    subtasks it returns the empty list without a random draw, whatever the
    bands are, also when there is no band at all. *)
Theorem assign_subtasks_length :
  (forall self cluster_bands get_chunk_meta subtasks exclude_bands
          random_when_unavailable rng assigns rng',
      assign_subtasks self cluster_bands get_chunk_meta subtasks exclude_bands
        random_when_unavailable rng = Ok (assigns, rng') ->
      List.length assigns = List.length subtasks) /\
  (forall self cluster_bands get_chunk_meta exclude_bands random_when_unavailable rng,
      assign_subtasks self cluster_bands get_chunk_meta [] exclude_bands
        random_when_unavailable rng = Ok ([], rng)).
Proof.
  split.
  - intros self cluster get_meta subtasks excl rwu rng assigns rng' H.
    unfold assign_subtasks in H. apply assign_with_bands_Ok in H.
    destruct H as (g & metas0 & metas & r1 & r2 & r3 & _ & _ & _ & H).
    apply assign_each_Ok in H. symmetry. eapply Forall2_same_length. exact H.
  - reflexivity.
Qed.

Lemma assign_subtasks_length_witness :
  List.length [B1] = List.length [S1_subtask].
Proof.
  apply (proj1 assign_subtasks_length (_update_bands [B1; B2]) [] S1_metas
           [S1_subtask] [] true [] [B1] []).
  reflexivity.
Defined.

(** ** Assignment: expected bands are preferred *)

(** X10. A subtask with expected bands of which at least one is in the band
    list and not excluded gets one of those: the band that
    [assign_subtasks] returns for it is an expected band, is in the band
    list and is not excluded, whether or not [bands_specified] is set and
    wherever the inputs of the subtask reside.  (Subtask ids are
    distinct.) *)
Theorem assign_subtasks_expected :
  forall self cluster_bands get_chunk_meta subtasks exclude_bands
         random_when_unavailable rng assigns rng',
    NoDup (map subtask_id subtasks) ->
    assign_subtasks self cluster_bands get_chunk_meta subtasks exclude_bands
      random_when_unavailable rng = Ok (assigns, rng') ->
    let self' := ensure_bands self cluster_bands in
    Forall2 (fun subtask band =>
               expect_available self' exclude_bands subtask <> [] ->
               In band (expect_bands_list subtask) /\
               In band (_bands self') /\ ~ In band exclude_bands)
            subtasks assigns.
Proof.
  intros self cluster get_meta subtasks excl rwu rng assigns rng' Hnd H.
  cbv zeta. unfold assign_subtasks in H.
  pose proof (assign_preselected _ _ _ _ _ _ Hnd H) as F.
  eapply Forall2_weaken; [|exact F].
  intros s b _ Hsel Hav.
  set (st := ensure_bands self cluster) in *.
  assert (Hne : expect_bands_list s <> []).
  { intros E. apply Hav. unfold expect_available. rewrite E. reflexivity. }
  destruct Hsel as (l & Hl & Hin).
  { unfold preselected. apply null_false in Hne. rewrite Hne. reflexivity. }
  unfold preselection in Hl.
  apply null_false in Hne. apply null_false in Hav. rewrite Hne, Hav in Hl.
  cbn [negb andb] in Hl. subst l.
  unfold expect_available in Hin. apply filter_In in Hin. destruct Hin as [Hin Hc].
  apply andb_true_iff in Hc. destruct Hc as [Hb Hex].
  apply band_in_true in Hb. apply negb_true_iff, band_in_false in Hex. auto.
Qed.

Lemma assign_subtasks_expected_witness :
  Forall2 (fun subtask band =>
             expect_available (ensure_bands (_update_bands [B1; B2]) []) [] subtask <> [] ->
             In band (expect_bands_list subtask) /\
             In band (_bands (ensure_bands (_update_bands [B1; B2]) [])) /\ ~ In band [])
    [{| subtask_id := "s";
        chunk_graph := {| nodes := [fetch_chunk "k1" false]; edges := [] |};
        expect_bands := Some [B3; B2];
        bands_specified := false |}]
    [B2].
Proof.
  apply (@assign_subtasks_expected (_update_bands [B1; B2]) [] S1_metas
           [{| subtask_id := "s";
               chunk_graph := {| nodes := [fetch_chunk "k1" false]; edges := [] |};
               expect_bands := Some [B3; B2];
               bands_specified := false |}]
           [] true [] [B2] []).
  - repeat constructor. intros [].
  - reflexivity.
Defined.

(** ** Assignment by locality stays within the device class *)

Section AccumulateClass.
Variable self : AssignerActor.
Variable exclude_bands : list BandType.
Variable random_when_unavailable : bool.
Variable is_gpu : bool.

Let class_bands : list BandType :=
  dict_get_default string_dec (_device_type_to_bands self) (device_prefix is_gpu) [].

(** A band of the class that is not excluded, unless every band of the
    class is excluded and a random band may be taken all the same. *)
Let usable (b : BandType) : Prop :=
  In b class_bands /\
  ((random_when_unavailable = false \/
    exists b', In b' class_bands /\ ~ In b' exclude_bands) ->
   ~ In b exclude_bands).

Lemma resident_band_usable band rng b rng' :
  resident_band self exclude_bands random_when_unavailable is_gpu class_bands band rng
  = Ok (b, rng') ->
  usable b.
Proof.
  unfold resident_band. cbv zeta. intros H. inv_M.
  destruct (negb (band_in a class_bands) || band_in a exclude_bands) eqn:E.
  - apply get_random_band_Ok in H1. destruct H1 as (Hin & _ & Hex).
    split; [exact Hin|exact Hex].
  - inv_M. apply orb_false_iff in E. destruct E as [E1 E2].
    apply negb_false_iff, band_in_true in E1. apply band_in_false in E2.
    split; [exact E1|]. intros _. exact E2.
Qed.

Lemma add_sizes_usable size resident bs rng bs' rng' :
  add_sizes self exclude_bands random_when_unavailable is_gpu class_bands
    size resident bs rng = Ok (bs', rng') ->
  forall b, In b (keys bs') -> In b (keys bs) \/ usable b.
Proof.
  revert bs rng. induction resident as [|b0 rest IH]; intros bs rng; cbn [add_sizes];
    intros H b Hb.
  - inv_M. auto.
  - inv_M. destruct (IH _ _ H1 b Hb) as [Hk|Hk]; [|auto].
    apply in_keys_dict_set in Hk. destruct Hk as [->|Hk]; [|auto].
    right. eapply resident_band_usable. exact H0.
Qed.

Lemma accumulate_sizes_usable inp_metas chunks bs rng bs' rng' :
  accumulate_sizes self exclude_bands random_when_unavailable is_gpu class_bands
    inp_metas chunks bs rng = Ok (bs', rng') ->
  forall b, In b (keys bs') -> In b (keys bs) \/ usable b.
Proof.
  revert bs rng. induction chunks as [|c rest IH]; intros bs rng;
    cbn [accumulate_sizes]; intros H b Hb.
  - inv_M. auto.
  - destruct (kind (op c)); try (eapply IH; eassumption).
    inv_M. destruct (IH _ _ H2 b Hb) as [Hk|Hk]; [|auto].
    eapply add_sizes_usable; eassumption.
Qed.
End AccumulateClass.

(** X11. A subtask assigned by the locality of its inputs (no expected
    band, no [FetchShuffle] source) gets a band of its own device class,
    wherever its inputs reside; the band is not excluded whenever the class
    has a band that is not excluded or [random_when_unavailable] is off.
    (Subtask ids are distinct.) *)
Theorem assign_subtasks_locality_class :
  forall self cluster_bands get_chunk_meta subtasks exclude_bands
         random_when_unavailable rng assigns rng',
    NoDup (map subtask_id subtasks) ->
    assign_subtasks self cluster_bands get_chunk_meta subtasks exclude_bands
      random_when_unavailable rng = Ok (assigns, rng') ->
    let self' := ensure_bands self cluster_bands in
    Forall2 (fun subtask band =>
               by_locality subtask ->
               In band (device_bands self' subtask) /\
               ((random_when_unavailable = false \/
                 candidates self' exclude_bands subtask <> []) ->
                In band (candidates self' exclude_bands subtask)))
            subtasks assigns.
Proof.
  intros self cluster get_meta subtasks excl rwu rng assigns rng' Hnd H.
  cbv zeta. unfold assign_subtasks in H.
  destruct (assign_by_locality _ _ _ _ _ _ Hnd H) as (g & metas & _ & _ & F).
  eapply Forall2_weaken; [|exact F].
  intros s b _ Hs Hl. apply preselected_false in Hl.
  destruct (Hs Hl) as (bs & r & r' & Hacc & Hin).
  set (st := ensure_bands self cluster) in *.
  assert (Hkey : In b (keys bs)).
  { apply max_size_bands_In in Hin. destruct Hin as [[[] _]|(size & Hsz & _)].
    apply (in_map fst) in Hsz. exact Hsz. }
  destruct (@accumulate_sizes_usable st excl rwu (subtask_is_gpu s) metas
              (iter_indep (chunk_graph s)) [] r bs r' Hacc b Hkey) as [[]|[Hc Hex]].
  split; [exact Hc|].
  intros Hcond. apply candidates_In. split; [exact Hc|]. apply Hex.
  destruct Hcond as [Hf|Hne]; [left; exact Hf|right].
  destruct (candidates st excl s) as [|b' l] eqn:E; [congruence|].
  exists b'. apply candidates_In. rewrite E. left. reflexivity.
Qed.

Lemma assign_subtasks_locality_class_witness :
  Forall2 (fun subtask band =>
             by_locality subtask ->
             In band (device_bands (ensure_bands (_update_bands [B1; B2; GPU0; GPU1]) [])
                        subtask) /\
             ((true = false \/
               candidates (ensure_bands (_update_bands [B1; B2; GPU0; GPU1]) []) []
                 subtask <> []) ->
              In band (candidates (ensure_bands (_update_bands [B1; B2; GPU0; GPU1]) []) []
                         subtask)))
    [subtask_of [{| op := {| gpu := true; kind := Fetch |};
                    key := "k1"; is_broadcaster := false |}]]
    [GPU1].
Proof.
  apply (@assign_subtasks_locality_class (_update_bands [B1; B2; GPU0; GPU1]) [] S1_metas
           [subtask_of [{| op := {| gpu := true; kind := Fetch |};
                           key := "k1"; is_broadcaster := false |}]]
           [] true [1%nat; 0%nat] [GPU1] []).
  - repeat constructor. intros [].
  - reflexivity.
Defined.

(** ** Assignment by locality keeps the worker across device classes *)

Lemma address_index_In self address l b :
  reachable self ->
  dict_get string_dec (_address_to_bands self) address = Some l ->
  In b l <-> In b (_bands self) /\ fst b = address.
Proof.
  intros Hr. rewrite (reachable_updated Hr) at 1. rewrite address_index_get.
  intros H.
  assert (E : l = filter (fun b => String.eqb (fst b) address)
                    (sorted band_leb (_bands self))).
  { destruct (filter (fun b => String.eqb (fst b) address)
                (sorted band_leb (_bands self))); congruence. }
  rewrite E, filter_In, String.eqb_eq.
  split; intros [H1 H2]; (split; [|exact H2]).
  - apply (Permutation_in _ (sorted_perm band_leb (_bands self))). exact H1.
  - apply (Permutation_in _ (Permutation_sym (sorted_perm band_leb (_bands self)))).
    exact H1.
Qed.

Lemma address_index_known self (b : BandType) :
  reachable self -> In b (_bands self) ->
  exists l, dict_get string_dec (_address_to_bands self) (fst b) = Some l.
Proof.
  intros Hr Hb. rewrite (reachable_updated Hr). rewrite address_index_get.
  assert (Hin : In b (filter (fun b' => String.eqb (fst b') (fst b))
                        (sorted band_leb (_bands self)))).
  { apply filter_In. split; [|apply String.eqb_refl].
    apply (Permutation_in _ (Permutation_sym (sorted_perm band_leb (_bands self)))).
    exact Hb. }
  destruct (filter (fun b' => String.eqb (fst b') (fst b))
              (sorted band_leb (_bands self))) as [|x g]; [destruct Hin|eauto].
Qed.

Lemma class_bands_In self is_gpu (b : BandType) :
  reachable self -> In b (_bands self) ->
  startswith (device_prefix is_gpu) (snd b) = true ->
  In b (dict_get_default string_dec (_device_type_to_bands self)
          (device_prefix is_gpu) []).
Proof.
  intros Hr Hb Hp.
  apply (Permutation_in _ (Permutation_sym (@device_bands_reachable self is_gpu Hr))).
  apply filter_In. split; [exact Hb|].
  destruct is_gpu; [|exact Hp].
  destruct (is_numa b) eqn:E; [|reflexivity].
  assert (X : true = false); [|discriminate X].
  apply (@device_prefix_exclusive true false b); [exact Hp|exact E].
Qed.

Section SameWorker.
Variable self : AssignerActor.
Variable exclude_bands : list BandType.
Variable random_when_unavailable : bool.
Variable is_gpu : bool.
Hypothesis self_reachable : reachable self.

Let class_bands : list BandType :=
  dict_get_default string_dec (_device_type_to_bands self) (device_prefix is_gpu) [].

Lemma resident_band_worker band rng b rng' :
  counts_on_worker self exclude_bands is_gpu band ->
  resident_band self exclude_bands random_when_unavailable is_gpu class_bands band rng
  = Ok (b, rng') ->
  fst b = fst band.
Proof.
  intros [Hown|(Hp & b0 & Hb0 & Ha0 & Hp0 & Hex0)] H.
  - rewrite (@resident_band_own self exclude_bands random_when_unavailable is_gpu
               class_bands band rng Hown) in H.
    congruence.
  - unfold resident_band in H. cbv zeta in H. rewrite Hp in H. cbn [negb] in H.
    inv_M.
    destruct (dict_get string_dec (_address_to_bands self) (fst band)) as [l|] eqn:El;
      cbn [lift_option] in H; inv_M.
    pose proof (@address_index_In self (fst band) a0 b0 self_reachable El) as Hl0.
    match type of H2 with
    | context [null (filter ?f a0)] => set (sel := filter f a0) in *
    end.
    assert (Hsel0 : In b0 sel).
    { apply filter_In. split; [apply Hl0; auto|].
      rewrite Hp0. apply band_in_false in Hex0. rewrite Hex0. reflexivity. }
    destruct sel as [|x sel'] eqn:Esel; [destruct Hsel0|].
    cbn [null negb] in H2.
    apply random_element_In in H2. destruct H2 as [Ha _].
    rewrite <- Esel in Ha. apply filter_In in Ha. destruct Ha as [Hal Hac].
    apply andb_true_iff in Hac. destruct Hac as [Hap Hae].
    apply negb_true_iff in Hae.
    apply (@address_index_In self (fst band) a0 a self_reachable El) in Hal.
    destruct Hal as [Hab Haa].
    assert (Hcls : band_in a class_bands = true).
    { apply band_in_true. apply class_bands_In; assumption. }
    rewrite Hcls, Hae in H1. cbn [negb orb] in H1. inv_M. exact Haa.
Qed.

Lemma add_sizes_worker size resident bs rng bs' rng' :
  (forall b, In b resident -> counts_on_worker self exclude_bands is_gpu b) ->
  add_sizes self exclude_bands random_when_unavailable is_gpu class_bands
    size resident bs rng = Ok (bs', rng') ->
  forall k, In k (keys bs') ->
            In k (keys bs) \/ exists b, In b resident /\ fst k = fst b.
Proof.
  revert bs rng. induction resident as [|b0 rest IH]; intros bs rng Hc; cbn [add_sizes];
    intros H k Hk.
  - inv_M. auto.
  - inv_M.
    destruct (IH _ _ (fun b Hb => Hc b (or_intror Hb)) H1 k Hk) as [Hin|(b & Hb & E)].
    + apply in_keys_dict_set in Hin. destruct Hin as [->|Hin]; [|auto].
      right. exists b0. split; [left; reflexivity|].
      eapply resident_band_worker; [apply Hc; left; reflexivity|exact H0].
    + right. exists b. split; [right; exact Hb|exact E].
Qed.

Lemma accumulate_sizes_worker inp_metas chunks bs rng bs' rng' :
  (forall b, In b (resident_bands inp_metas chunks) ->
             counts_on_worker self exclude_bands is_gpu b) ->
  accumulate_sizes self exclude_bands random_when_unavailable is_gpu class_bands
    inp_metas chunks bs rng = Ok (bs', rng') ->
  forall k, In k (keys bs') ->
            In k (keys bs) \/
            exists b, In b (resident_bands inp_metas chunks) /\ fst k = fst b.
Proof.
  revert bs rng. induction chunks as [|c rest IH]; intros bs rng Hc;
    cbn [accumulate_sizes resident_bands] in *; intros H k Hk.
  - inv_M. auto.
  - destruct (kind (op c)); try (eapply IH; eassumption).
    inv_M. destruct (dict_get string_dec inp_metas (key c)) as [meta|];
      cbn [lift_option] in H0; inv_M.
    destruct (IH _ _ (fun b Hb => Hc b (in_or_app _ _ _ (or_intror Hb))) H2 k Hk)
      as [Hin|(b & Hb & E)].
    + destruct (@add_sizes_worker _ _ _ _ _ _
                  (fun b Hb => Hc b (in_or_app _ _ _ (or_introl Hb)))
                  H k Hin) as [Hin'|(b & Hb & E)]; [auto|].
      right. exists b. split; [apply in_or_app; left; exact Hb|exact E].
    + right. exists b. split; [apply in_or_app; right; exact Hb|exact E].
Qed.
End SameWorker.

Lemma metas_read_bands get_chunk_meta g k meta' :
  metas_read get_chunk_meta g k = Some meta' ->
  exists meta, get_chunk_meta k = Some meta /\ bands meta' = bands meta.
Proof.
  unfold metas_read. destruct (mem string_dec k (inp_keys g)); [|discriminate].
  destruct (get_chunk_meta k) as [meta|]; [|discriminate]. cbn.
  intros H. exists meta. split; [reflexivity|].
  destruct (mem string_dec k (broadcaster_keys g)); inversion H; reflexivity.
Qed.

(** X12. Locality keeps a subtask on a worker that holds one of its inputs,
    also across device classes: when every band on which a [Fetch] input of
    a subtask assigned by locality resides either counts for itself or is
    of the other device class on a worker that has a non-excluded band of
    the class of the subtask, the band that [assign_subtasks] returns is on
    the worker of one of those resident bands.  (The state is one the actor
    reaches and subtask ids are distinct.) *)
Theorem assign_subtasks_same_worker :
  forall self cluster_bands get_chunk_meta subtasks exclude_bands
         random_when_unavailable rng assigns rng',
    reachable self ->
    NoDup (map subtask_id subtasks) ->
    assign_subtasks self cluster_bands get_chunk_meta subtasks exclude_bands
      random_when_unavailable rng = Ok (assigns, rng') ->
    let self' := ensure_bands self cluster_bands in
    Forall2 (fun subtask band =>
               by_locality subtask ->
               (forall c meta b,
                   In c (iter_indep (chunk_graph subtask)) -> kind (op c) = Fetch ->
                   get_chunk_meta (key c) = Some meta -> In b (bands meta) ->
                   counts_on_worker self' exclude_bands (subtask_is_gpu subtask) b) ->
               exists c meta b,
                 In c (iter_indep (chunk_graph subtask)) /\ kind (op c) = Fetch /\
                 get_chunk_meta (key c) = Some meta /\ In b (bands meta) /\
                 fst band = fst b)
            subtasks assigns.
Proof.
  intros self cluster get_meta subtasks excl rwu rng assigns rng' Hr Hnd H.
  cbv zeta. unfold assign_subtasks in H.
  destruct (assign_by_locality _ _ _ _ _ _ Hnd H) as (g & metas & Ht & _ & F).
  eapply Forall2_weaken; [|exact F].
  intros s band _ Hs Hl Hc. apply preselected_false in Hl.
  destruct (Hs Hl) as (bs & r & r' & Hacc & Hin).
  set (st := ensure_bands self cluster) in *.
  assert (Hst : reachable st) by (apply reachable_assign; exact Hr).
  assert (Hkey : In band (keys bs)).
  { apply max_size_bands_In in Hin. destruct Hin as [[[] _]|(size & Hsz & _)].
    apply (in_map fst) in Hsz. exact Hsz. }
  assert (Hres : forall b, In b (resident_bands metas (iter_indep (chunk_graph s))) ->
                   exists c meta,
                     In c (iter_indep (chunk_graph s)) /\ kind (op c) = Fetch /\
                     get_meta (key c) = Some meta /\ In b (bands meta)).
  { intros b Hb. apply resident_bands_In in Hb.
    destruct Hb as (c & meta' & Hcin & Hf & Hm' & Hbm).
    rewrite Ht in Hm'. apply metas_read_bands in Hm'.
    destruct Hm' as (meta & Hm & Eb). rewrite Eb in Hbm. eauto 8. }
  destruct (@accumulate_sizes_worker st excl rwu (subtask_is_gpu s) Hst metas
              (iter_indep (chunk_graph s)) [] r bs r') with (k := band)
    as [[]|(b & Hb & E)].
  - intros b Hb. destruct (Hres b Hb) as (c & meta & Hcin & Hf & Hm & Hbm). eauto.
  - exact Hacc.
  - exact Hkey.
  - destruct (Hres b Hb) as (c & meta & Hcin & Hf & Hm & Hbm).
    exists c, meta, b. auto.
Qed.

Lemma assign_subtasks_same_worker_witness :
  Forall2 (fun subtask band =>
             by_locality subtask ->
             (forall c meta b,
                 In c (iter_indep (chunk_graph subtask)) -> kind (op c) = Fetch ->
                 S1_metas (key c) = Some meta -> In b (bands meta) ->
                 counts_on_worker (ensure_bands (_update_bands [B1; B2; GPU0; GPU1]) [])
                   [] (subtask_is_gpu subtask) b) ->
             exists c meta b,
               In c (iter_indep (chunk_graph subtask)) /\ kind (op c) = Fetch /\
               S1_metas (key c) = Some meta /\ In b (bands meta) /\
               fst band = fst b)
    [subtask_of [{| op := {| gpu := true; kind := Fetch |};
                    key := "k1"; is_broadcaster := false |}]]
    [GPU1].
Proof.
  apply (@assign_subtasks_same_worker (_update_bands [B1; B2; GPU0; GPU1]) [] S1_metas
           [subtask_of [{| op := {| gpu := true; kind := Fetch |};
                           key := "k1"; is_broadcaster := false |}]]
           [] true [1%nat; 0%nat] [GPU1] []).
  - apply (reachable_watch [B1; B2; GPU0; GPU1] reachable_init).
  - repeat constructor. intros [].
  - reflexivity.
Defined.

(** ** Assignment by locality: inputs that reside nowhere, or on a worker
    that is gone *)

(** A call for a single subtask assigned by locality whose inputs have
    metadata gets as far as the second loop, with the metadata of the
    inputs in [inp_metas]. *)
Lemma assign_single_locality self get_chunk_meta exclude_bands rwu subtask rng :
  by_locality subtask ->
  (forall c, In c (iter_indep (chunk_graph subtask)) -> kind (op c) = Fetch ->
             get_chunk_meta (key c) <> None) ->
  exists g inp_metas,
    dict_get string_dec (selected_bands g) (subtask_id subtask) = None /\
    (forall c, In c (iter_indep (chunk_graph subtask)) -> kind (op c) = Fetch ->
               exists meta meta',
                 get_chunk_meta (key c) = Some meta /\
                 dict_get string_dec inp_metas (key c) = Some meta' /\
                 bands meta' = bands meta) /\
    assign_with_bands self get_chunk_meta exclude_bands rwu [subtask] rng
    = assign_each self exclude_bands rwu g inp_metas [subtask] rng.
Proof.
  intros [He Hsh] Hin.
  set (chunks := iter_indep (chunk_graph subtask)) in *.
  unfold has_shuffle in Hsh. fold chunks in Hsh.
  destruct (gather_inputs_locality self exclude_bands rwu subtask chunks no_keys rng Hsh)
    as (g & Hg).
  pose proof (gather_inputs_Ok _ _ _ _ _ _ _ Hg) as (Hgrow & Hrest).
  rewrite Hsh in Hrest. destruct Hrest as (_ & Hsel & Hkeys).
  pose proof (gather_inputs_keys _ _ _ _ _ _ _ Hg) as Hfrom.
  assert (Hall : forall k, In k (inp_keys g) -> get_chunk_meta k <> None).
  { intros k Hk. destruct (Hfrom k Hk) as [[]|(c & Hc & Hf & <-)]. auto. }
  destruct (@fetch_metas_total get_chunk_meta (inp_keys g) rng Hall) as (metas0 & Hfm & Hk0).
  destruct (@zero_broadcasters_total (broadcaster_keys g) metas0 rng) as (metas & Hz & _).
  { rewrite Hk0. destruct Hgrow as (_ & _ & Hinv). apply Hinv. simpl. apply incl_refl. }
  exists g, metas. split; [|split].
  - rewrite Hsel. reflexivity.
  - intros c Hc Hf. destruct (Hkeys c Hc Hf) as (Hik & _).
    destruct (get_chunk_meta (key c)) as [meta|] eqn:Hm; [|destruct (Hin c Hc Hf Hm)].
    rewrite (zero_broadcasters_get _ _ _ Hz), (fetch_metas_get _ _ _ Hfm).
    apply (proj2 (mem_true string_dec _ _)) in Hik. rewrite Hik, Hm. cbn.
    destruct (mem string_dec (key c) (broadcaster_keys g)).
    + exists meta, (zeroed meta). repeat split; auto.
    + exists meta, meta. repeat split; auto.
  - unfold assign_with_bands. cbn [gather_subtasks].
    erewrite bind_Ok_intro.
    2:{ erewrite bind_Ok_intro; [reflexivity|].
        unfold gather_subtask. rewrite He. cbn [null negb]. exact Hg. }
    erewrite bind_Ok_intro by exact Hfm.
    erewrite bind_Ok_intro by exact Hz.
    reflexivity.
Qed.

Lemma accumulate_sizes_nowhere self exclude_bands rwu is_gpu filtered_bands
      inp_metas chunks bs rng :
  (forall c, In c chunks -> kind (op c) = Fetch ->
             exists meta, dict_get string_dec inp_metas (key c) = Some meta /\
                          bands meta = []) ->
  accumulate_sizes self exclude_bands rwu is_gpu filtered_bands inp_metas chunks bs rng
  = Ok (bs, rng).
Proof.
  induction chunks as [|c rest IH]; intros H; cbn [accumulate_sizes]; [reflexivity|].
  assert (IH' := IH (fun c' Hc' => H c' (or_intror Hc'))).
  destruct (kind (op c)) eqn:Ek; [|exact IH'|exact IH'].
  destruct (H c (or_introl eq_refl) Ek) as (meta & Hm & Hb).
  rewrite Hm. cbn [lift_option]. unfold bind at 1. unfold ret at 1.
  rewrite Hb. cbn [add_sizes]. unfold bind at 1. unfold ret at 1. exact IH'.
Qed.

(** X13. A subtask assigned by locality none of whose [Fetch] inputs
    resides on a band (in particular a subtask without [Fetch] source) is
    not assigned: with bands of its device class present and the metadata
    of its inputs available, the call for that subtask raises [ValueError],
    because the random choice is made among no band. *)
Theorem assign_subtasks_no_resident_band :
  forall self cluster_bands get_chunk_meta subtask exclude_bands
         random_when_unavailable rng,
    by_locality subtask ->
    device_bands (ensure_bands self cluster_bands) subtask <> [] ->
    (forall c, In c (iter_indep (chunk_graph subtask)) -> kind (op c) = Fetch ->
               exists meta, get_chunk_meta (key c) = Some meta /\ bands meta = []) ->
    assign_subtasks self cluster_bands get_chunk_meta [subtask] exclude_bands
      random_when_unavailable rng = Err ValueError.
Proof.
  intros self cluster get_meta s excl rwu rng Hl Hdev Hm.
  unfold assign_subtasks. set (st := ensure_bands self cluster) in *.
  destruct (@assign_single_locality st get_meta excl rwu s rng Hl)
    as (g & metas & Hsel & Htable & ->).
  { intros c Hc Hf. destruct (Hm c Hc Hf) as (meta & -> & _). discriminate. }
  cbn [assign_each]. apply bind_Err. unfold assign_subtask.
  assert (Hcand : candidate_bands st excl rwu g metas s rng = Ok ([], rng)).
  { unfold candidate_bands.
    erewrite bind_Ok_intro.
    2:{ unfold _get_device_bands. cbv zeta. fold (device_bands st s).
        apply null_false in Hdev. rewrite Hdev. reflexivity. }
    rewrite Hsel.
    assert (Hacc : accumulate_sizes st excl rwu (subtask_is_gpu s)
                     (dict_get_default string_dec (_device_type_to_bands st)
                        (device_prefix (subtask_is_gpu s)) [])
                     metas (iter_indep (chunk_graph s)) [] rng = Ok ([], rng)).
    { apply accumulate_sizes_nowhere.
      intros c Hc Hf. destruct (Htable c Hc Hf) as (meta & meta' & Hg & Hg' & Eb).
      destruct (Hm c Hc Hf) as (meta1 & Hg1 & Hb1).
      exists meta'. split; [exact Hg'|]. rewrite Eb. congruence. }
    erewrite bind_Ok_intro by exact Hacc. reflexivity. }
  erewrite bind_Ok_intro by exact Hcand. reflexivity.
Qed.

Lemma assign_subtasks_no_resident_band_witness :
  assign_subtasks (_update_bands [B1; B2]) [] S1_metas
    [subtask_of [{| op := {| gpu := false; kind := OtherOperand |};
                    key := "c"; is_broadcaster := false |}]] [] true []
  = Err ValueError.
Proof.
  apply (@assign_subtasks_no_resident_band (_update_bands [B1; B2]) [] S1_metas
           (subtask_of [{| op := {| gpu := false; kind := OtherOperand |};
                           key := "c"; is_broadcaster := false |}]) [] true []).
  - split; reflexivity.
  - discriminate.
  - simpl. intros c [<-|[]]. discriminate.
Defined.

(** X14. An input on a worker that is gone fails the call when it is held
    by the other device class: for a subtask assigned by locality whose
    first source is a [Fetch] input with metadata, if the first band on
    which that input resides has a name that does not start with the prefix
    of the device class of the subtask and no band of the band list has its
    address, [assign_subtasks] raises [KeyError] from the lookup in the
    address index.  (The state is one the actor reaches, bands of the
    class of the subtask exist and the other inputs have metadata.) *)
Theorem assign_subtasks_unknown_worker :
  forall self cluster_bands get_chunk_meta subtask exclude_bands
         random_when_unavailable rng c rest meta band others,
    reachable self ->
    by_locality subtask ->
    device_bands (ensure_bands self cluster_bands) subtask <> [] ->
    iter_indep (chunk_graph subtask) = c :: rest ->
    kind (op c) = Fetch ->
    get_chunk_meta (key c) = Some meta ->
    bands meta = band :: others ->
    (forall c', In c' rest -> kind (op c') = Fetch -> get_chunk_meta (key c') <> None) ->
    startswith (device_prefix (subtask_is_gpu subtask)) (snd band) = false ->
    (forall b, In b (_bands (ensure_bands self cluster_bands)) -> fst b <> fst band) ->
    assign_subtasks self cluster_bands get_chunk_meta [subtask] exclude_bands
      random_when_unavailable rng = Err KeyError.
Proof.
  intros self cluster get_meta s excl rwu rng c rest meta band others
         Hr Hl Hdev Hchunks Hf Hmeta Hbands Hrest Hp Hgone.
  unfold assign_subtasks. set (st := ensure_bands self cluster) in *.
  assert (Hst : reachable st) by (apply reachable_assign; exact Hr).
  destruct (@assign_single_locality st get_meta excl rwu s rng Hl)
    as (g & metas & Hsel & Htable & ->).
  { rewrite Hchunks. intros c' [<-|Hc'] Hf'; [congruence|auto]. }
  cbn [assign_each]. apply bind_Err. unfold assign_subtask. apply bind_Err.
  unfold candidate_bands.
  erewrite bind_Ok_intro.
  2:{ unfold _get_device_bands. cbv zeta. fold (device_bands st s).
      apply null_false in Hdev. rewrite Hdev. reflexivity. }
  rewrite Hsel. apply bind_Err.
  rewrite Hchunks in *. cbn [accumulate_sizes]. rewrite Hf.
  destruct (Htable c (or_introl eq_refl) Hf) as (meta0 & meta' & Hg & Hg' & Eb).
  rewrite Hg'. cbn [lift_option]. unfold bind at 1. unfold ret at 1.
  apply bind_Err.
  assert (Eb' : bands meta' = band :: others) by congruence.
  rewrite Eb'. cbn [add_sizes]. apply bind_Err.
  unfold resident_band. cbv zeta. rewrite Hp. cbn [negb].
  apply bind_Err. apply bind_Err.
  assert (Hnone : dict_get string_dec (_address_to_bands st) (fst band) = None).
  { rewrite (reachable_updated Hst). rewrite address_index_get.
    rewrite filter_none; [reflexivity|].
    intros b Hb. apply String.eqb_neq. apply Hgone.
    apply (Permutation_in _ (sorted_perm band_leb (_bands st))). exact Hb. }
  rewrite Hnone. reflexivity.
Qed.

Lemma assign_subtasks_unknown_worker_witness :
  assign_subtasks (_update_bands [B1; GPU0]) [] S1_metas
    [subtask_of [{| op := {| gpu := true; kind := Fetch |};
                    key := "k2"; is_broadcaster := false |}]] [] true []
  = Err KeyError.
Proof.
  apply (@assign_subtasks_unknown_worker (_update_bands [B1; GPU0]) [] S1_metas
           (subtask_of [{| op := {| gpu := true; kind := Fetch |};
                           key := "k2"; is_broadcaster := false |}]) [] true []
           {| op := {| gpu := true; kind := Fetch |}; key := "k2"; is_broadcaster := false |}
           [] {| store_size := 10; bands := [B2] |} B2 []).
  - apply (reachable_watch [B1; GPU0] reachable_init).
  - split; reflexivity.
  - discriminate.
  - reflexivity.
  - reflexivity.
  - reflexivity.
  - reflexivity.
  - intros c' [].
  - reflexivity.
  - simpl. intros b H. decompose [or] H; subst; try discriminate; tauto.
Defined.

(** ** The name of the actor *)

Lemma string_length_append (s t : string) :
  String.length (String.append s t) = (String.length s + String.length t)%nat.
Proof. induction s as [|c s IH]; simpl; [reflexivity|]. rewrite IH. reflexivity. Qed.

Lemma string_append_cancel (s1 s2 t : string) :
  String.append s1 t = String.append s2 t -> s1 = s2.
Proof.
  revert s2. induction s1 as [|c1 s1 IH]; intros [|c2 s2] H; simpl in H.
  - reflexivity.
  - exfalso. apply (f_equal String.length) in H. simpl in H.
    rewrite string_length_append in H. lia.
  - exfalso. apply (f_equal String.length) in H. simpl in H.
    rewrite string_length_append in H. lia.
  - inversion H. f_equal. apply IH. assumption.
Qed.

(** X15. Sessions do not share an assigner: [gen_uid] gives different
    names to different session ids, and the name is never the session id
    itself. *)
Theorem gen_uid_injective (session_id session_id' : string) :
  (gen_uid session_id = gen_uid session_id' -> session_id = session_id') /\
  gen_uid session_id <> session_id.
Proof.
  unfold gen_uid. split.
  - apply string_append_cancel.
  - intros H. apply (f_equal String.length) in H.
    rewrite string_length_append in H. simpl in H. lia.
Qed.

Lemma gen_uid_injective_witness : "session-1" = "session-1".
Proof.
  apply (proj1 (gen_uid_injective "session-1" "session-1")). reflexivity.
Defined.

(** ** Rebalancing: bands that are no longer ready are drained *)

Lemma dict_get_filter (p : BandType -> bool) (d : dict BandType Z) k :
  p k = true ->
  dict_get band_eq_dec (filter (fun kv => p (fst kv)) d) k = dict_get band_eq_dec d k.
Proof.
  intros Hp. induction d as [|[k' v] d IH]; [reflexivity|]. cbn [filter fst dict_get].
  destruct (band_eq_dec k k') as [<-|Hn].
  - rewrite Hp. cbn [dict_get]. destruct (band_eq_dec k k); [reflexivity|congruence].
  - destruct (p k'); [|exact IH]. cbn [dict_get].
    destruct (band_eq_dec k k'); [congruence|exact IH].
Qed.

Lemma dict_get_map_key (f : BandType -> Z) (l : list BandType) k :
  dict_get band_eq_dec (map (fun b => (b, f b)) l) k
  = if band_in k l then Some (f k) else None.
Proof.
  induction l as [|b l IH]; [reflexivity|]. cbn [map dict_get].
  destruct (band_eq_dec k b) as [->|Hn].
  - rewrite (proj2 (band_in_true b (b :: l)) (or_introl eq_refl)). reflexivity.
  - rewrite IH. destruct (band_in k l) eqn:E.
    + apply band_in_true in E.
      rewrite (proj2 (band_in_true k (b :: l)) (or_intror E)). reflexivity.
    + apply band_in_false in E.
      assert (H : band_in k (b :: l) = false).
      { apply band_in_false. intros [X|X]; [congruence|tauto]. }
      rewrite H. reflexivity.
Qed.

Lemma working_set_get_unready order fb fq k :
  In k (keys fq) -> ~ In k fb ->
  In k (keys (working_set order fb fq)) /\
  dict_get_default band_eq_dec (working_set order fb fq) k 0
  = dict_get_default band_eq_dec fq k 0.
Proof.
  intros Hk Hn. unfold working_set.
  destruct (null (new_ready_bands order fb fq) && negb (null (unready_bands order fb fq)));
    [|auto].
  assert (Hu : In k (unready_bands order fb fq)) by (apply unready_bands_In; auto).
  split.
  - unfold keys. rewrite map_map. cbn [fst]. rewrite map_id. exact Hu.
  - unfold dict_get_default at 1.
    rewrite (dict_get_map_key (fun k => dict_get_default band_eq_dec fq k 0)).
    apply band_in_true in Hu. rewrite Hu. reflexivity.
Qed.

Lemma reassign_class_drains order self d is_gpu rng part rng' band :
  reachable self ->
  reassign_class order self d is_gpu [] rng = Ok (part, rng') ->
  In band (keys d) -> ~ In band (_bands self) ->
  has_prefix (device_prefix is_gpu) band = true ->
  (exists ready, In ready (_bands self) /\
                 has_prefix (device_prefix is_gpu) ready = true) ->
  dict_get band_eq_dec part band = Some (- dict_get_default band_eq_dec d band 0).
Proof.
  intros Hr H Hk Hn Hp (ready & Hready & Hpr). unfold reassign_class in H.
  set (p := device_prefix is_gpu) in *.
  set (fb := filter (has_prefix p) (_bands self)) in *.
  set (fq := filter (fun kv : BandType * Z => has_prefix p (fst kv)) d) in *.
  assert (Hfb : In ready fb) by (apply filter_In; auto).
  assert (Hnfb : ~ In band fb) by (intros X; apply filter_In in X; tauto).
  assert (Hkq : In band (keys fq)).
  { unfold fq. rewrite (keys_filter (has_prefix p) d). apply filter_In. auto. }
  assert (Hget : dict_get_default band_eq_dec fq band 0
                 = dict_get_default band_eq_dec d band 0).
  { unfold dict_get_default, fq. rewrite (dict_get_filter (has_prefix p) d band Hp).
    reflexivity. }
  destruct (null fb) eqn:Hnull.
  { apply null_true in Hnull. rewrite Hnull in Hfb. destruct Hfb. }
  destruct (single_used_band fb fq) as [b0|] eqn:Hsingle.
  { inv_M. destruct (single_used_band_cases _ _ Hsingle) as (len & Efq & Hlen).
    rewrite Efq in Hkq. destruct Hkq as [<-|[]]. cbn [fst] in *.
    destruct Hlen as [->|Efb]; [|rewrite Efb in Hnfb; exfalso; apply Hnfb; left; reflexivity].
    rewrite <- Hget, Efq. unfold dict_get_default. cbn.
    destruct (band_eq_dec b0 b0); [reflexivity|congruence]. }
  inv_M. rename a into mean, H0 into Hmean, a0 into bmn, H into H0.
  destruct (balance_Ok _ _ _ H0) as (_ & Hkeys & _).
  assert (Hnd : NoDup (keys bmn)) by (rewrite Hkeys; apply move_nums_NoDup).
  rewrite dict_update_app; [|exact Hnd|intros ? ? []]. cbn [app].
  destruct (working_set_get_unready order fb fq band Hkq Hnfb) as (Hws & Hwget).
  destruct (balance_credit _ _ _ band H0) as [E|(_ & Hrand & _)].
  - rewrite E, move_nums_get.
    assert (Hall : band_in band (all_bands_of order fb (working_set order fb fq)) = true).
    { apply band_in_true, all_bands_of_In. right. exact Hws. }
    rewrite Hall. unfold move_num.
    rewrite (proj2 (band_in_false band fb) Hnfb), Hwget, Hget. reflexivity.
  - exfalso. apply Hn. eapply random_band_cpu_is_numa; [exact Hr|exact Hrand].
Qed.

(** X16. A band that is no longer ready is drained: for a band that the
    input records and that is not in the band list, whose name starts with
    "numa" or "gpu" and whose class still has a band in the band list, the
    map that [reassign_subtasks] returns has an entry, and its move is
    minus the number of subtasks queued on the band.  (The state is one the
    actor reaches.) *)
Theorem reassign_subtasks_drains order self band_to_queued_num rng m rng' is_gpu band :
  reachable self ->
  reassign_subtasks order self band_to_queued_num rng = Ok (m, rng') ->
  In band (keys band_to_queued_num) ->
  ~ In band (_bands self) ->
  has_prefix (device_prefix is_gpu) band = true ->
  (exists ready, In ready (_bands self) /\
                 has_prefix (device_prefix is_gpu) ready = true) ->
  dict_get band_eq_dec m band
  = Some (- dict_get_default band_eq_dec band_to_queued_num band 0).
Proof.
  intros Hr H Hk Hn Hp Hready.
  destruct (reassign_subtasks_get _ _ _ _ H) as (cpu & gpu & rng1 & H1 & H2 & Hget).
  rewrite Hget. destruct is_gpu.
  - assert (E : has_prefix "numa" band = false).
    { destruct (has_prefix "numa" band) eqn:E; [|reflexivity].
      assert (X : true = false); [|discriminate X].
      apply (@device_prefix_exclusive true false band); [exact Hp|exact E]. }
    rewrite E. eapply reassign_class_drains; eauto.
  - change (has_prefix "numa" band = true) in Hp. rewrite Hp.
    eapply reassign_class_drains; eauto.
Qed.

Lemma reassign_subtasks_drains_witness :
  dict_get band_eq_dec [(B3, -6); (B1, 1); (B2, 5)] B3
  = Some (- dict_get_default band_eq_dec [(B1, 4); (B3, 6)] B3 0).
Proof.
  apply (@reassign_subtasks_drains insertion_order (_update_bands [B1; B2])
           [(B1, 4); (B3, 6)] [] [(B3, -6); (B1, 1); (B2, 5)] [] false B3).
  - apply (reachable_watch [B1; B2] reachable_init).
  - reflexivity.
  - simpl. auto.
  - simpl. intros H. decompose [or] H; try discriminate; tauto.
  - reflexivity.
  - exists B1. split; [simpl; auto|reflexivity].
Defined.

(** ** Assignment: which metadata is read *)

Lemma fetch_metas_ext (gm1 gm2 : string -> option ChunkMeta) ks rng :
  (forall k, In k ks -> gm1 k = gm2 k) ->
  fetch_metas gm1 ks rng = fetch_metas gm2 ks rng.
Proof.
  revert rng. induction ks as [|k ks IH]; intros rng H; cbn [fetch_metas]; [reflexivity|].
  rewrite (H k (or_introl eq_refl)). unfold bind at 1 3.
  destruct (lift_option ChunkMetaMissing (gm2 k) rng) as [[meta r]|e]; [|reflexivity].
  unfold bind. rewrite (IH r (fun k' Hk' => H k' (or_intror Hk'))). reflexivity.
Qed.

Lemma gather_subtask_keys self exclude_bands rwu g subtask rng g' rng' :
  gather_subtask self exclude_bands rwu g subtask rng = Ok (g', rng') ->
  forall k, In k (inp_keys g') ->
            In k (inp_keys g) \/
            (expect_bands_list subtask = [] /\
             exists c, In c (iter_indep (chunk_graph subtask)) /\
                       kind (op c) = Fetch /\ key c = k).
Proof.
  unfold gather_subtask. intros H k Hk.
  destruct (expect_bands_list subtask) as [|b l] eqn:He; cbn [null negb] in H.
  - destruct (gather_inputs_keys _ _ _ _ _ _ _ H k Hk) as [Hin|Hc]; auto.
  - left. match type of H with
          | (if null ?x then _ else _) _ = _ => destruct (null x)
          end; inv_M; exact Hk.
Qed.

Lemma gather_subtasks_keys self exclude_bands rwu subtasks g rng g' rng' :
  gather_subtasks self exclude_bands rwu subtasks g rng = Ok (g', rng') ->
  forall k, In k (inp_keys g') ->
            In k (inp_keys g) \/
            exists subtask c,
              In subtask subtasks /\ expect_bands_list subtask = [] /\
              In c (iter_indep (chunk_graph subtask)) /\
              kind (op c) = Fetch /\ key c = k.
Proof.
  revert g rng. induction subtasks as [|s rest IH]; intros g rng; cbn [gather_subtasks];
    intros H k Hk.
  - inv_M. auto.
  - inv_M. destruct (IH _ _ H1 k Hk) as [Hin|(s' & c & Hs' & Hr)].
    + destruct (gather_subtask_keys _ _ _ _ _ _ H0 k Hin) as [Hg|(He & c & Hc)]; [auto|].
      right. exists s, c. split; [left; reflexivity|]. tauto.
    + right. exists s', c. split; [right; exact Hs'|exact Hr].
Qed.

(** X17. [assign_subtasks] reads the metadata of the [Fetch] sources of the
    subtasks without expected bands and of no other chunk: two metadata
    services that agree on the keys of those chunks give the same outcome,
    bands and errors alike, on every random stream. *)
Theorem assign_subtasks_metadata_read :
  forall self cluster_bands (get_chunk_meta get_chunk_meta' : string -> option ChunkMeta)
         subtasks exclude_bands random_when_unavailable rng,
    (forall subtask c,
        In subtask subtasks -> expect_bands_list subtask = [] ->
        In c (iter_indep (chunk_graph subtask)) -> kind (op c) = Fetch ->
        get_chunk_meta (key c) = get_chunk_meta' (key c)) ->
    assign_subtasks self cluster_bands get_chunk_meta subtasks exclude_bands
      random_when_unavailable rng
    = assign_subtasks self cluster_bands get_chunk_meta' subtasks exclude_bands
        random_when_unavailable rng.
Proof.
  intros self cluster gm1 gm2 subtasks excl rwu rng Hagree.
  unfold assign_subtasks, assign_with_bands. unfold bind at 1 4.
  destruct (gather_subtasks (ensure_bands self cluster) excl rwu subtasks no_keys rng)
    as [[g r1]|e] eqn:Hg; [|reflexivity].
  unfold bind at 1 3. rewrite (@fetch_metas_ext gm1 gm2 (inp_keys g) r1); [reflexivity|].
  intros k Hk.
  destruct (gather_subtasks_keys _ _ _ _ _ _ Hg k Hk) as [[]|(s & c & Hs & He & Hc & Hf & <-)].
  apply (Hagree s c); assumption.
Qed.

Lemma assign_subtasks_metadata_read_witness :
  assign_subtasks (_update_bands [B1; B2]) [] S1_metas [S1_subtask] [] true []
  = assign_subtasks (_update_bands [B1; B2]) []
      (fun k => if String.eqb k "k3" then None else S1_metas k)
      [S1_subtask] [] true [].
Proof.
  apply (@assign_subtasks_metadata_read (_update_bands [B1; B2]) [] S1_metas
           (fun k => if String.eqb k "k3" then None else S1_metas k)
           [S1_subtask] [] true []).
  intros s c Hs He Hc Hf. simpl in Hs. destruct Hs as [<-|[]].
  simpl in Hc. destruct Hc as [<-|[<-|[]]]; reflexivity.
Defined.

(** ** Rebalancing does not depend on the iteration order of the sets *)

Lemma dict_update_NoDup (m p : dict BandType Z) :
  NoDup (keys m) -> NoDup (keys (dict_update band_eq_dec m p)).
Proof.
  revert m. induction p as [|[k v] p IH]; intros m H; [exact H|].
  unfold dict_update in *. cbn [fold_left fst snd]. apply IH. apply NoDup_dict_set. exact H.
Qed.

Lemma dict_get_update (m p : dict BandType Z) k :
  NoDup (keys p) ->
  dict_get band_eq_dec (dict_update band_eq_dec m p) k
  = match dict_get band_eq_dec p k with
    | Some v => Some v
    | None => dict_get band_eq_dec m k
    end.
Proof.
  revert m. induction p as [|[k0 v0] p IH]; intros m Hnd; [reflexivity|].
  inversion Hnd as [|? ? Hk0 Hp]; subst.
  unfold dict_update in *. cbn [fold_left fst snd]. rewrite (IH _ Hp).
  cbn [dict_get]. rewrite dict_get_set.
  destruct (band_eq_dec k k0) as [->|Hn]; [|reflexivity].
  rewrite (proj2 (dict_get_None band_eq_dec p k0) Hk0). reflexivity.
Qed.

Lemma same_entries_update (m m' p p' : dict BandType Z) :
  NoDup (keys p) -> NoDup (keys p') ->
  same_entries m m' -> same_entries p p' ->
  same_entries (dict_update band_eq_dec m p) (dict_update band_eq_dec m' p').
Proof.
  intros Hp Hp' Hm Hpp k. rewrite !dict_get_update by assumption.
  rewrite (Hpp k), (Hm k). reflexivity.
Qed.

Lemma same_entries_Permutation (m m' : dict BandType Z) :
  NoDup (keys m) -> NoDup (keys m') -> same_entries m m' -> Permutation m m'.
Proof.
  intros Hm Hm' He. apply NoDup_Permutation.
  - eapply NoDup_map_inv. exact Hm.
  - eapply NoDup_map_inv. exact Hm'.
  - intros [k v]. split; intros H.
    + apply dict_get_In with (K_eq_dec := band_eq_dec). rewrite <- He.
      apply dict_get_NoDup; assumption.
    + apply dict_get_In with (K_eq_dec := band_eq_dec). rewrite He.
      apply dict_get_NoDup; assumption.
Qed.

Lemma null_Permutation A (l l' : list A) : Permutation l l' -> null l = null l'.
Proof.
  intros H. destruct l, l'; try reflexivity.
  - apply Permutation_nil in H. discriminate.
  - apply Permutation_sym, Permutation_nil in H. discriminate.
Qed.

Lemma band_in_Permutation b (l l' : list BandType) :
  Permutation l l' -> band_in b l = band_in b l'.
Proof.
  intros H. destruct (band_in b l') eqn:E.
  - apply band_in_true. apply band_in_true in E.
    apply (Permutation_in _ (Permutation_sym H)). exact E.
  - apply band_in_false. apply band_in_false in E.
    intros X. apply E. apply (Permutation_in _ H). exact X.
Qed.

Section SetOrder.
Variables order order' : SetOrder.
Variable self : AssignerActor.
Variable fb : list BandType.
Variable fq : dict BandType Z.

Lemma set_iter_orders l : Permutation (set_iter order l) (set_iter order' l).
Proof.
  rewrite (set_iter_perm order l). symmetry. apply set_iter_perm.
Qed.

Lemma working_set_orders :
  sum (values (working_set order fb fq)) = sum (values (working_set order' fb fq)) /\
  (forall k, dict_get_default band_eq_dec (working_set order fb fq) k 0
             = dict_get_default band_eq_dec (working_set order' fb fq) k 0) /\
  Permutation (keys (working_set order fb fq)) (keys (working_set order' fb fq)).
Proof.
  unfold working_set, new_ready_bands, unready_bands.
  set (N := set_difference band_eq_dec fb (keys fq)).
  set (U := set_difference band_eq_dec (keys fq) fb).
  rewrite (null_Permutation (set_iter_orders N)), (null_Permutation (set_iter_orders U)).
  destruct (null (set_iter order' N) && negb (null (set_iter order' U))).
  - pose proof (set_iter_orders U) as HU. split; [|split].
    + apply sum_Permutation. unfold values. rewrite !map_map. cbn [snd].
      apply Permutation_map. exact HU.
    + intros k. unfold dict_get_default.
      rewrite !(dict_get_map_key (fun k => dict_get_default band_eq_dec fq k 0)).
      rewrite (band_in_Permutation k HU). reflexivity.
    + unfold keys. rewrite !map_map. cbn [fst]. rewrite !map_id. exact HU.
  - split; [reflexivity|]. split; [reflexivity|apply Permutation_refl].
Qed.

Lemma mean_of_orders :
  mean_of fb (working_set order fb fq) = mean_of fb (working_set order' fb fq).
Proof.
  destruct working_set_orders as (Hsum & _). unfold mean_of. rewrite Hsum. reflexivity.
Qed.

Lemma move_nums_orders mean :
  let bmn := move_nums fb (working_set order fb fq) mean
               (all_bands_of order fb (working_set order fb fq)) in
  let bmn' := move_nums fb (working_set order' fb fq) mean
                (all_bands_of order' fb (working_set order' fb fq)) in
  same_entries bmn bmn' /\ sum (values bmn) = sum (values bmn').
Proof.
  destruct working_set_orders as (Hsum & Hget & Hkeys).
  set (ws := working_set order fb fq) in *. set (ws' := working_set order' fb fq) in *.
  assert (Hmove : forall k, move_num fb ws mean k = move_num fb ws' mean k).
  { intros k. unfold move_num. rewrite (Hget k). reflexivity. }
  assert (Hall : Permutation (all_bands_of order fb ws) (all_bands_of order' fb ws')).
  { apply NoDup_Permutation.
    - unfold all_bands_of, set_union.
      eapply Permutation_NoDup; [symmetry; apply set_iter_perm|]. apply NoDup_nodup.
    - unfold all_bands_of, set_union.
      eapply Permutation_NoDup; [symmetry; apply set_iter_perm|]. apply NoDup_nodup.
    - intros k. rewrite !all_bands_of_In.
      split; (intros [H|H]; [left; exact H|right]).
      + apply (Permutation_in _ Hkeys). exact H.
      + apply (Permutation_in _ (Permutation_sym Hkeys)). exact H. }
  cbv zeta. split.
  - intros k. rewrite !move_nums_get, (band_in_Permutation k Hall), (Hmove k). reflexivity.
  - rewrite !move_nums_values.
    + rewrite (map_ext _ _ Hmove). apply sum_Permutation, Permutation_map. exact Hall.
    + unfold all_bands_of, set_union.
      eapply Permutation_NoDup; [symmetry; apply set_iter_perm|]. apply NoDup_nodup.
    + unfold all_bands_of, set_union.
      eapply Permutation_NoDup; [symmetry; apply set_iter_perm|]. apply NoDup_nodup.
Qed.

Lemma balance_same (bmn bmn' : dict BandType Z) rng :
  same_entries bmn bmn' -> sum (values bmn) = sum (values bmn') ->
  match balance self bmn rng, balance self bmn' rng with
  | Ok (c, r), Ok (c', r') =>
      same_entries c c' /\ r = r' /\ keys c = keys bmn /\ keys c' = keys bmn'
  | Err e, Err e' => e = e'
  | _, _ => False
  end.
Proof.
  intros He Hs. unfold balance. rewrite <- Hs.
  destruct (sum (values bmn) >? 0); [reflexivity|].
  destruct (sum (values bmn) =? 0); cbn [negb].
  - unfold ret. auto.
  - unfold bind.
    destruct (_get_random_band self false [] true rng) as [[band r]|e]; [|reflexivity].
    rewrite <- (He band).
    destruct (dict_get band_eq_dec bmn band) as [num|] eqn:E; [|reflexivity].
    unfold ret. split; [|split; [reflexivity|split]].
    + intros k. rewrite !dict_get_set, (He k). reflexivity.
    + apply keys_dict_set_old. eapply dict_get_Some_key. exact E.
    + apply keys_dict_set_old. eapply dict_get_Some_key. rewrite <- (He band). exact E.
Qed.
End SetOrder.

Lemma reassign_class_set_order order order' self d is_gpu m m' rng :
  same_entries m m' ->
  same_outcome (reassign_class order self d is_gpu m rng)
               (reassign_class order' self d is_gpu m' rng).
Proof.
  intros Hm. unfold reassign_class.
  set (p := device_prefix is_gpu).
  set (fb := filter (has_prefix p) (_bands self)).
  set (fq := filter (fun kv : BandType * Z => has_prefix p (fst kv)) d).
  destruct (null fb); [split; [exact Hm|reflexivity]|].
  destruct (single_used_band fb fq) as [band|].
  { split; [|reflexivity].
    apply same_entries_update; try exact Hm; try (intros k; reflexivity);
      repeat constructor; intros []. }
  unfold bind, lift_result. rewrite <- (mean_of_orders order order' fb fq).
  destruct (mean_of fb (working_set order fb fq)) as [mean|e0]; [|reflexivity].
  destruct (move_nums_orders order order' fb fq mean) as (He & Hs).
  pose proof (balance_same self rng He Hs) as Hb.
  destruct (balance self
              (move_nums fb (working_set order fb fq) mean
                 (all_bands_of order fb (working_set order fb fq))) rng)
    as [[c r]|e];
    destruct (balance self
                (move_nums fb (working_set order' fb fq) mean
                   (all_bands_of order' fb (working_set order' fb fq))) rng)
      as [[c' r']|e']; try exact Hb; try destruct Hb.
  destruct H0 as (-> & Hk & Hk'). split; [|reflexivity].
  apply same_entries_update; try assumption.
  - rewrite Hk. apply move_nums_NoDup.
  - rewrite Hk'. apply move_nums_NoDup.
Qed.

Lemma reassign_class_NoDup order self d is_gpu m rng m' rng' :
  NoDup (keys m) ->
  reassign_class order self d is_gpu m rng = Ok (m', rng') -> NoDup (keys m').
Proof.
  intros Hm. unfold reassign_class.
  destruct (null _); [intros H; inv_M; exact Hm|].
  destruct (single_used_band _ _).
  - intros H. inv_M. apply dict_update_NoDup. exact Hm.
  - intros H. inv_M. apply dict_update_NoDup. exact Hm.
Qed.

(** X18. The outcome of [reassign_subtasks] does not depend on the order in
    which Python iterates over the sets it builds: for any two iteration
    orders the call raises the same error, or returns maps with exactly the
    same entries (possibly in another order) after the same random
    draws. *)
Theorem reassign_subtasks_set_order order order' self band_to_queued_num rng :
  same_moves (reassign_subtasks order self band_to_queued_num rng)
             (reassign_subtasks order' self band_to_queued_num rng).
Proof.
  rename band_to_queued_num into d. unfold reassign_subtasks.
  pose proof (@reassign_class_set_order order order' self d false [] [] rng
                (fun k => eq_refl)) as H1.
  unfold bind at 1 3.
  destruct (reassign_class order self d false [] rng) as [[cpu r]|e] eqn:E1;
    destruct (reassign_class order' self d false [] rng) as [[cpu' r']|e'] eqn:E1';
    try exact H1; try destruct H1.
  subst r'.
  pose proof (@reassign_class_set_order order order' self d true cpu cpu' r H) as H2.
  unfold bind.
  destruct (reassign_class order self d true cpu r) as [[all r2]|e] eqn:E2;
    destruct (reassign_class order' self d true cpu' r) as [[all' r2']|e'] eqn:E2';
    try exact H2; try destruct H2.
  unfold ret, same_moves. split; [|assumption].
  assert (Hnd : NoDup (keys all)).
  { eapply reassign_class_NoDup; [|exact E2].
    eapply reassign_class_NoDup; [|exact E1]. constructor. }
  assert (Hnd' : NoDup (keys all')).
  { eapply reassign_class_NoDup; [|exact E2'].
    eapply reassign_class_NoDup; [|exact E1']. constructor. }
  assert (Hs : forall x, NoDup (keys x) ->
                 dict_of_items band_eq_dec (sorted move_leb x) = sorted move_leb x).
  { intros x Hx. apply dict_of_items_NoDup.
    eapply Permutation_NoDup; [|exact Hx].
    apply Permutation_map. symmetry. apply sorted_perm. }
  rewrite (Hs all Hnd), (Hs all' Hnd').
  rewrite (sorted_perm move_leb all), (sorted_perm move_leb all').
  apply same_entries_Permutation; assumption.
Qed.

(** ** Rebalancing: no band gives away more than it holds *)

Lemma working_set_get_le order fb fq k :
  (forall v, In v (values fq) -> 0 <= v) ->
  dict_get_default band_eq_dec (working_set order fb fq) k 0
  <= dict_get_default band_eq_dec fq k 0.
Proof.
  intros Hpos. unfold working_set.
  destruct (null (new_ready_bands order fb fq) && negb (null (unready_bands order fb fq)));
    [|lia].
  unfold dict_get_default at 1.
  rewrite (dict_get_map_key (fun k => dict_get_default band_eq_dec fq k 0)).
  destruct (band_in k (unready_bands order fb fq)); [lia|].
  apply get_default_nonneg. exact Hpos.
Qed.

Lemma reassign_class_no_overdraw order self d is_gpu rng part rng' band delta :
  (forall v, In v (values d) -> 0 <= v) ->
  reassign_class order self d is_gpu [] rng = Ok (part, rng') ->
  dict_get band_eq_dec part band = Some delta ->
  0 <= dict_get_default band_eq_dec d band 0 + delta.
Proof.
  intros Hpos H Hget. unfold reassign_class in H.
  set (p := device_prefix is_gpu) in *.
  set (fb := filter (has_prefix p) (_bands self)) in *.
  set (fq := filter (fun kv : BandType * Z => has_prefix p (fst kv)) d) in *.
  assert (Hd : 0 <= dict_get_default band_eq_dec d band 0)
    by (apply get_default_nonneg; exact Hpos).
  destruct (null fb) eqn:Hnull.
  { inv_M. discriminate Hget. }
  apply null_false in Hnull.
  destruct (single_used_band fb fq) as [b0|].
  { inv_M. cbn in Hget. destruct (band_eq_dec band b0); [|discriminate].
    inversion Hget; subst. lia. }
  inv_M. rename a into mean, H0 into Hmean, a0 into bmn, H into H0.
  destruct (balance_Ok _ _ _ H0) as (_ & Hkeys & _).
  assert (Hnd : NoDup (keys bmn)) by (rewrite Hkeys; apply move_nums_NoDup).
  rewrite dict_update_app in Hget; [|exact Hnd|intros ? ? []]. cbn [app] in Hget.
  set (ws := working_set order fb fq) in *.
  assert (Hfq : forall v, In v (values fq) -> 0 <= v).
  { intros v Hv. apply Hpos. eapply values_filter_In. exact Hv. }
  assert (Hmean0 : 0 <= mean).
  { apply (@mean_of_nonneg fb ws mean Hnull); [|exact Hmean].
    apply sum_nonneg. apply working_set_nonneg. exact Hfq. }
  assert (Hnum : exists num, dict_get band_eq_dec
                   (move_nums fb ws mean (all_bands_of order fb ws)) band
                 = Some num /\ num <= delta).
  { destruct (balance_credit _ _ _ band H0) as [E|(Ht & _ & num & En & E)].
    - rewrite E in Hget. exists delta. split; [exact Hget|lia].
    - rewrite E in Hget. inversion Hget; subst. exists num. split; [exact En|lia]. }
  destruct Hnum as (num & En & Hle). rewrite move_nums_get in En.
  destruct (band_in band (all_bands_of order fb ws)) eqn:Hall; [|discriminate].
  inversion En; subst num. clear En.
  assert (Hp : has_prefix p band = true).
  { apply band_in_true, all_bands_of_In in Hall. destruct Hall as [Hb|Hb].
    - apply filter_In in Hb. tauto.
    - apply working_set_keys in Hb. eapply filtered_keys_prefix. exact Hb. }
  assert (Hws : dict_get_default band_eq_dec ws band 0
                <= dict_get_default band_eq_dec d band 0).
  { pose proof (working_set_get_le order fb fq band Hfq) as Hw. fold ws in Hw.
    assert (E : dict_get_default band_eq_dec fq band 0
                = dict_get_default band_eq_dec d band 0).
    { unfold dict_get_default, fq. rewrite (dict_get_filter (has_prefix p) d band Hp).
      reflexivity. }
    lia. }
  unfold move_num in Hle. destruct (band_in band fb); lia.
Qed.

(** X19. No band is asked to give away more subtasks than it holds: for
    queue lengths that are not negative, every move in the map that
    [reassign_subtasks] returns is at least minus the queue length that the
    input records for the band (zero when it records none), so no queue is
    negative after the moves. *)
Theorem reassign_subtasks_no_overdraw order self band_to_queued_num rng m rng' band delta :
  (forall v, In v (values band_to_queued_num) -> 0 <= v) ->
  reassign_subtasks order self band_to_queued_num rng = Ok (m, rng') ->
  dict_get band_eq_dec m band = Some delta ->
  0 <= dict_get_default band_eq_dec band_to_queued_num band 0 + delta.
Proof.
  intros Hpos H Hget.
  destruct (reassign_subtasks_get _ _ _ _ H) as (cpu & gpu & rng1 & H1 & H2 & Hm).
  rewrite Hm in Hget. destruct (has_prefix "numa" band).
  - exact (@reassign_class_no_overdraw order self band_to_queued_num false rng cpu rng1
             band delta Hpos H1 Hget).
  - exact (@reassign_class_no_overdraw order self band_to_queued_num true rng1 gpu rng'
             band delta Hpos H2 Hget).
Qed.

Lemma reassign_subtasks_no_overdraw_witness :
  0 <= dict_get_default band_eq_dec [(B1, 9); (B3, 1)] B1 0 + -5.
Proof.
  apply (@reassign_subtasks_no_overdraw insertion_order (_update_bands [B1; B2; B3])
           [(B1, 9); (B3, 1)] [0%nat] [(B1, -5); (B3, 2); (B2, 3)] [] B1 (-5)).
  - simpl. intros v H. decompose [or] H; subst; try lia; tauto.
  - reflexivity.
  - reflexivity.
Defined.

(** ** Supervisor references: all or nothing *)

Lemma refs_all_located (addrs : list (option string)) (uids : list string) :
  List.length addrs = List.length uids ->
  existsb is_none addrs = false ->
  map fst (map (fun au : option string * string => (snd au, fst au)) (combine addrs uids))
  = uids /\
  map snd (map (fun au : option string * string => (snd au, fst au)) (combine addrs uids))
  = addrs /\
  forall a, In a addrs -> a <> None.
Proof.
  revert uids. induction addrs as [|a addrs IH]; intros [|u uids] Hlen Hex;
    try discriminate Hlen.
  - repeat split. intros a [].
  - cbn [existsb] in Hex. apply orb_false_iff in Hex. destruct Hex as [Ha Hex].
    injection Hlen as Hlen. destruct (IH uids Hlen Hex) as (H1 & H2 & H3).
    cbn [combine map fst snd]. rewrite H1, H2. repeat split.
    intros a' [<-|Hin]; [destruct a; [discriminate|discriminate Ha]|apply H3; exact Hin].
Qed.

Lemma first_none_uid_first (addrs : list (option string)) (uids : list string) :
  List.length addrs = List.length uids ->
  existsb is_none addrs = true ->
  exists i uid,
    first_none_uid (combine addrs uids) = Some uid /\
    nth_error uids i = Some uid /\ nth_error addrs i = Some None /\
    forall j, (j < i)%nat -> exists a, nth_error addrs j = Some (Some a).
Proof.
  revert uids. induction addrs as [|a addrs IH]; intros [|u uids] Hlen Hex;
    try discriminate Hlen; [discriminate Hex|].
  injection Hlen as Hlen. cbn [combine first_none_uid].
  destruct a as [a|]; cbn [is_none].
  - cbn [existsb is_none orb] in Hex.
    destruct (IH uids Hlen Hex) as (i & uid & H1 & H2 & H3 & H4).
    exists (S i), uid. repeat split; try assumption.
    intros [|j] Hj; [exists a; reflexivity|]. apply H4. lia.
  - exists O, u. repeat split. intros j Hj. lia.
Qed.

(** X20. [get_supervisor_refs] is all or nothing: given one address (or
    None) for each uid, it either returns a reference for every uid, in the
    order of the uids and each at the address found for it, when every uid
    has an address, or it raises [ActorNotExist] naming the first uid
    without an address; [next] always finds that uid. *)
Theorem get_supervisor_refs_outcome
  (get_supervisors_by_keys : list string -> list (option string)) (uids : list string) :
  List.length (get_supervisors_by_keys uids) = List.length uids ->
  match get_supervisor_refs get_supervisors_by_keys uids with
  | Refs refs =>
      map fst refs = uids /\ map snd refs = get_supervisors_by_keys uids /\
      forall a, In a (get_supervisors_by_keys uids) -> a <> None
  | ActorNotExist none_uid =>
      exists i,
        nth_error uids i = Some none_uid /\
        nth_error (get_supervisors_by_keys uids) i = Some None /\
        forall j, (j < i)%nat ->
                  exists a, nth_error (get_supervisors_by_keys uids) j = Some (Some a)
  | StopIteration => False
  end.
Proof.
  intros Hlen. unfold get_supervisor_refs. cbv zeta.
  destruct (existsb is_none (get_supervisors_by_keys uids)) eqn:Hex.
  - destruct (first_none_uid_first _ _ Hlen Hex) as (i & uid & -> & H2 & H3 & H4).
    exists i. auto.
  - apply refs_all_located; assumption.
Qed.

Lemma get_supervisor_refs_outcome_witness :
  exists i,
    nth_error ["node_info"; "autoscaler"; "locator"] i = Some "autoscaler" /\
    nth_error [Some "10.0.0.1:7001"; None; None] i = Some None /\
    forall j, (j < i)%nat ->
              exists a, nth_error [Some "10.0.0.1:7001"; None; None] j = Some (Some a).
Proof.
  exact (@get_supervisor_refs_outcome
           (fun _ => [Some "10.0.0.1:7001"; None; None])
           ["node_info"; "autoscaler"; "locator"] eq_refl).
Defined.

(** ** File systems: registration and lookup *)

Lemma resolved_scheme_other (exists_locally : bool) (url_scheme name : string) :
  name <> "file" -> exists_locally = true \/ url_scheme <> name ->
  (let scheme := if exists_locally then "file" else url_scheme in
   if String.eqb scheme "" || Nat.eqb (String.length scheme) 1 then "file" else scheme)
  <> name.
Proof.
  intros Hf H. cbv zeta. destruct exists_locally.
  - cbn. congruence.
  - destruct H as [H|H]; [discriminate|].
    destruct (String.eqb url_scheme "" || Nat.eqb (String.length url_scheme) 1);
      congruence.
Qed.

(** X21. A registered file system is the one [get_fs] finds: after
    [register_filesystem(name, fs)], with a name of two characters or more
    other than "file" and "oss", a path that does not exist locally and has
    the scheme [name] gets a new [fs], whatever was registered before, also
    when the scheme was only known for its missing dependencies; a
    registration under "file" replaces the file system of the paths that
    exist locally; and a registration under a name other than "file"
    changes nothing for paths that exist locally or have another
    scheme. *)
Theorem register_filesystem_get_fs :
  (forall filesystems name fs,
      (2 <= String.length name)%nat -> name <> "file" -> name <> "oss" ->
      Filesystem.get_fs (Filesystem.register_filesystem filesystems name fs) false name
      = Filesystem.Constructed fs) /\
  (forall filesystems fs url_scheme,
      Filesystem.get_fs (Filesystem.register_filesystem filesystems "file" fs)
        true url_scheme
      = Filesystem.Instance fs) /\
  (forall filesystems name fs exists_locally url_scheme,
      name <> "file" -> exists_locally = true \/ url_scheme <> name ->
      Filesystem.get_fs (Filesystem.register_filesystem filesystems name fs)
        exists_locally url_scheme
      = Filesystem.get_fs filesystems exists_locally url_scheme).
Proof.
  split; [|split].
  - intros fss name fs Hlen Hf Ho.
    unfold Filesystem.get_fs, Filesystem.register_filesystem. cbv zeta.
    assert (E1 : String.eqb name "" = false).
    { apply String.eqb_neq. intros ->. simpl in Hlen. lia. }
    assert (E2 : Nat.eqb (String.length name) 1 = false) by (apply Nat.eqb_neq; lia).
    rewrite E1, E2. cbn [orb]. rewrite dict_get_set.
    destruct (string_dec name name); [|congruence].
    apply String.eqb_neq in Hf, Ho. rewrite Hf, Ho. reflexivity.
  - intros fss fs url.
    unfold Filesystem.get_fs, Filesystem.register_filesystem. cbn.
    rewrite dict_get_set. destruct (string_dec "file" "file"); [reflexivity|congruence].
  - intros fss name fs loc url Hf H.
    pose proof (@resolved_scheme_other loc url name Hf H) as Hs.
    unfold Filesystem.get_fs, Filesystem.register_filesystem. cbv zeta in *.
    rewrite dict_get_set.
    match goal with
    | |- context [string_dec ?s name] => destruct (string_dec s name) as [E|E]
    end; [contradiction|reflexivity].
Qed.

Lemma register_filesystem_get_fs_witness :
  Filesystem.get_fs
    (Filesystem.register_filesystem Filesystem._filesystems "s3"
       (Filesystem.Registered "S3FileSystem")) false "s3"
  = Filesystem.Constructed (Filesystem.Registered "S3FileSystem").
Proof.
  apply (proj1 register_filesystem_get_fs).
  - simpl. lia.
  - discriminate.
  - discriminate.
Defined.

(** ** Parquet engines: what is checked can be built *)

(** X22. [get_engine] accepts whatever [check_engine] returns: a name that
    [check_engine] returns is "pyarrow" with pyarrow imported or
    "fastparquet" with fastparquet imported, [get_engine] builds the
    matching engine for it, and checking the name again returns it
    unchanged; a name other than "auto" is returned as it was given. *)
Theorem check_engine_get_engine (pa fastparquet : bool) (engine engine_type : string) :
  Parquet.check_engine pa fastparquet engine = Parquet.Returns engine_type ->
  ((engine_type = "pyarrow" /\ pa = true /\
    Parquet.get_engine engine_type = Parquet.Returns Parquet.ArrowEngine) \/
   (engine_type = "fastparquet" /\ fastparquet = true /\
    Parquet.get_engine engine_type = Parquet.Returns Parquet.FastpaquetEngine)) /\
  Parquet.check_engine pa fastparquet engine_type = Parquet.Returns engine_type /\
  (engine <> "auto" -> engine_type = engine).
Proof.
  unfold Parquet.check_engine.
  destruct (String.eqb_spec engine "auto") as [->|Ha].
  - destruct pa; [|destruct fastparquet]; intros H; inversion H; subst; cbn.
    + split; [left; auto|]. split; [reflexivity|congruence].
    + split; [right; auto|]. split; [reflexivity|congruence].
  - destruct (String.eqb_spec engine "pyarrow") as [->|Hp].
    + destruct pa; cbn [negb]; intros H; inversion H; subst; cbn.
      split; [left; auto|]. split; [reflexivity|auto].
    + destruct (String.eqb_spec engine "fastparquet") as [->|Hf]; [|discriminate].
      destruct fastparquet; cbn [negb]; intros H; inversion H; subst; cbn.
      split; [right; auto|]. split; [reflexivity|auto].
Qed.

Lemma check_engine_get_engine_witness :
  (("fastparquet" = "pyarrow" /\ false = true /\
    Parquet.get_engine "fastparquet" = Parquet.Returns Parquet.ArrowEngine) \/
   ("fastparquet" = "fastparquet" /\ true = true /\
    Parquet.get_engine "fastparquet" = Parquet.Returns Parquet.FastpaquetEngine)) /\
  Parquet.check_engine false true "fastparquet" = Parquet.Returns "fastparquet" /\
  ("auto" <> "auto" -> "fastparquet" = "auto").
Proof.
  apply (@check_engine_get_engine false true "auto" "fastparquet"). reflexivity.
Defined.

(** ** Parquet: the chunks of a data set that is not partitioned *)

Section TileFacts.
Variable groups_as_chunks : bool.
Variable num_row_groups : string -> nat.
Variable get_row_num : string -> Z.
Variable file_size : string -> Z.
Variable path_prefix : string.

Local Abbreviation groups_of :=
  (Parquet.tile_groups num_row_groups).
Local Abbreviation paths_of :=
  (Parquet.tile_paths groups_as_chunks num_row_groups get_row_num file_size path_prefix).

Lemma tile_groups_chunks pth fr fb groups ci out :
  exists new,
    groups_of pth fr fb groups ci out = ((ci + List.length groups)%nat, out ++ new) /\
    map Parquet.index new = seq ci (List.length groups) /\
    map Parquet.group_index new = map Some groups /\
    forall c, In c new ->
      Parquet.path c = pth /\
      Parquet.first_chunk_row_num c = fr /\
      Parquet.first_chunk_raw_bytes c = fb /\
      Parquet.num_group_rows c = Some (num_row_groups pth).
Proof.
  revert ci out. induction groups as [|g rest IH]; intros ci out; cbn [Parquet.tile_groups].
  - exists []. rewrite app_nil_r, Nat.add_0_r.
    split; [reflexivity|]. split; [reflexivity|]. split; [reflexivity|]. intros c [].
  - match goal with
    | |- context [out ++ [?c0]] => set (chunk0 := c0)
    end.
    destruct (IH (S ci) (out ++ [chunk0])) as (new & E & Hi & Hg & Hc).
    exists (chunk0 :: new). rewrite E, <- app_assoc. cbn [app List.length].
    rewrite Nat.add_succ_r. split; [reflexivity|].
    cbn [map seq]. rewrite Hi, Hg. split; [reflexivity|]. split; [reflexivity|].
    intros c' [<-|Hc']; [repeat split|apply Hc; exact Hc'].
Qed.

(** What the loop adds from position [i] on: the statistics of the first
    file are those read at position 0, or the ones handed in. *)
Let first_of (A : Type) (read : string -> A) (i : nat) (paths : list string)
  (handed : option A) : option A :=
  match paths with
  | [] => handed
  | pth :: _ =>
      if Nat.eqb i 0 then Some (read (String.append path_prefix pth)) else handed
  end.

Let count (paths : list string) : nat :=
  if groups_as_chunks
  then list_sum (map (fun pth => num_row_groups (String.append path_prefix pth)) paths)
  else List.length paths.

Let well_formed (c : Parquet.ChunkOp) : Prop :=
  match Parquet.group_index c with
  | Some group_idx =>
      groups_as_chunks = true /\
      (group_idx < num_row_groups (Parquet.path c))%nat /\
      Parquet.num_group_rows c = Some (num_row_groups (Parquet.path c))
  | None => groups_as_chunks = false /\ Parquet.num_group_rows c = None
  end.

Lemma tile_paths_chunks i paths fr fb ci out :
  exists new,
    paths_of i paths fr fb ci out = out ++ new /\
    map Parquet.index new = seq ci (count paths) /\
    forall c, In c new ->
      (exists pth, In pth paths /\ Parquet.path c = String.append path_prefix pth) /\
      Parquet.first_chunk_row_num c = first_of get_row_num i paths fr /\
      Parquet.first_chunk_raw_bytes c = first_of file_size i paths fb /\
      well_formed c.
Proof.
  revert i fr fb ci out. induction paths as [|p rest IH]; intros i fr fb ci out;
    cbn [Parquet.tile_paths].
  - exists []. rewrite app_nil_r. unfold count. destruct groups_as_chunks; cbn.
    + split; [reflexivity|]. split; [reflexivity|]. intros c [].
    + split; [reflexivity|]. split; [reflexivity|]. intros c [].
  - set (pth := String.append path_prefix p).
    set (fr' := if Nat.eqb i 0 then Some (get_row_num pth) else fr).
    set (fb' := if Nat.eqb i 0 then Some (file_size pth) else fb).
    assert (Hfr : forall l, first_of get_row_num (S i) l fr' = fr')
      by (intros [|? ?]; reflexivity).
    assert (Hfb : forall l, first_of file_size (S i) l fb' = fb')
      by (intros [|? ?]; reflexivity).
    unfold count. destruct groups_as_chunks eqn:Hgac.
    + destruct (tile_groups_chunks pth fr' fb' (seq 0 (num_row_groups pth)) ci out)
        as (new1 & E1 & Hi1 & Hg1 & Hc1).
      rewrite E1. rewrite length_seq in *.
      destruct (IH (S i) fr' fb' (ci + num_row_groups pth)%nat (out ++ new1))
        as (new2 & E2 & Hi2 & Hc2).
      exists (new1 ++ new2). rewrite E2, <- app_assoc. split; [reflexivity|].
      split.
      * rewrite map_app, Hi1, Hi2. unfold count. try rewrite Hgac.
        cbn [map list_sum]. fold pth. rewrite <- seq_app. reflexivity.
      * intros c Hc. apply in_app_or in Hc. destruct Hc as [Hc|Hc].
        -- destruct (Hc1 c Hc) as (Hp & Hr & Hb & Hn).
           split; [exists p; split; [left; reflexivity|exact Hp]|].
           split; [exact Hr|]. split; [exact Hb|].
           unfold well_formed.
           assert (Hg : In (Parquet.group_index c) (map Some (seq 0 (num_row_groups pth)))).
           { rewrite <- Hg1. apply in_map. exact Hc. }
           apply in_map_iff in Hg. destruct Hg as (g & <- & Hg).
           apply in_seq in Hg. rewrite Hp. repeat split; [lia|exact Hn].
        -- destruct (Hc2 c Hc) as ((q & Hq & Hp) & Hr & Hb & Hw).
           split; [exists q; split; [right; exact Hq|exact Hp]|].
           rewrite Hfr in Hr. rewrite Hfb in Hb. repeat split; assumption.
    + match goal with
      | |- context [out ++ [?c0]] => set (c1 := c0)
      end.
      destruct (IH (S i) fr' fb' (S ci) (out ++ [c1])) as (new2 & E2 & Hi2 & Hc2).
      exists (c1 :: new2). rewrite E2, <- app_assoc. split; [reflexivity|].
      split.
      * cbn [map List.length seq]. rewrite Hi2. unfold count. try rewrite Hgac. reflexivity.
      * intros c [<-|Hc].
        -- split; [exists p; split; [left; reflexivity|reflexivity]|].
           repeat split.
        -- destruct (Hc2 c Hc) as ((q & Hq & Hp) & Hr & Hb & Hw).
           split; [exists q; split; [right; exact Hq|exact Hp]|].
           rewrite Hfr in Hr. rewrite Hfb in Hb. repeat split; assumption.
Qed.

Lemma tile_chunks_facts paths :
  let out_chunks :=
    Parquet.tile_chunks groups_as_chunks num_row_groups get_row_num file_size
      path_prefix paths in
  map Parquet.index out_chunks = seq 0 (List.length out_chunks) /\
  List.length out_chunks = count paths /\
  forall c, In c out_chunks ->
    (exists pth, In pth paths /\ Parquet.path c = String.append path_prefix pth) /\
    Parquet.first_chunk_row_num c
    = option_map (fun pth => get_row_num (String.append path_prefix pth)) (hd_error paths) /\
    Parquet.first_chunk_raw_bytes c
    = option_map (fun pth => file_size (String.append path_prefix pth)) (hd_error paths) /\
    well_formed c.
Proof.
  cbv zeta. unfold Parquet.tile_chunks.
  destruct (tile_paths_chunks 0 paths None None 0 []) as (new & E & Hi & Hc).
  rewrite E. cbn [app].
  assert (Hlen : List.length new = count paths).
  { rewrite <- (length_map Parquet.index), Hi, length_seq. reflexivity. }
  split; [rewrite Hlen; exact Hi|]. split; [exact Hlen|].
  intros c Hin. destruct (Hc c Hin) as (Hp & Hr & Hb & Hw).
  split; [exact Hp|]. split; [|split; [|exact Hw]].
  - rewrite Hr. destruct paths; reflexivity.
  - rewrite Hb. destruct paths; reflexivity.
Qed.
End TileFacts.

(** X23. The chunks that [_tile_no_partitioned] makes from the paths it
    has resolved are numbered 0, 1, 2, ... in the order in which they are
    made; there is one chunk for each path or, with [groups_as_chunks], one
    for each row group of each file (a file without row groups gives none);
    every chunk is for one of the paths, with the prefix before it, and
    carries the row number and the size of the first file; a chunk for a
    row group has a group index below the number of row groups of its file
    and that number in [num_group_rows]. *)
Theorem tile_chunks_indexes (groups_as_chunks : bool) (num_row_groups : string -> nat)
  (get_row_num file_size : string -> Z) (path_prefix : string) (paths : list string) :
  let out_chunks :=
    Parquet.tile_chunks groups_as_chunks num_row_groups get_row_num file_size
      path_prefix paths in
  map Parquet.index out_chunks = seq 0 (List.length out_chunks) /\
  List.length out_chunks
  = (if groups_as_chunks
     then list_sum (map (fun pth => num_row_groups (String.append path_prefix pth)) paths)
     else List.length paths) /\
  forall c, In c out_chunks ->
    (exists pth, In pth paths /\ Parquet.path c = String.append path_prefix pth) /\
    Parquet.first_chunk_row_num c
    = option_map (fun pth => get_row_num (String.append path_prefix pth)) (hd_error paths) /\
    Parquet.first_chunk_raw_bytes c
    = option_map (fun pth => file_size (String.append path_prefix pth)) (hd_error paths) /\
    match Parquet.group_index c with
    | Some group_idx =>
        groups_as_chunks = true /\
        (group_idx < num_row_groups (Parquet.path c))%nat /\
        Parquet.num_group_rows c = Some (num_row_groups (Parquet.path c))
    | None => groups_as_chunks = false /\ Parquet.num_group_rows c = None
    end.
Proof.
  exact (tile_chunks_facts groups_as_chunks num_row_groups get_row_num file_size
           path_prefix paths).
Qed.
